(** * Port simulator: a shallow embedding of [port_model.py]

    The discrete-event model of a sea port (berths, cranes, storage pools,
    rail dispatch), its metrics collector and its capacity analysis.

    Python floats are modelled by exact rationals ([Q]); Python ints that
    come from the configuration are integers ([Z]); list lengths and
    counters are naturals.  A division by zero, which Python raises, is an
    explicit error result. *)

From Stdlib Require Import QArith Qabs Qminmax ZArith List Bool Lia Lqa.
From stdpp Require Import base list.
Import ListNotations.

Local Open Scope Q_scope.

(** ** Errors and results *)

Inductive exn :=
| ValueError
| ZeroDivisionError
| RuntimeError.

Inductive result (A : Type) :=
| Ok (a : A)
| Raise (e : exn).
Arguments Ok {A} a.
Arguments Raise {A} e.

Definition bind {A B : Type} (r : result A) (k : A -> result B) : result B :=
  match r with
  | Ok a => k a
  | Raise e => Raise e
  end.

Notation "'let*' x ':=' r 'in' k" := (bind r (fun x => k))
  (at level 10, x pattern, r at level 100, k at level 200).

(** ** Comparisons on floats, as booleans *)

Definition Qltb (a b : Q) : bool := negb (Qle_bool b a).
Definition Qgtb (a b : Q) : bool := Qltb b a.
Definition Qgeb (a b : Q) : bool := Qle_bool b a.

(** [a / b] of Python on floats: raises on a zero divisor. *)
Definition py_div (a b : Q) : result Q :=
  if Qeq_bool b 0 then Raise ZeroDivisionError else Ok (a / b).

(** Python's [sum] and numpy's [mean] on a list of floats. *)
Definition py_sum (l : list Q) : Q := fold_left Qplus l 0.

Definition np_mean (l : list Q) : Q :=
  py_sum l / inject_Z (Z.of_nat (length l)).

(** ** PortMetrics *)

Record queue_sample := { q_time : Q; q_queue : nat }.
Record usage_sample := { u_time : Q; u_usage : Q }.

Record PortMetrics := {
  ships_processed : nat;
  ships_in_queue : list queue_sample;
  berth_usage : list usage_sample;
  crane_usage : list usage_sample;
  storage_usage : list usage_sample;
  ship_waiting_times : list Q;
  ship_processing_times : list Q;
  cargo_processed : list Q;
  bottlenecks : list unit
}.

(** [PortMetrics.__init__] *)
Definition PortMetrics_init : PortMetrics :=
  {| ships_processed := 0;
     ships_in_queue := [];
     berth_usage := [];
     crane_usage := [];
     storage_usage := [];
     ship_waiting_times := [];
     ship_processing_times := [];
     cargo_processed := [];
     bottlenecks := [] |}.

Definition record_ship_arrival (time : Q) (queue_length : nat)
    (m : PortMetrics) : PortMetrics :=
  {| ships_processed := ships_processed m;
     ships_in_queue :=
       ships_in_queue m ++ [{| q_time := time; q_queue := queue_length |}];
     berth_usage := berth_usage m;
     crane_usage := crane_usage m;
     storage_usage := storage_usage m;
     ship_waiting_times := ship_waiting_times m;
     ship_processing_times := ship_processing_times m;
     cargo_processed := cargo_processed m;
     bottlenecks := bottlenecks m |}.

Definition record_ship_processing (waiting_time processing_time cargo_amount : Q)
    (m : PortMetrics) : PortMetrics :=
  {| ships_processed := S (ships_processed m);
     ships_in_queue := ships_in_queue m;
     berth_usage := berth_usage m;
     crane_usage := crane_usage m;
     storage_usage := storage_usage m;
     ship_waiting_times := ship_waiting_times m ++ [waiting_time];
     ship_processing_times := ship_processing_times m ++ [processing_time];
     cargo_processed := cargo_processed m ++ [cargo_amount];
     bottlenecks := bottlenecks m |}.

Definition record_resource_usage (time : Q) (berths_busy cranes_busy : nat)
    (storage_used storage_capacity : Q) (m : PortMetrics) : PortMetrics :=
  let storage_pct :=
    if Qgtb storage_capacity 0 then storage_used / storage_capacity * 100 else 0 in
  {| ships_processed := ships_processed m;
     ships_in_queue := ships_in_queue m;
     berth_usage :=
       berth_usage m
         ++ [{| u_time := time; u_usage := inject_Z (Z.of_nat berths_busy) |}];
     crane_usage :=
       crane_usage m
         ++ [{| u_time := time; u_usage := inject_Z (Z.of_nat cranes_busy) |}];
     storage_usage :=
       storage_usage m ++ [{| u_time := time; u_usage := storage_pct |}];
     ship_waiting_times := ship_waiting_times m;
     ship_processing_times := ship_processing_times m;
     cargo_processed := cargo_processed m;
     bottlenecks := bottlenecks m |}.

(** The operations a client can perform on a [PortMetrics] object. *)
Inductive metrics_op :=
| OpArrival (time : Q) (queue_length : nat)
| OpProcessing (waiting_time processing_time cargo_amount : Q)
| OpUsage (time : Q) (berths_busy cranes_busy : nat)
    (storage_used storage_capacity : Q).

Definition apply_op (m : PortMetrics) (op : metrics_op) : PortMetrics :=
  match op with
  | OpArrival t q => record_ship_arrival t q m
  | OpProcessing w p c => record_ship_processing w p c m
  | OpUsage t b c u cap => record_resource_usage t b c u cap m
  end.

Definition apply_ops (ops : list metrics_op) (m : PortMetrics) : PortMetrics :=
  fold_left apply_op ops m.

(** ** Configuration *)

Record cargo_dist := { p_grain : Q; p_oil : Q; p_general : Q }.

Record Config := {
  oil_berths : Z;
  dry_berths : Z;
  cranes : Z;
  grain_speed : Q;
  oil_speed : Q;
  general_speed : Q;
  grain_storage_capacity : Q;
  general_storage_capacity : Q;
  oil_storage_capacity : Q;
  trains_per_day : Z;
  train_capacity : Q;
  railway_capacity : Z;
  ships_per_year : Z;
  cargo_distribution : cargo_dist
}.

(** ** Capacity analysis: [calculate_capacity_metrics] *)

(** The keys of the [capacities] dict, in insertion order:
    'Причалы', 'Краны', 'Склады', 'ЖД'. *)
Inductive element := Berths | Cranes | Storage | Rail.

Inductive status := AtLimit | ModerateLoad | AmpleReserve.
Inductive color := Red | Orange | Green.

Inductive issue :=
| CriticalQueue (max_queue : nat)
| CriticalWait (avg_wait_time : Q)
| CriticalStorage (avg_storage_usage : Q).

(** Python's [min(iterable, key=...)]: the first item is the candidate and a
    later item replaces it only when its key is strictly smaller. *)
Fixpoint py_min_by {A : Type} (key : A -> Q) (best : A) (l : list A) : A :=
  match l with
  | [] => best
  | x :: l' => py_min_by key (if Qltb (key x) (key best) then x else best) l'
  end.

(** Python's [max(a, b)]: [b] replaces [a] only when strictly greater. *)
Definition py_max2 (a b : Q) : Q := if Qgtb b a then b else a.

Definition mean_or_zero (l : list Q) : Q :=
  match l with
  | [] => 0
  | _ => np_mean l
  end.

Record CapacityReport := {
  annual_cargo_tons : Q;
  r_ships_processed : nat;
  avg_wait_time_hours : Q;
  avg_processing_time_hours : Q;
  berth_utilization_pct : Q;
  crane_utilization_pct : Q;
  storage_utilization_pct : Q;
  avg_queue_length : Q;
  max_queue_length : nat;
  theoretical_max_capacity_tons : Q;
  capacity_utilization_pct : Q;
  reserve_capacity_tons : Q;
  bottleneck : element;
  capacities : list (element * Q);
  critical_issues : list issue;
  system_status : status;
  status_color : color
}.

(** Lines 330-338: the status from the utilization percentage. *)
Definition classify_status (capacity_utilization : Q) : status * color :=
  if Qgtb capacity_utilization 80 then (AtLimit, Red)
  else if Qgtb capacity_utilization 60 then (ModerateLoad, Orange)
  else (AmpleReserve, Green).

(** The [port] argument of the source function is never read and is left
    out. *)
Definition calculate_capacity_metrics (metrics : PortMetrics) (config : Config)
    (simulation_hours : Q) : result CapacityReport :=
  let total_cargo := py_sum (cargo_processed metrics) in
  let* year_factor := py_div 8760 simulation_hours in
  let annual_cargo := total_cargo * year_factor in
  let avg_wait_time := mean_or_zero (ship_waiting_times metrics) in
  let avg_processing_time := mean_or_zero (ship_processing_times metrics) in
  let avg_berth_usage := mean_or_zero (map u_usage (berth_usage metrics)) in
  let total_berths := (oil_berths config + dry_berths config)%Z in
  let berth_utilization :=
    if (0 <? total_berths)%Z
    then avg_berth_usage / inject_Z total_berths * 100 else 0 in
  let avg_crane_usage := mean_or_zero (map u_usage (crane_usage metrics)) in
  let crane_utilization :=
    if (0 <? cranes config)%Z
    then avg_crane_usage / inject_Z (cranes config) * 100 else 0 in
  let avg_storage_usage := mean_or_zero (map u_usage (storage_usage metrics)) in
  let queues := map q_queue (ships_in_queue metrics) in
  let avg_queue :=
    mean_or_zero (map (fun n => inject_Z (Z.of_nat n)) queues) in
  let max_queue := fold_right Nat.max 0%nat queues in
  let avg_ship_time :=
    if Qgtb avg_processing_time 0 then avg_processing_time else 24 in
  let ships_per_year_capacity :=
    inject_Z total_berths * 8760 / avg_ship_time in
  let avg_cargo_per_ship :=
    if (0 <? ships_processed metrics)%nat
    then total_cargo / inject_Z (Z.of_nat (ships_processed metrics))
    else 5000 in
  let berth_capacity_annual := ships_per_year_capacity * avg_cargo_per_ship in
  let crane_capacity_annual :=
    inject_Z (cranes config) * general_speed config * 8760 * (7 # 10) in
  let total_storage_capacity :=
    grain_storage_capacity config + general_storage_capacity config
    + oil_storage_capacity config in
  let storage_capacity_annual := total_storage_capacity * 24 in
  let railway_capacity_annual :=
    inject_Z (trains_per_day config) * train_capacity config * 365 in
  let first := (Berths, berth_capacity_annual) in
  let rest :=
    [(Cranes, crane_capacity_annual);
     (Storage, storage_capacity_annual);
     (Rail, railway_capacity_annual)] in
  let theoretical_max_capacity := snd (py_min_by snd first rest) in
  let bottleneck := fst (py_min_by snd first rest) in
  let capacity_utilization :=
    if Qgtb theoretical_max_capacity 0
    then annual_cargo / theoretical_max_capacity * 100 else 0 in
  let reserve_capacity := py_max2 0 (theoretical_max_capacity - annual_cargo) in
  let critical_issues :=
    (if (5 <? max_queue)%nat then [CriticalQueue max_queue] else [])
    ++ (if Qgtb avg_wait_time 72 then [CriticalWait avg_wait_time] else [])
    ++ (if Qgtb avg_storage_usage 95
        then [CriticalStorage avg_storage_usage] else []) in
  let '(system_status, status_color) := classify_status capacity_utilization in
  Ok {| annual_cargo_tons := annual_cargo;
        r_ships_processed := ships_processed metrics;
        avg_wait_time_hours := avg_wait_time;
        avg_processing_time_hours := avg_processing_time;
        berth_utilization_pct := berth_utilization;
        crane_utilization_pct := crane_utilization;
        storage_utilization_pct := avg_storage_usage;
        avg_queue_length := avg_queue;
        max_queue_length := max_queue;
        theoretical_max_capacity_tons := theoretical_max_capacity;
        capacity_utilization_pct := capacity_utilization;
        reserve_capacity_tons := reserve_capacity;
        bottleneck := bottleneck;
        capacities := first :: rest;
        critical_issues := critical_issues;
        system_status := system_status;
        status_color := status_color |}.

(** ** Sample inputs *)

(** The default configuration of the dashboard. *)
Definition sample_config : Config :=
  {| oil_berths := 5; dry_berths := 5; cranes := 7;
     grain_speed := 300; oil_speed := 1000; general_speed := 20;
     grain_storage_capacity := 100000;
     general_storage_capacity := 20000;
     oil_storage_capacity := 540000;
     trains_per_day := 7; train_capacity := 2000; railway_capacity := 2;
     ships_per_year := 714;
     cargo_distribution :=
       {| p_grain := 32 # 100; p_oil := 35 # 100; p_general := 33 # 100 |} |}.

(** Three completed ships, one arrival sample each, one usage snapshot. *)
Definition sample_metrics : PortMetrics :=
  apply_ops
    [OpArrival 0 0; OpArrival 12 0; OpProcessing 0 10 3000;
     OpUsage 10 1 1 3000 660000; OpArrival 24 1;
     OpProcessing 0 5 5000; OpProcessing 1 50 1000]
    PortMetrics_init.

(** A log and a configuration whose utilization is exactly 60 percent:
    21900 tons in 876 hours against one train of 1000 tons a day. *)
Definition metrics_sixty : PortMetrics :=
  apply_ops
    [OpProcessing 0 24 6000; OpProcessing 0 24 9000; OpProcessing 0 24 6900]
    PortMetrics_init.

Definition config_sixty : Config :=
  {| oil_berths := 5; dry_berths := 5; cranes := 7;
     grain_speed := 300; oil_speed := 1000; general_speed := 20;
     grain_storage_capacity := 100000;
     general_storage_capacity := 20000;
     oil_storage_capacity := 540000;
     trains_per_day := 1; train_capacity := 1000; railway_capacity := 2;
     ships_per_year := 714;
     cargo_distribution :=
       {| p_grain := 32 # 100; p_oil := 35 # 100; p_general := 33 # 100 |} |}.

(** ** The simulation library (SimPy 4), as far as the program uses it

    The program drives SimPy's [Environment], [Resource] and [Container].
    Their behaviour is written out here operationally:
    - the environment keeps a heap of entries [(time, priority, eid, event)]
      and repeatedly pops the least one; [eid] is a counter taken at each
      [schedule], so entries of one instant and priority leave in the order
      they were scheduled;
    - a process is a generator; it is resumed by the event it yielded;
    - [Resource.request] appends to the wait queue and grants the head of the
      queue when a slot is free; [release] removes the user at once and, when
      the release event is processed, grants the head of the queue;
    - [Container.put]/[get] append to a queue and serve the queue from its
      head until the first request that cannot be served. *)

Inductive cargo := Grain | Oil | General.

#[global] Instance cargo_eq_dec : EqDecision cargo.
Proof. solve_decision. Defined.

Definition pid := nat.

Record Resource := {
  capacity : Z;
  users : list pid;
  queue : list pid
}.

Record Container := {
  c_capacity : Q;
  level : Q;
  put_queue : list (pid * Q);
  get_queue : list (pid * Q)
}.

(** [Resource.__init__] and [Container.__init__] reject a capacity [<= 0]. *)
Definition Resource_init (cap : Z) : result Resource :=
  if (cap <=? 0)%Z then Raise ValueError
  else Ok {| capacity := cap; users := []; queue := [] |}.

Definition Container_init (cap init : Q) : result Container :=
  if Qle_bool cap 0 then Raise ValueError
  else if Qltb init 0 then Raise ValueError
  else if Qgtb init cap then Raise ValueError
  else Ok {| c_capacity := cap; level := init; put_queue := []; get_queue := [] |}.

(** [Resource.count] *)
Definition count (r : Resource) : nat := length (users r).

(** [list.remove]: drops the first occurrence (the caller ignores a miss). *)
Fixpoint remove_first (p : pid) (l : list pid) : list pid :=
  match l with
  | [] => []
  | x :: l' => if Nat.eqb x p then l' else x :: remove_first p l'
  end.

(** ** Port *)

Inductive res_id := OilBerths | DryBerths | CranesRes | Railway.

#[global] Instance res_id_eq_dec : EqDecision res_id.
Proof. solve_decision. Defined.

Record Port := {
  port_config : Config;
  port_oil_berths : Resource;
  port_dry_berths : Resource;
  port_cranes : Resource;
  grain_storage : Container;
  general_storage : Container;
  oil_storage : Container;
  railway : Resource;
  total_storage_used : Q;
  total_storage_capacity : Q
}.

(** [Port.__init__]: the constructors run in the order of the source. *)
Definition Port_init (config : Config) : result Port :=
  let* ob := Resource_init (oil_berths config) in
  let* db := Resource_init (dry_berths config) in
  let* cr := Resource_init (cranes config) in
  let* gs := Container_init (grain_storage_capacity config) 0 in
  let* ns := Container_init (general_storage_capacity config) 0 in
  let* os := Container_init (oil_storage_capacity config) 0 in
  let* rw := Resource_init (railway_capacity config) in
  Ok {| port_config := config;
        port_oil_berths := ob;
        port_dry_berths := db;
        port_cranes := cr;
        grain_storage := gs;
        general_storage := ns;
        oil_storage := os;
        railway := rw;
        total_storage_used := 0;
        total_storage_capacity :=
          grain_storage_capacity config + general_storage_capacity config
          + oil_storage_capacity config |}.

Definition get_res (r : res_id) (port : Port) : Resource :=
  match r with
  | OilBerths => port_oil_berths port
  | DryBerths => port_dry_berths port
  | CranesRes => port_cranes port
  | Railway => railway port
  end.

Definition set_res (r : res_id) (x : Resource) (port : Port) : Port :=
  {| port_config := port_config port;
     port_oil_berths := match r with OilBerths => x | _ => port_oil_berths port end;
     port_dry_berths := match r with DryBerths => x | _ => port_dry_berths port end;
     port_cranes := match r with CranesRes => x | _ => port_cranes port end;
     grain_storage := grain_storage port;
     general_storage := general_storage port;
     oil_storage := oil_storage port;
     railway := match r with Railway => x | _ => railway port end;
     total_storage_used := total_storage_used port;
     total_storage_capacity := total_storage_capacity port |}.

(** [Port.get_berth] *)
Definition get_berth (cargo_type : cargo) : res_id :=
  match cargo_type with
  | Oil => OilBerths
  | _ => DryBerths
  end.

(** [Port.get_storage]: the pool of a cargo type. *)
Definition get_storage (cargo_type : cargo) (port : Port) : Container :=
  match cargo_type with
  | Grain => grain_storage port
  | Oil => oil_storage port
  | General => general_storage port
  end.

Definition set_storage (cargo_type : cargo) (x : Container) (port : Port) : Port :=
  {| port_config := port_config port;
     port_oil_berths := port_oil_berths port;
     port_dry_berths := port_dry_berths port;
     port_cranes := port_cranes port;
     grain_storage := match cargo_type with Grain => x | _ => grain_storage port end;
     general_storage :=
       match cargo_type with General => x | _ => general_storage port end;
     oil_storage := match cargo_type with Oil => x | _ => oil_storage port end;
     railway := railway port;
     total_storage_used := total_storage_used port;
     total_storage_capacity := total_storage_capacity port |}.

(** [Port.get_unloading_speed] *)
Definition get_unloading_speed (cargo_type : cargo) (port : Port) : Q :=
  match cargo_type with
  | Grain => grain_speed (port_config port)
  | Oil => oil_speed (port_config port)
  | General => general_speed (port_config port)
  end.

(** ** Events and processes *)

Inductive event :=
| Initialize (p : pid)
| Timeout (p : pid)
| Request (r : res_id) (p : pid)
| Release (r : res_id)
| ContainerPut (c : cargo) (p : pid)
| ContainerGet (c : cargo) (p : pid)
| ProcessEnd (p : pid)
| ProcessFail (p : pid) (e : exn)
| Until.

Definition URGENT : nat := 0.
Definition NORMAL : nat := 1.

(** A heap entry [(time, priority, eid, event)]. *)
Record entry := {
  e_time : Q;
  e_priority : nat;
  e_eid : nat;
  e_event : event
}.

Definition entry_lt (a b : entry) : bool :=
  Qltb (e_time a) (e_time b)
  || (Qeq_bool (e_time a) (e_time b)
      && ((e_priority a <? e_priority b)%nat
          || ((e_priority a =? e_priority b)%nat && (e_eid a <? e_eid b)%nat))).

(** [heappush]: the heap is kept as a list ordered by [entry_lt], so that
    [heappop] is the head of the list. *)
Fixpoint heappush (x : entry) (q : list entry) : list entry :=
  match q with
  | [] => [x]
  | y :: q' => if entry_lt x y then x :: y :: q' else y :: heappush x q'
  end.

(** The suspension points of [ship_process]. *)
Inductive ship_pc :=
| ShipInit        (* created, not started *)
| AwaitBerth      (* [yield berth_req] *)
| AwaitCrane      (* [yield crane_req] *)
| AwaitSpace      (* [yield env.timeout(1)] in the storage loop *)
| Unloading       (* [yield env.timeout(unloading_time)] *)
| AwaitPut        (* [yield storage.put(cargo_amount)] *)
| ShipDone.

Record Ship := {
  ship_id : nat;
  cargo_type : cargo;
  cargo_amount : Q;
  arrival_time : Q;
  berth_wait_time : Q;
  ship_at : ship_pc
}.

(** The suspension points of [railway_unload_process]; the drain branch
    keeps its locals [amount] and [take]. *)
Inductive rail_pc :=
| RailInit
| RailInterval                        (* [yield env.timeout(interval)] *)
| RailTrack                           (* [yield rail_req] *)
| RailSingleGet (c : cargo)           (* a whole train: lines 191/193/195 *)
| RailGrainGet (amount take : Q)      (* line 202 *)
| RailGeneralGet (amount take : Q)    (* line 206 *)
| RailOilGet                          (* line 210 *)
| RailLoading                         (* [yield env.timeout(2)] *)
| RailFailed.

(** The suspension points of [ship_generator]. *)
Inductive gen_pc := GenInit | GenSleeping | GenFailed.

Inductive proc :=
| PGen (next_ship_id : nat) (inter_arrival_time : Q) (at_pc : gen_pc)
| PRail (at_pc : rail_pc)
| PShip (s : Ship).

(** ** The random source

    The program draws from numpy's global generator.  Its state is passed
    explicitly; the three draws the program uses are fields of the source.
    [seed_state] is the state [np.random.seed] installs; [choice_atol] is
    the tolerance of [numpy.random.choice] on the sum of the probabilities. *)

Record RandomSource := {
  rng : Type;
  seed_state : nat -> rng;
  draw_choice : cargo_dist -> rng -> cargo * rng;
  draw_uniform : Q -> Q -> rng -> Q * rng;
  draw_exponential : Q -> rng -> Q * rng;
  choice_atol : Q
}.

(** [np.random.choice(['grain','oil','general'], p=[...])]: rejects negative
    probabilities and a sum away from 1. *)
Definition np_random_choice (R : RandomSource) (p : cargo_dist) (g : rng R)
  : result (cargo * rng R) :=
  if Qltb (p_grain p) 0 || Qltb (p_oil p) 0 || Qltb (p_general p) 0
  then Raise ValueError
  else if Qgtb (Qabs (p_grain p + p_oil p + p_general p - 1)) (choice_atol R)
  then Raise ValueError
  else Ok (draw_choice R p g).

(** [np.random.exponential(scale)]: rejects a negative scale. *)
Definition np_random_exponential (R : RandomSource) (scale : Q) (g : rng R)
  : result (Q * rng R) :=
  if Qltb scale 0 then Raise ValueError else Ok (draw_exponential R scale g).

(** A source for running the model on concrete inputs: cargo types in turn
    (grain, oil, general, ...), the least tonnage of the range, and the mean
    gap between arrivals. *)
Definition turn_source : RandomSource :=
  {| rng := nat;
     seed_state := fun seed => seed;
     draw_choice := fun _ n =>
       (match (n mod 3)%nat with
        | 0%nat => Grain
        | 1%nat => Oil
        | _ => General
        end, S n);
     draw_uniform := fun lo _ n => (lo, n);
     draw_exponential := fun scale n => (scale, n);
     choice_atol := 1 # 100000000 |}.

Section Engine.

Context {R : RandomSource}.

(** ** The state of a run: environment, port, metrics, processes *)

Record Sim := {
  now : Q;
  eid : nat;
  events : list entry;
  port : Port;
  metrics : PortMetrics;
  procs : list proc;
  random : rng R
}.

Definition set_now (t : Q) (s : Sim) : Sim :=
  {| now := t; eid := eid s; events := events s; port := port s;
     metrics := metrics s; procs := procs s; random := random s |}.

Definition set_events (q : list entry) (s : Sim) : Sim :=
  {| now := now s; eid := eid s; events := q; port := port s;
     metrics := metrics s; procs := procs s; random := random s |}.

Definition set_port (x : Port) (s : Sim) : Sim :=
  {| now := now s; eid := eid s; events := events s; port := x;
     metrics := metrics s; procs := procs s; random := random s |}.

Definition set_metrics (m : PortMetrics) (s : Sim) : Sim :=
  {| now := now s; eid := eid s; events := events s; port := port s;
     metrics := m; procs := procs s; random := random s |}.

Definition set_procs (l : list proc) (s : Sim) : Sim :=
  {| now := now s; eid := eid s; events := events s; port := port s;
     metrics := metrics s; procs := l; random := random s |}.

Definition set_random (g : rng R) (s : Sim) : Sim :=
  {| now := now s; eid := eid s; events := events s; port := port s;
     metrics := metrics s; procs := procs s; random := g |}.

Definition set_proc (p : pid) (x : proc) (s : Sim) : Sim :=
  set_procs (<[p := x]> (procs s)) s.

(** [Environment.schedule] *)
Definition schedule (ev : event) (priority : nat) (delay : Q) (s : Sim) : Sim :=
  {| now := now s;
     eid := S (eid s);
     events :=
       heappush {| e_time := now s + delay; e_priority := priority;
                   e_eid := eid s; e_event := ev |} (events s);
     port := port s; metrics := metrics s; procs := procs s;
     random := random s |}.

(** *** Resource *)

(** [Resource._trigger_put]: [_do_put] returns [None], so the loop stops
    after the head of the queue. *)
Definition resource_trigger_put (r : res_id) (s : Sim) : Sim :=
  let res := get_res r (port s) in
  match queue res with
  | [] => s
  | p :: rest =>
      if (Z.of_nat (length (users res)) <? capacity res)%Z
      then
        schedule (Request r p) NORMAL 0
          (set_port
             (set_res r {| capacity := capacity res;
                           users := users res ++ [p];
                           queue := rest |} (port s)) s)
      else s
  end.

(** [Resource.request()] *)
Definition request (r : res_id) (p : pid) (s : Sim) : Sim :=
  let res := get_res r (port s) in
  resource_trigger_put r
    (set_port
       (set_res r {| capacity := capacity res; users := users res;
                     queue := queue res ++ [p] |} (port s)) s).

(** [Resource.release(request)]: the release is served at once. *)
Definition release (r : res_id) (p : pid) (s : Sim) : Sim :=
  let res := get_res r (port s) in
  schedule (Release r) NORMAL 0
    (set_port
       (set_res r {| capacity := capacity res;
                     users := remove_first p (users res);
                     queue := queue res |} (port s)) s).

(** [Put.cancel]: an untriggered request is still in the queue. *)
Definition cancel (r : res_id) (p : pid) (s : Sim) : Sim :=
  let res := get_res r (port s) in
  set_port
    (set_res r {| capacity := capacity res; users := users res;
                  queue := remove_first p (queue res) |} (port s)) s.

(** [Request.__exit__], the end of a [with ... request()] block. *)
Definition exit_request (r : res_id) (p : pid) (s : Sim) : Sim :=
  release r p (cancel r p s).

(** *** Container *)

(** The loop of [_trigger_put] over [put_queue]: the new level, the requests
    left in the queue and the processes whose put succeeded, in order. *)
Fixpoint serve_puts (cap lvl : Q) (pending : list (pid * Q))
  : Q * list (pid * Q) * list pid :=
  match pending with
  | [] => (lvl, [], [])
  | (p, amount) :: rest =>
      if Qgeb (cap - lvl) amount
      then let '(lvl', waiting, served) := serve_puts cap (lvl + amount) rest in
           (lvl', waiting, p :: served)
      else (lvl, pending, [])
  end.

(** The loop of [_trigger_get] over [get_queue]. *)
Fixpoint serve_gets (lvl : Q) (pending : list (pid * Q))
  : Q * list (pid * Q) * list pid :=
  match pending with
  | [] => (lvl, [], [])
  | (p, amount) :: rest =>
      if Qgeb lvl amount
      then let '(lvl', waiting, served) := serve_gets (lvl - amount) rest in
           (lvl', waiting, p :: served)
      else (lvl, pending, [])
  end.

Definition schedule_all (mk : pid -> event) (served : list pid) (s : Sim) : Sim :=
  fold_left (fun s p => schedule (mk p) NORMAL 0 s) served s.

Definition container_trigger_put (c : cargo) (s : Sim) : Sim :=
  let st := get_storage c (port s) in
  let '(lvl, waiting, served) :=
    serve_puts (c_capacity st) (level st) (put_queue st) in
  schedule_all (ContainerPut c) served
    (set_port
       (set_storage c {| c_capacity := c_capacity st; level := lvl;
                         put_queue := waiting; get_queue := get_queue st |}
          (port s)) s).

Definition container_trigger_get (c : cargo) (s : Sim) : Sim :=
  let st := get_storage c (port s) in
  let '(lvl, waiting, served) := serve_gets (level st) (get_queue st) in
  schedule_all (ContainerGet c) served
    (set_port
       (set_storage c {| c_capacity := c_capacity st; level := lvl;
                         put_queue := put_queue st; get_queue := waiting |}
          (port s)) s).

(** [Container.put(amount)] *)
Definition container_put (c : cargo) (p : pid) (amount : Q) (s : Sim)
  : result Sim :=
  if Qle_bool amount 0 then Raise ValueError
  else
    let st := get_storage c (port s) in
    Ok (container_trigger_put c
          (set_port
             (set_storage c {| c_capacity := c_capacity st; level := level st;
                               put_queue := put_queue st ++ [(p, amount)];
                               get_queue := get_queue st |} (port s)) s)).

(** [Container.get(amount)] *)
Definition container_get (c : cargo) (p : pid) (amount : Q) (s : Sim)
  : result Sim :=
  if Qle_bool amount 0 then Raise ValueError
  else
    let st := get_storage c (port s) in
    Ok (container_trigger_get c
          (set_port
             (set_storage c {| c_capacity := c_capacity st; level := level st;
                               put_queue := put_queue st;
                               get_queue := get_queue st ++ [(p, amount)] |}
                (port s)) s)).

(** ** [ship_process] *)

Definition ship_moves (sh : Ship) (pc : ship_pc) : Ship :=
  {| ship_id := ship_id sh; cargo_type := cargo_type sh;
     cargo_amount := cargo_amount sh; arrival_time := arrival_time sh;
     berth_wait_time := berth_wait_time sh; ship_at := pc |}.

Definition is_oil (c : cargo) : bool :=
  match c with Oil => true | _ => false end.

(** Leaving the [with] blocks of a berthed ship: the crane block (dry cargo
    only), then the berth block. *)
Definition ship_leave_blocks (p : pid) (sh : Ship) (s : Sim) : Sim :=
  let s1 := if is_oil (cargo_type sh) then s else exit_request CranesRes p s in
  exit_request (get_berth (cargo_type sh)) p s1.

(** An exception inside the blocks leaves them and fails the process. *)
Definition ship_fail (p : pid) (sh : Ship) (e : exn) (s : Sim) : Sim :=
  schedule (ProcessFail p e) NORMAL 0
    (set_proc p (PShip (ship_moves sh ShipDone)) (ship_leave_blocks p sh s)).

(** Lines 139-148 (dry cargo) and 154-161 (oil): the wait for storage
    headroom, then the start of unloading. *)
Definition ship_storage_loop (p : pid) (sh : Ship) (s : Sim) : Sim :=
  let storage := get_storage (cargo_type sh) (port s) in
  if Qgtb (level storage + cargo_amount sh) (c_capacity storage)
  then schedule (Timeout p) NORMAL 1 (set_proc p (PShip (ship_moves sh AwaitSpace)) s)
  else
    let unloading_speed := get_unloading_speed (cargo_type sh) (port s) in
    match py_div (cargo_amount sh) unloading_speed with
    | Raise e => ship_fail p sh e s
    | Ok unloading_time =>
        if Qltb unloading_time 0 then ship_fail p sh ValueError s
        else schedule (Timeout p) NORMAL unloading_time
               (set_proc p (PShip (ship_moves sh Unloading)) s)
    end.

(** Lines 165-174, after both blocks are left. *)
Definition ship_depart (p : pid) (sh : Ship) (s : Sim) : Sim :=
  let s1 := ship_leave_blocks p sh s in
  let processing_time := now s1 - arrival_time sh in
  let s2 :=
    set_metrics
      (record_ship_processing (berth_wait_time sh) processing_time
         (cargo_amount sh) (metrics s1)) s1 in
  let s3 :=
    if (ship_id sh mod 10 =? 0)%nat
    then
      let berths_busy :=
        (count (port_oil_berths (port s2)) + count (port_dry_berths (port s2)))%nat in
      let cranes_busy := count (port_cranes (port s2)) in
      let storage_used :=
        level (grain_storage (port s2)) + level (general_storage (port s2))
        + level (oil_storage (port s2)) in
      set_metrics
        (record_resource_usage (now s2) berths_busy cranes_busy storage_used
           (total_storage_capacity (port s2)) (metrics s2)) s2
    else s2 in
  schedule (ProcessEnd p) NORMAL 0
    (set_proc p (PShip (ship_moves sh ShipDone)) s3).

(** The generator of a ship, resumed at its suspension point by the event
    it yielded.  [None]: the event is not the one the process waits for. *)
Definition ship_resume (p : pid) (sh : Ship) (ev : event) (s : Sim) : option Sim :=
  match ship_at sh, ev with
  | ShipInit, Initialize _ =>
      let sh1 :=
        {| ship_id := ship_id sh; cargo_type := cargo_type sh;
           cargo_amount := cargo_amount sh; arrival_time := now s;
           berth_wait_time := berth_wait_time sh; ship_at := AwaitBerth |} in
      let berth := get_berth (cargo_type sh) in
      let queue_length := length (queue (get_res berth (port s))) in
      let s1 :=
        set_metrics (record_ship_arrival (now s) queue_length (metrics s)) s in
      Some (request berth p (set_proc p (PShip sh1) s1))
  | AwaitBerth, Request _ _ =>
      let sh1 :=
        {| ship_id := ship_id sh; cargo_type := cargo_type sh;
           cargo_amount := cargo_amount sh; arrival_time := arrival_time sh;
           berth_wait_time := now s - arrival_time sh; ship_at := AwaitBerth |} in
      if is_oil (cargo_type sh) then Some (ship_storage_loop p sh1 s)
      else Some (request CranesRes p
                   (set_proc p (PShip (ship_moves sh1 AwaitCrane)) s))
  | AwaitCrane, Request _ _ => Some (ship_storage_loop p sh s)
  | AwaitSpace, Timeout _ => Some (ship_storage_loop p sh s)
  | Unloading, Timeout _ =>
      match container_put (cargo_type sh) p (cargo_amount sh)
              (set_proc p (PShip (ship_moves sh AwaitPut)) s) with
      | Ok s' => Some s'
      | Raise e => Some (ship_fail p sh e s)
      end
  | AwaitPut, ContainerPut _ _ => Some (ship_depart p sh s)
  | _, _ => None
  end.

(** ** [railway_unload_process] *)

(** Python's [min(a, b)]: [b] replaces [a] only when strictly smaller. *)
Definition py_min2 (a b : Q) : Q := if Qltb b a then b else a.

Definition rail_fail (p : pid) (e : exn) (s : Sim) : Sim :=
  schedule (ProcessFail p e) NORMAL 0 (set_proc p (PRail RailFailed) s).

(** Lines 181-182. *)
Definition rail_wait_interval (p : pid) (s : Sim) : Sim :=
  match py_div 24 (inject_Z (trains_per_day (port_config (port s)))) with
  | Raise e => rail_fail p e s
  | Ok interval =>
      if Qltb interval 0 then rail_fail p ValueError s
      else schedule (Timeout p) NORMAL interval (set_proc p (PRail RailInterval) s)
  end.

(** Line 212. *)
Definition rail_load (p : pid) (s : Sim) : Sim :=
  schedule (Timeout p) NORMAL 2 (set_proc p (PRail RailLoading) s).

(** [yield pool.get(amount)] inside the track block. *)
Definition rail_get (c : cargo) (p : pid) (amount : Q) (next : rail_pc) (s : Sim)
  : Sim :=
  match container_get c p amount (set_proc p (PRail next) s) with
  | Ok s' => s'
  | Raise e => rail_fail p e (exit_request Railway p s)
  end.

(** Lines 208-210. *)
Definition rail_drain_oil (p : pid) (amount : Q) (s : Sim) : Sim :=
  let lvl := level (oil_storage (port s)) in
  if Qgtb amount 0 && Qgtb lvl 0
  then rail_get Oil p (py_min2 amount lvl) RailOilGet s
  else rail_load p s.

(** Lines 204-206. *)
Definition rail_drain_general (p : pid) (amount : Q) (s : Sim) : Sim :=
  let lvl := level (general_storage (port s)) in
  if Qgtb amount 0 && Qgtb lvl 0
  then let take := py_min2 amount lvl in
       rail_get General p take (RailGeneralGet amount take) s
  else rail_drain_oil p amount s.

(** Lines 200-202. *)
Definition rail_drain_grain (p : pid) (amount : Q) (s : Sim) : Sim :=
  let lvl := level (grain_storage (port s)) in
  if Qgtb lvl 0
  then let take := py_min2 amount lvl in
       rail_get Grain p take (RailGrainGet amount take) s
  else rail_drain_general p amount s.

(** Lines 187-199: the choice of the pool once the track is granted. *)
Definition rail_fire (p : pid) (s : Sim) : Sim :=
  let unload_amount := train_capacity (port_config (port s)) in
  let g := level (grain_storage (port s)) in
  let n := level (general_storage (port s)) in
  let o := level (oil_storage (port s)) in
  if Qgeb g unload_amount
  then rail_get Grain p unload_amount (RailSingleGet Grain) s
  else if Qgeb n unload_amount
  then rail_get General p unload_amount (RailSingleGet General) s
  else if Qgeb o unload_amount
  then rail_get Oil p unload_amount (RailSingleGet Oil) s
  else
    let amount := py_min2 unload_amount (g + n + o) in
    if Qgtb amount 0 then rail_drain_grain p amount s else rail_load p s.

Definition rail_resume (p : pid) (pc : rail_pc) (ev : event) (s : Sim) : option Sim :=
  match pc, ev with
  | RailInit, Initialize _ => Some (rail_wait_interval p s)
  | RailInterval, Timeout _ =>
      Some (request Railway p (set_proc p (PRail RailTrack) s))
  | RailTrack, Request _ _ => Some (rail_fire p s)
  | RailSingleGet _, ContainerGet _ _ => Some (rail_load p s)
  | RailGrainGet amount take, ContainerGet _ _ =>
      Some (rail_drain_general p (amount - take) s)
  | RailGeneralGet amount take, ContainerGet _ _ =>
      Some (rail_drain_oil p (amount - take) s)
  | RailOilGet, ContainerGet _ _ => Some (rail_load p s)
  | RailLoading, Timeout _ =>
      Some (rail_wait_interval p (exit_request Railway p s))
  | _, _ => None
  end.

(** ** [ship_generator] *)

Definition gen_fail (p : pid) (ship_id : nat) (inter : Q) (e : exn) (s : Sim) : Sim :=
  schedule (ProcessFail p e) NORMAL 0 (set_proc p (PGen ship_id inter GenFailed) s).

(** [env.process(generator)]: a new process and its [Initialize] event. *)
Definition spawn (x : proc) (s : Sim) : Sim :=
  schedule (Initialize (length (procs s))) URGENT 0
    (set_procs (procs s ++ [x]) s).

(** Lines 222-241: one turn of the loop. *)
Definition gen_loop (p : pid) (ship_id : nat) (inter : Q) (s : Sim) : Sim :=
  match np_random_choice R (cargo_distribution (port_config (port s))) (random s) with
  | Raise e => gen_fail p ship_id inter e s
  | Ok (cargo_type, g1) =>
      let '(cargo_amount, g2) :=
        match cargo_type with
        | Grain => draw_uniform R 3000 8000 g1
        | Oil => draw_uniform R 5000 15000 g1
        | General => draw_uniform R 1000 5000 g1
        end in
      let s1 :=
        spawn (PShip {| ship_id := ship_id; cargo_type := cargo_type;
                        cargo_amount := cargo_amount; arrival_time := 0;
                        berth_wait_time := 0; ship_at := ShipInit |})
          (set_random g2 s) in
      let ship_id := S ship_id in
      match np_random_exponential R inter (random s1) with
      | Raise e => gen_fail p ship_id inter e s1
      | Ok (delay, g3) =>
          if Qltb delay 0 then gen_fail p ship_id inter ValueError (set_random g3 s1)
          else schedule (Timeout p) NORMAL delay
                 (set_proc p (PGen ship_id inter GenSleeping) (set_random g3 s1))
      end
  end.

Definition gen_resume (p : pid) (ship_id : nat) (inter : Q) (pc : gen_pc)
    (ev : event) (s : Sim) : option Sim :=
  match pc, ev with
  | GenInit, Initialize _ =>
      match py_div 8760 (inject_Z (ships_per_year (port_config (port s)))) with
      | Raise e => Some (gen_fail p 0 inter e s)
      | Ok inter_arrival_time => Some (gen_loop p 0 inter_arrival_time s)
      end
  | GenSleeping, Timeout _ => Some (gen_loop p ship_id inter s)
  | _, _ => None
  end.

(** ** The event loop *)

(** [Process._resume]: the waiting process continues from its yield. *)
Definition resume (p : pid) (ev : event) (s : Sim) : option Sim :=
  match procs s !! p with
  | Some (PShip sh) => ship_resume p sh ev s
  | Some (PRail pc) => rail_resume p pc ev s
  | Some (PGen ship_id inter pc) => gen_resume p ship_id inter pc ev s
  | None => None
  end.

Inductive outcome :=
| Continue (s : Sim)
| Stop (s : Sim)           (* the [until] event: [StopSimulation] *)
| Throw (e : exn)          (* an exception leaves [env.run] *)
| Stuck.                   (* no such state in the library *)

Definition resumed (o : option Sim) : outcome :=
  match o with
  | Some s => Continue s
  | None => Stuck
  end.

(** [Environment.step]: pop the least entry and run the callbacks of its
    event. *)
Definition step (s : Sim) : outcome :=
  match events s with
  | [] => Throw RuntimeError
  | x :: rest =>
      let s := set_events rest (set_now (e_time x) s) in
      match e_event x with
      | Until => Stop s
      | Initialize p => resumed (resume p (Initialize p) s)
      | Timeout p => resumed (resume p (Timeout p) s)
      | Request r p => resumed (resume p (Request r p) s)
      | Release r => Continue (resource_trigger_put r s)
      | ContainerPut c p =>
          resumed (resume p (ContainerPut c p) (container_trigger_get c s))
      | ContainerGet c p =>
          resumed (resume p (ContainerGet c p) (container_trigger_put c s))
      | ProcessEnd p => Continue s
      | ProcessFail p e => Throw e
      end
  end.

(** The loop of [Environment.run], bounded by [fuel] steps. *)
Inductive run_result :=
| Finished (s : Sim)
| Raised (e : exn)
| OutOfFuel (s : Sim)
| Broken.

Fixpoint run_loop (fuel : nat) (s : Sim) : run_result :=
  match fuel with
  | O => OutOfFuel s
  | S fuel' =>
      match step s with
      | Continue s' => run_loop fuel' s'
      | Stop s' => Finished s'
      | Throw e => Raised e
      | Stuck => Broken
      end
  end.

(** The state [run_simulation] builds before [env.run]: the port, then the
    two processes. *)
Definition start (config : Config) (g : rng R) : result Sim :=
  let* port := Port_init config in
  let s0 :=
    {| now := 0; eid := 0%nat; events := []; port := port;
       metrics := PortMetrics_init; procs := []; random := g |} in
  let s1 := spawn (PGen 0 0 GenInit) s0 in
  Ok (spawn (PRail RailInit) s1).

(** [env.run(until=simulation_hours)] up to the loop: the horizon must lie
    after the current time; the [until] event is scheduled URGENT. *)
Definition run_until (simulation_hours : Q) (s : Sim) : result Sim :=
  if Qle_bool simulation_hours (now s) then Raise ValueError
  else Ok (schedule Until URGENT (simulation_hours - now s) s).

(** What [run_simulation] does before the first event is processed. *)
Definition prepare (config : Config) (simulation_hours : Q) (g : rng R)
  : result Sim :=
  let* s := start config g in
  run_until simulation_hours s.

Definition run_simulation (config : Config) (simulation_hours : Q)
    (fuel : nat) (g : rng R) : run_result :=
  match prepare config simulation_hours g with
  | Raise e => Raised e
  | Ok s => run_loop fuel s
  end.

End Engine.


Arguments Sim R : clear implicits.
Arguments outcome R : clear implicits.
Arguments run_result R : clear implicits.

(** ** Predicates used in the statements *)

Definition counter_matches (m : PortMetrics) : Prop :=
  ships_processed m = length (ship_waiting_times m)
  /\ ships_processed m = length (ship_processing_times m)
  /\ ships_processed m = length (cargo_processed m).

(** Every list of [m] is kept, in place, at the front of the list of [m']. *)
Definition entries_kept (m m' : PortMetrics) : Prop :=
  ships_in_queue m `prefix_of` ships_in_queue m'
  /\ berth_usage m `prefix_of` berth_usage m'
  /\ crane_usage m `prefix_of` crane_usage m'
  /\ storage_usage m `prefix_of` storage_usage m'
  /\ ship_waiting_times m `prefix_of` ship_waiting_times m'
  /\ ship_processing_times m `prefix_of` ship_processing_times m'
  /\ cargo_processed m `prefix_of` cargo_processed m'.


(** ** Reachable states of a run *)

Inductive reachable {R : RandomSource} (config : Config) (simulation_hours : Q)
    (g : rng R) : Sim R -> Prop :=
| reach_prepare (s : Sim R) :
    prepare config simulation_hours g = Ok s ->
    reachable config simulation_hours g s
| reach_continue (s s' : Sim R) :
    reachable config simulation_hours g s ->
    step s = Continue s' ->
    reachable config simulation_hours g s'
| reach_stop (s s' : Sim R) :
    reachable config simulation_hours g s ->
    step s = Stop s' ->
    reachable config simulation_hours g s'.

(** The state after [n] more steps of the loop (fewer if the loop ends). *)
Fixpoint advance {R : RandomSource} (n : nat) (s : Sim R) : Sim R :=
  match n with
  | O => s
  | S n' =>
      match step s with
      | Continue s' => advance n' s'
      | Stop s' => s'
      | _ => s
      end
  end.

(** ** Storage pools within bounds *)

Definition configured_capacity (c : cargo) (config : Config) : Q :=
  match c with
  | Grain => grain_storage_capacity config
  | Oil => oil_storage_capacity config
  | General => general_storage_capacity config
  end.

Definition amounts_positive (pending : list (pid * Q)) : Prop :=
  Forall (fun x => 0 < snd x) pending.

Definition pool_inv (st : Container) : Prop :=
  0 <= level st /\ level st <= c_capacity st
  /\ amounts_positive (put_queue st) /\ amounts_positive (get_queue st).

Definition port_inv (config : Config) (pt : Port) : Prop :=
  (forall c : cargo,
      pool_inv (get_storage c pt)
      /\ c_capacity (get_storage c pt) = configured_capacity c config)
  /\ port_config pt = config
  /\ total_storage_capacity pt
     = grain_storage_capacity config + general_storage_capacity config
       + oil_storage_capacity config.

Definition samples_bounded (m : PortMetrics) : Prop :=
  Forall (fun u => 0 <= u_usage u <= 100) (storage_usage m).

Definition storage_inv {R : RandomSource} (config : Config) (s : Sim R) : Prop :=
  port_inv config (port s) /\ samples_bounded (metrics s).

(** ** Utilization snapshots *)

(** The ship whose departure (lines 165-174) the next step performs: the
    least entry is the put event of a ship suspended at its [storage.put]. *)
Definition departing {R : RandomSource} (s : Sim R) : option Ship :=
  match events s with
  | [] => None
  | x :: _ =>
      match e_event x with
      | ContainerPut _ p =>
          match procs s !! p with
          | Some (PShip sh) =>
              match ship_at sh with
              | AwaitPut => Some sh
              | _ => None
              end
          | _ => None
          end
      | _ => None
      end
  end.

(** One sample more in each of the three usage lists. *)
Definition snapshot_appended (m m' : PortMetrics) : Prop :=
  exists b k u : usage_sample,
    berth_usage m' = berth_usage m ++ [b]
    /\ crane_usage m' = crane_usage m ++ [k]
    /\ storage_usage m' = storage_usage m ++ [u].

Definition no_snapshot (m m' : PortMetrics) : Prop :=
  berth_usage m' = berth_usage m
  /\ crane_usage m' = crane_usage m
  /\ storage_usage m' = storage_usage m.

(** The sampling rule as the specification words it: a step appends a
    snapshot exactly when it brings the number of completed ships to a
    multiple of 10. *)
Definition snapshot_on_tenth_completion {R : RandomSource} (s s' : Sim R) : Prop :=
  snapshot_appended (metrics s) (metrics s')
  <-> (ships_processed (metrics s') = S (ships_processed (metrics s))
       /\ (ships_processed (metrics s') mod 10 = 0)%nat).

(** ** Rail firings *)

(** The next step grants the rail process its track: lines 187-210 run. *)
Definition firing {R : RandomSource} (s : Sim R) : bool :=
  match events s with
  | x :: _ =>
      match e_event x with
      | Request Railway _ => true
      | _ => false
      end
  | [] => false
  end.

(** The simulated times of the firings within the next [n] steps. *)
Fixpoint firing_times {R : RandomSource} (n : nat) (s : Sim R) : list Q :=
  match n with
  | O => []
  | S n' =>
      match step s with
      | Continue s' =>
          (if firing s then [Qred (now s')] else []) ++ firing_times n' s'
      | _ => []
      end
  end.

(** The gaps between consecutive entries of a list of times. *)
Fixpoint gaps (l : list Q) : list Q :=
  match l with
  | a :: (b :: _) as l' => Qred (b - a) :: gaps l'
  | _ => []
  end.

(** ** Errors before the run *)

(** What the constructors of the library and [env.run] reject. *)
Definition rejected_before_run (config : Config) (simulation_hours : Q) : Prop :=
  (oil_berths config <= 0)%Z \/ (dry_berths config <= 0)%Z
  \/ (cranes config <= 0)%Z
  \/ grain_storage_capacity config <= 0
  \/ general_storage_capacity config <= 0
  \/ oil_storage_capacity config <= 0
  \/ (railway_capacity config <= 0)%Z
  \/ simulation_hours <= 0.

(** What the specification asks to be rejected: a non-positive resource
    count or capacity, a distribution whose sum is away from 1, or a
    non-positive horizon. *)
Definition spec_invalid (atol : Q) (config : Config) (simulation_hours : Q) : Prop :=
  (oil_berths config <= 0)%Z \/ (dry_berths config <= 0)%Z
  \/ (cranes config <= 0)%Z \/ (railway_capacity config <= 0)%Z
  \/ (trains_per_day config <= 0)%Z
  \/ grain_storage_capacity config <= 0
  \/ general_storage_capacity config <= 0
  \/ oil_storage_capacity config <= 0
  \/ train_capacity config <= 0
  \/ atol < Qabs (p_grain (cargo_distribution config)
                  + p_oil (cargo_distribution config)
                  + p_general (cargo_distribution config) - 1)
  \/ simulation_hours <= 0.

(** The default configuration with trains of capacity 0. *)
Definition config_empty_trains : Config :=
  {| oil_berths := 5; dry_berths := 5; cranes := 7;
     grain_speed := 300; oil_speed := 1000; general_speed := 20;
     grain_storage_capacity := 100000;
     general_storage_capacity := 20000;
     oil_storage_capacity := 540000;
     trains_per_day := 7; train_capacity := 0; railway_capacity := 2;
     ships_per_year := 714;
     cargo_distribution :=
       {| p_grain := 32 # 100; p_oil := 35 # 100; p_general := 33 # 100 |} |}.

(** ** A run and its report *)




(** ** One firing of the rail dispatch, on its own

    The withdrawals of lines 187-210 in sequence: the process is granted
    its track, and each [get] it yields is processed next, with no other
    process running in between. *)





Definition pool_level {R : RandomSource} (c : cargo) (s : Sim R) : Q :=
  level (get_storage c (port s)).


(** ** Holding the berth and the crane *)

(** The suspension points of a ship between the grant of its berth and its
    departure, and those between the grant of its crane and its departure. *)
Definition berthed (pc : ship_pc) : bool :=
  match pc with
  | AwaitCrane | AwaitSpace | Unloading | AwaitPut => true
  | _ => false
  end.

Definition craned (pc : ship_pc) : bool :=
  match pc with
  | AwaitSpace | Unloading | AwaitPut => true
  | _ => false
  end.

(** The resource whose request a process has yielded. *)
Definition waits_for (pr : proc) : option res_id :=
  match pr with
  | PShip sh =>
      match ship_at sh with
      | AwaitBerth => Some (get_berth (cargo_type sh))
      | AwaitCrane => Some CranesRes
      | _ => None
      end
  | PRail RailTrack => Some Railway
  | _ => None
  end.

(** The requests that are granted and whose event is still in the heap. *)
Definition request_of (x : entry) : option (res_id * pid) :=
  match e_event x with
  | Request r p => Some (r, p)
  | _ => None
  end.

Definition granted (q : list entry) : list (res_id * pid) := omap request_of q.

(** Process [p] has no request waiting in a queue or granted in the heap. *)
Definition unref {R : RandomSource} (p : pid) (s : Sim R) : Prop :=
  (p ∉ (granted (events s)).*2)
  /\ forall r, p ∉ queue (get_res r (port s)).

Definition not_request (ev : event) : Prop :=
  match ev with
  | Request _ _ => False
  | _ => True
  end.

(** Two states with the same processes, the same granted requests and the
    same resources. *)
Definition same_core {R : RandomSource} (s s' : Sim R) : Prop :=
  procs s' = procs s
  /\ granted (events s') ≡ₚ granted (events s)
  /\ forall r, get_res r (port s') = get_res r (port s).

Record holds_inv {R : RandomSource} (s : Sim R) : Prop := {
  hold_berth : forall p sh,
    procs s !! p = Some (PShip sh) -> berthed (ship_at sh) = true ->
    p ∈ users (get_res (get_berth (cargo_type sh)) (port s));
  hold_crane : forall p sh,
    procs s !! p = Some (PShip sh) -> craned (ship_at sh) = true ->
    cargo_type sh <> Oil ->
    p ∈ users (port_cranes (port s));
  dry_at_crane : forall p sh,
    procs s !! p = Some (PShip sh) -> ship_at sh = AwaitCrane ->
    cargo_type sh <> Oil;
  crane_users_dry : forall p,
    p ∈ users (port_cranes (port s)) ->
    exists sh, procs s !! p = Some (PShip sh) /\ cargo_type sh <> Oil;
  granted_ok : forall r p,
    (r, p) ∈ granted (events s) ->
    exists pr, procs s !! p = Some pr /\ waits_for pr = Some r
               /\ p ∈ users (get_res r (port s));
  granted_nodup : NoDup (granted (events s)).*2;
  queued_ok : forall r p,
    p ∈ queue (get_res r (port s)) ->
    exists pr, procs s !! p = Some pr /\ waits_for pr = Some r
               /\ (p ∉ (granted (events s)).*2);
  queue_nodup : forall r, NoDup (queue (get_res r (port s)))
}.

(** A process entry may only be replaced by one of the same kind, a ship by
    a ship with the same cargo. *)
Definition same_kind (old new : proc) : Prop :=
  match old, new with
  | PShip sh, PShip sh' => cargo_type sh' = cargo_type sh
  | PGen _ _ _, PGen _ _ _ => True
  | PRail _, PRail _ => True
  | _, _ => False
  end.

(** The scoping of the crane as the specification words it: no ship holds
    a crane while it waits for storage headroom or places its cargo. *)
Definition no_crane_while_waiting_or_storing {R : RandomSource} (s : Sim R) : Prop :=
  forall p sh,
    procs s !! p = Some (PShip sh) ->
    ship_at sh = AwaitSpace \/ ship_at sh = AwaitPut ->
    p ∉ users (port_cranes (port s)).

(** The default configuration with a grain terminal of 2000 tons, less than
    any grain ship carries. *)
Definition config_small_grain : Config :=
  {| oil_berths := 5; dry_berths := 5; cranes := 7;
     grain_speed := 300; oil_speed := 1000; general_speed := 20;
     grain_storage_capacity := 2000;
     general_storage_capacity := 20000;
     oil_storage_capacity := 540000;
     trains_per_day := 7; train_capacity := 2000; railway_capacity := 2;
     ships_per_year := 714;
     cargo_distribution :=
       {| p_grain := 32 # 100; p_oil := 35 # 100; p_general := 33 # 100 |} |}.

(** ** The operations a step is made of

    A step of the loop pops the least entry and then applies a sequence of
    the operations below: the calls the three processes make on the
    environment, the port and the metrics collector, each with what the
    code has computed or tested at the place of the call. *)

(** The record of a ship next to the one stored before it ran: the arrival
    time is taken at the start (line 122) and the berth wait when the
    berth is granted (line 133); nothing else changes. *)
Definition ship_local (t : Q) (old sh : Ship) : Prop :=
  ship_id sh = ship_id old /\ cargo_type sh = cargo_type old
  /\ cargo_amount sh = cargo_amount old
  /\ arrival_time sh
     = match ship_at old with
       | ShipInit => t
       | _ => arrival_time old
       end
  /\ berth_wait_time sh
     = match ship_at old with
       | AwaitBerth => t - arrival_time old
       | _ => berth_wait_time old
       end.

Definition ship_step (t : Q) (old new : Ship) : Prop :=
  ship_local t old new
  /\ ship_at new <> ShipInit
  /\ (ship_at old = ShipInit -> ship_at new = AwaitBerth).

(** The entry of a process next to the one it replaces: a ship stays a
    ship and so on; the mean gap of the generator is the one it had or the
    one computed on line 219. *)
Definition proc_step (t : Q) (config : Config) (old new : proc) : Prop :=
  match old, new with
  | PShip sh, PShip sh' => ship_step t sh sh'
  | PRail _, PRail _ => True
  | PGen _ inter _, PGen _ inter' _ =>
      inter' = inter
      \/ py_div 8760 (inject_Z (ships_per_year config)) = Ok inter'
  | _, _ => False
  end.

(** The tonnage of a ship is a draw from the range of its cargo type
    (lines 226-231). *)
Definition drawn_amount (R : RandomSource) (sh : Ship) : Prop :=
  exists g : rng R,
    cargo_amount sh
    = fst (match cargo_type sh with
           | Grain => draw_uniform R 3000 8000 g
           | Oil => draw_uniform R 5000 15000 g
           | General => draw_uniform R 1000 5000 g
           end).

(** The unloading speed of a cargo type, as [Port.get_unloading_speed]
    reads it from the configuration. *)
Definition unloading_speed (c : cargo) (config : Config) : Q :=
  match c with
  | Grain => grain_speed config
  | Oil => oil_speed config
  | General => general_speed config
  end.

(** Why a process fails with [e]: the divisions and the library calls that
    can raise in its code, on the values it has. *)
Definition fail_cause (R : RandomSource) (config : Config) (pr : proc)
    (e : exn) : Prop :=
  match pr with
  | PShip sh =>
      (* lines 146-147 and 159-160: the unloading time and its timeout;
         lines 151 and 163: [storage.put] *)
      py_div (cargo_amount sh) (unloading_speed (cargo_type sh) config) = Raise e
      \/ (exists t,
            py_div (cargo_amount sh) (unloading_speed (cargo_type sh) config)
            = Ok t /\ t < 0)
      \/ cargo_amount sh <= 0
  | PRail _ =>
      (* lines 181-182: the interval and its timeout; lines 190-195: [get]
         of a whole train *)
      py_div 24 (inject_Z (trains_per_day config)) = Raise e
      \/ (exists interval,
            py_div 24 (inject_Z (trains_per_day config)) = Ok interval
            /\ interval < 0)
      \/ train_capacity config <= 0
  | PGen _ inter _ =>
      (* line 219; lines 223-226: [choice]; line 241: [exponential] and
         its timeout *)
      py_div 8760 (inject_Z (ships_per_year config)) = Raise e
      \/ (exists g : rng R,
            np_random_choice R (cargo_distribution config) g = Raise e)
      \/ inter < 0
      \/ (exists g : rng R, fst (draw_exponential R inter g) < 0)
  end.

Inductive prim {R : RandomSource} : Sim R -> Sim R -> Prop :=
| prim_timeout p delay s :
    0 <= delay -> prim s (schedule (Timeout p) NORMAL delay s)
| prim_fail p pr e s :
    procs s !! p = Some pr -> fail_cause R (port_config (port s)) pr e ->
    prim s (schedule (ProcessFail p e) NORMAL 0 s)
| prim_end p s : prim s (schedule (ProcessEnd p) NORMAL 0 s)
| prim_set_proc p old new s :
    procs s !! p = Some old ->
    proc_step (now s) (port_config (port s)) old new ->
    prim s (set_proc p new s)
| prim_set_random g s : prim s (set_random g s)
| prim_spawn sh s :
    ship_at sh = ShipInit -> drawn_amount R sh -> prim s (spawn (PShip sh) s)
| prim_request r p s : prim s (request r p s)
| prim_exit_request r p s : prim s (exit_request r p s)
| prim_trigger r s : prim s (resource_trigger_put r s)
| prim_put c p amount s s' :
    container_put c p amount s = Ok s' -> prim s s'
| prim_get c p amount s s' :
    container_get c p amount s = Ok s' ->
    amount <= level (get_storage c (port s)) ->
    prim s s'
| prim_trigger_put c s : prim s (container_trigger_put c s)
| prim_trigger_get c s : prim s (container_trigger_get c s)
| prim_arrival r s :
    prim s
      (set_metrics
         (record_ship_arrival (now s) (length (queue (get_res r (port s))))
            (metrics s)) s)
| prim_processing p sh s :
    procs s !! p = Some (PShip sh) -> ship_at sh = AwaitPut ->
    prim s
      (set_metrics
         (record_ship_processing (berth_wait_time sh) (now s - arrival_time sh)
            (cargo_amount sh) (metrics s)) s)
| prim_snapshot s :
    prim s
      (set_metrics
         (record_resource_usage (now s)
            (count (port_oil_berths (port s)) + count (port_dry_berths (port s)))
            (count (port_cranes (port s)))
            (level (grain_storage (port s)) + level (general_storage (port s))
             + level (oil_storage (port s)))
            (total_storage_capacity (port s)) (metrics s)) s).

Inductive prims {R : RandomSource} : Sim R -> Sim R -> Prop :=
| prims_refl s : prims s s
| prims_step s s' s'' : prims s s' -> prim s' s'' -> prims s s''.

(** The state once the least entry is popped, before its callbacks run. *)
Definition popped {R : RandomSource} (x : entry) (rest : list entry) (s : Sim R)
  : Sim R :=
  set_events rest (set_now (e_time x) s).

(** ** Resources within their capacity *)

(** The configured number of slots of a resource ([Port.__init__]). *)
Definition resource_capacity (r : res_id) (config : Config) : Z :=
  match r with
  | OilBerths => oil_berths config
  | DryBerths => dry_berths config
  | CranesRes => cranes config
  | Railway => railway_capacity config
  end.

Definition users_inv {R : RandomSource} (config : Config) (s : Sim R) : Prop :=
  forall r : res_id,
    capacity (get_res r (port s)) = resource_capacity r config
    /\ (Z.of_nat (count (get_res r (port s))) <= resource_capacity r config)%Z.

(** The berth and crane samples of the log within the configured numbers. *)
Definition usage_within (config : Config) (m : PortMetrics) : Prop :=
  Forall (fun u => 0 <= u_usage u
                   <= inject_Z (oil_berths config + dry_berths config))
    (berth_usage m)
  /\ Forall (fun u => 0 <= u_usage u <= inject_Z (cranes config))
       (crane_usage m).

(** ** The clock *)

(** The heap as a list in the order its entries leave: no entry is earlier
    than one before it. *)
Fixpoint time_sorted (q : list entry) : Prop :=
  match q with
  | [] => True
  | x :: q' => Forall (fun y => e_time x <= e_time y) q' /\ time_sorted q'
  end.

Definition clock_inv {R : RandomSource} (simulation_hours : Q) (s : Sim R)
  : Prop :=
  0 <= now s
  /\ time_sorted (events s)
  /\ Forall (fun x => now s <= e_time x) (events s)
  /\ Forall (fun x => e_event x = Until -> e_time x == simulation_hours)
       (events s).

(** ** Times in the log *)

(** What a ship has recorded by the time [t], by suspension point: its
    arrival once it has started, its wait for the berth once it has it. *)
Definition ship_times (t : Q) (sh : Ship) : Prop :=
  match ship_at sh with
  | ShipInit => True
  | AwaitBerth => 0 <= arrival_time sh <= t
  | _ =>
      0 <= arrival_time sh /\ 0 <= berth_wait_time sh
      /\ arrival_time sh + berth_wait_time sh <= t
  end.

(** Every time stamp of the log lies between 0 and [t]; every ship
    recorded has waited no longer than its whole stay, which is no longer
    than [t]. *)
Definition log_times (t : Q) (m : PortMetrics) : Prop :=
  Forall (fun x => 0 <= q_time x <= t) (ships_in_queue m)
  /\ Forall (fun u => 0 <= u_time u <= t) (berth_usage m)
  /\ Forall (fun u => 0 <= u_time u <= t) (crane_usage m)
  /\ Forall (fun u => 0 <= u_time u <= t) (storage_usage m)
  /\ Forall2 (fun w p => 0 <= w /\ w <= p /\ p <= t)
       (ship_waiting_times m) (ship_processing_times m).

Definition times_inv {R : RandomSource} (s : Sim R) : Prop :=
  (forall p sh, procs s !! p = Some (PShip sh) -> ship_times (now s) sh)
  /\ log_times (now s) (metrics s).

(** ** Withdrawals *)

(** No withdrawal is waiting in the queue of a pool. *)
Definition gets_served {R : RandomSource} (s : Sim R) : Prop :=
  forall c : cargo, get_queue (get_storage c (port s)) = [].

(** ** The lists of the log side by side *)

(** One entry per recorded ship in each of the three per-ship lists, and
    one sample in each of the three usage lists per snapshot. *)
Definition log_aligned (m : PortMetrics) : Prop :=
  counter_matches m
  /\ length (berth_usage m) = length (crane_usage m)
  /\ length (crane_usage m) = length (storage_usage m).

(** ** Tonnage *)

(** [np.random.uniform(low, high)] returns a value of the range. *)
Definition uniform_in_range (R : RandomSource) : Prop :=
  forall (lo hi : Q) (g : rng R),
    lo <= hi -> lo <= fst (draw_uniform R lo hi g) <= hi.

(** The range of tonnage of a cargo type (lines 226-231). *)
Definition tonnage_range (c : cargo) : Q * Q :=
  match c with
  | Grain => (3000, 8000)
  | Oil => (5000, 15000)
  | General => (1000, 5000)
  end.

Definition tonnage_ok (a : Q) : Prop :=
  exists c : cargo, fst (tonnage_range c) <= a <= snd (tonnage_range c).

Definition tonnage_inv {R : RandomSource} (s : Sim R) : Prop :=
  (forall p sh, procs s !! p = Some (PShip sh) ->
      fst (tonnage_range (cargo_type sh)) <= cargo_amount sh
      <= snd (tonnage_range (cargo_type sh)))
  /\ Forall tonnage_ok (cargo_processed (metrics s)).

(** ** Floats whose rounding shows

    [int(base_ships * multiplier)] truncates a float product, so the
    rounding of the product decides the result (45 * 1.4 is 62.99...):
    here the float is the double nearest to the exact value, ties to even.
    Overflow and subnormal numbers are out of reach of the values at hand. *)

Definition pow2 (k : Z) : Q := Qpower 2 k.

(** The integer nearest to a rational, ties to even. *)
Definition round_half_even (x : Q) : Z :=
  let fl := (Qnum x / QDen x)%Z in
  let twice_rem := (2 * (Qnum x mod QDen x))%Z in
  if (twice_rem <? QDen x)%Z then fl
  else if (QDen x <? twice_rem)%Z then (fl + 1)%Z
  else if Z.even fl then fl else (fl + 1)%Z.

(** The exponent [e] with [2^e <= a < 2^(e+1)], for [a > 0]. *)
Definition binade (a : Q) : Z :=
  let e := (Z.log2 (Qnum a) - Z.log2 (QDen a))%Z in
  if Qle_bool (pow2 e) a then e else (e - 1)%Z.

(** The double nearest to a rational: 53 significant bits. *)
Definition round_double (x : Q) : Q :=
  if Qeq_bool x 0 then 0
  else
    let a := Qabs x in
    let e := binade a in
    let m := round_half_even (a * pow2 (52 - e)) in
    let r := Qred (inject_Z m * pow2 (e - 52)) in
    if Qle_bool 0 x then r else - r.

(** [int(x)] on a float: truncation towards zero. *)
Definition py_int (x : Q) : Z := Z.quot (Qnum x) (QDen x).

(** [int(n * factor)] for an int [n] and a float [factor]. *)
Definition scaled_int (n : Z) (factor : Q) : Z :=
  py_int (round_double (round_double (inject_Z n) * factor)).

(** [int(v * factor)] for a number [v] of the configuration (an int or a
    float) and a float [factor]. *)
Definition scaled_number (v : Q) (factor : Q) : Z :=
  py_int (round_double (round_double v * factor)).

(** ** A run and its analysis, with the generator state it leaves *)

Inductive attempt (A : Type) :=
| Returned (a : A)
| Raising (e : exn)
| Pending.                       (* the run needs more steps *)
Arguments Returned {A} a.
Arguments Raising {A} e.
Arguments Pending {A}.

Definition analysed_run {R : RandomSource} (config : Config)
    (simulation_hours : Q) (fuel : nat) (g : rng R)
  : attempt (CapacityReport * rng R) :=
  match run_simulation config simulation_hours fuel g with
  | Finished s =>
      match calculate_capacity_metrics (metrics s) config simulation_hours with
      | Ok rep => Returned (rep, random s)
      | Raise e => Raising e
      end
  | Raised e => Raising e
  | OutOfFuel _ | Broken => Pending
  end.

(** ** [find_collapse_point] *)

Definition with_ships_per_year (n : Z) (config : Config) : Config :=
  {| oil_berths := oil_berths config; dry_berths := dry_berths config;
     cranes := cranes config;
     grain_speed := grain_speed config; oil_speed := oil_speed config;
     general_speed := general_speed config;
     grain_storage_capacity := grain_storage_capacity config;
     general_storage_capacity := general_storage_capacity config;
     oil_storage_capacity := oil_storage_capacity config;
     trains_per_day := trains_per_day config;
     train_capacity := train_capacity config;
     railway_capacity := railway_capacity config;
     ships_per_year := n;
     cargo_distribution := cargo_distribution config |}.

Definition load_multipliers : list Q :=
  map round_double
    [1; 11 # 10; 12 # 10; 13 # 10; 14 # 10; 15 # 10; 16 # 10; 17 # 10;
     18 # 10; 19 # 10; 2; 25 # 10; 3].

(** One entry of [results]. *)
Record collapse_row := {
  load_multiplier : Q;
  row_annual_cargo_tons : Q;
  row_avg_queue : Q;
  row_max_queue : nat;
  row_avg_wait_time : Q;
  row_storage_usage : Q;
  critical_count : nat;
  row_critical_issues : list issue
}.

Record collapse_report := {
  results : list collapse_row;
  first_issues_load : option Q;
  constant_delays_load : option Q;
  full_collapse_load : option Q
}.

Definition collapse_init : collapse_report :=
  {| results := []; first_issues_load := None;
     constant_delays_load := None; full_collapse_load := None |}.

(** [threshold is None and critical_count >= k] *)
Definition threshold_update (threshold : option Q) (k critical_count : nat)
    (multiplier : Q) : option Q :=
  match threshold with
  | None => if (k <=? critical_count)%nat then Some multiplier else None
  | Some _ => threshold
  end.

(** Lines 386-411: the body of the loop after the run and its analysis. *)
Definition collapse_rung (multiplier : Q) (capacity_metrics : CapacityReport)
    (st : collapse_report) : collapse_report :=
  let has_critical_queue := (5 <? max_queue_length capacity_metrics)%nat in
  let has_critical_wait := Qgtb (avg_wait_time_hours capacity_metrics) 72 in
  let has_critical_storage :=
    Qgtb (storage_utilization_pct capacity_metrics) 95 in
  let critical_count :=
    (Nat.b2n has_critical_queue + Nat.b2n has_critical_wait
     + Nat.b2n has_critical_storage)%nat in
  {| results :=
       results st
       ++ [{| load_multiplier := multiplier;
              row_annual_cargo_tons := annual_cargo_tons capacity_metrics;
              row_avg_queue := avg_queue_length capacity_metrics;
              row_max_queue := max_queue_length capacity_metrics;
              row_avg_wait_time := avg_wait_time_hours capacity_metrics;
              row_storage_usage := storage_utilization_pct capacity_metrics;
              critical_count := critical_count;
              row_critical_issues := critical_issues capacity_metrics |}];
     first_issues_load :=
       threshold_update (first_issues_load st) 1 critical_count multiplier;
     constant_delays_load :=
       threshold_update (constant_delays_load st) 2 critical_count multiplier;
     full_collapse_load :=
       threshold_update (full_collapse_load st) 3 critical_count multiplier |}.

(** The loop over the multipliers; the generator state goes from one run
    to the next. *)
Fixpoint collapse_loop {R : RandomSource} (config : Config)
    (simulation_hours : Q) (fuel : nat) (multipliers : list Q)
    (st : collapse_report) (g : rng R) : attempt (collapse_report * rng R) :=
  match multipliers with
  | [] => Returned (st, g)
  | multiplier :: rest =>
      let test_config :=
        with_ships_per_year (scaled_int (ships_per_year config) multiplier)
          config in
      match analysed_run test_config simulation_hours fuel g with
      | Returned (capacity_metrics, g') =>
          collapse_loop config simulation_hours fuel rest
            (collapse_rung multiplier capacity_metrics st) g'
      | Raising e => Raising e
      | Pending => Pending
      end
  end.

Definition find_collapse_point {R : RandomSource} (config : Config)
    (simulation_hours : Q) (fuel : nat) (g : rng R)
  : attempt (collapse_report * rng R) :=
  collapse_loop config simulation_hours fuel load_multipliers collapse_init g.

(** The first row of the ladder with at least [k] critical indicators. *)
Definition first_row_with (k : nat) (rows : list collapse_row) : option Q :=
  option_map load_multiplier
    (find (fun r => (k <=? critical_count r)%nat) rows).


(** A port of one berth of each kind and one crane that a ship reaches
    every hour: the queue at the dry berth grows from the start. *)
Definition config_overloaded : Config :=
  {| oil_berths := 1; dry_berths := 1; cranes := 1;
     grain_speed := 300; oil_speed := 1000; general_speed := 20;
     grain_storage_capacity := 100000;
     general_storage_capacity := 20000;
     oil_storage_capacity := 540000;
     trains_per_day := 7; train_capacity := 2000; railway_capacity := 2;
     ships_per_year := 8760;
     cargo_distribution :=
       {| p_grain := 32 # 100; p_oil := 35 # 100; p_general := 33 # 100 |} |}.

(** The count of a row against its list of issues. *)
Definition row_counts (r : collapse_row) : Prop :=
  critical_count r = length (row_critical_issues r)
  /\ (critical_count r <= 3)%nat.

(** What holds of the table and the thresholds after each rung. *)
Definition ladder_inv (st : collapse_report) : Prop :=
  Forall row_counts (results st)
  /\ first_issues_load st = first_row_with 1 (results st)
  /\ constant_delays_load st = first_row_with 2 (results st)
  /\ full_collapse_load st = first_row_with 3 (results st).

(** ** [run_stress_scenarios] *)

Definition with_cargo_distribution (d : cargo_dist) (config : Config) : Config :=
  {| oil_berths := oil_berths config; dry_berths := dry_berths config;
     cranes := cranes config;
     grain_speed := grain_speed config; oil_speed := oil_speed config;
     general_speed := general_speed config;
     grain_storage_capacity := grain_storage_capacity config;
     general_storage_capacity := general_storage_capacity config;
     oil_storage_capacity := oil_storage_capacity config;
     trains_per_day := trains_per_day config;
     train_capacity := train_capacity config;
     railway_capacity := railway_capacity config;
     ships_per_year := ships_per_year config;
     cargo_distribution := d |}.

Definition with_equipment (oil dry crane_count : Z) (config : Config) : Config :=
  {| oil_berths := oil; dry_berths := dry; cranes := crane_count;
     grain_speed := grain_speed config; oil_speed := oil_speed config;
     general_speed := general_speed config;
     grain_storage_capacity := grain_storage_capacity config;
     general_storage_capacity := general_storage_capacity config;
     oil_storage_capacity := oil_storage_capacity config;
     trains_per_day := trains_per_day config;
     train_capacity := train_capacity config;
     railway_capacity := railway_capacity config;
     ships_per_year := ships_per_year config;
     cargo_distribution := cargo_distribution config |}.

Definition with_speeds (grain oil general : Q) (config : Config) : Config :=
  {| oil_berths := oil_berths config; dry_berths := dry_berths config;
     cranes := cranes config;
     grain_speed := grain; oil_speed := oil; general_speed := general;
     grain_storage_capacity := grain_storage_capacity config;
     general_storage_capacity := general_storage_capacity config;
     oil_storage_capacity := oil_storage_capacity config;
     trains_per_day := trains_per_day config;
     train_capacity := train_capacity config;
     railway_capacity := railway_capacity config;
     ships_per_year := ships_per_year config;
     cargo_distribution := cargo_distribution config |}.

(** Scenario 1: the load at 110 percent. *)
Definition scenario1_config (base_config : Config) : Config :=
  with_ships_per_year
    (scaled_int (ships_per_year base_config) (round_double (11 # 10)))
    base_config.

(** Scenario 2: grain and oil at their peak, the load at 130 percent. *)
Definition scenario2_config (base_config : Config) : Config :=
  with_ships_per_year
    (scaled_int (ships_per_year base_config) (round_double (13 # 10)))
    (with_cargo_distribution
       {| p_grain := 5 # 10; p_oil := 45 # 100; p_general := 5 # 100 |}
       base_config).

(** Scenario 3: two cranes out of order. *)
Definition scenario3_config (base_config : Config) : Config :=
  with_equipment (oil_berths base_config) (dry_berths base_config)
    (Z.max 1 (cranes base_config - 2)) base_config.

(** Scenario 4: half of the equipment. *)
Definition scenario4_config (base_config : Config) : Config :=
  with_equipment (Z.max 1 (oil_berths base_config / 2))
    (Z.max 1 (dry_berths base_config / 2))
    (Z.max 1 (cranes base_config / 2)) base_config.

(** Scenario 5: the unloading speeds at 70 percent, as ints. *)
Definition scenario5_config (base_config : Config) : Config :=
  with_speeds
    (inject_Z (scaled_number (grain_speed base_config) (round_double (7 # 10))))
    (inject_Z (scaled_number (oil_speed base_config) (round_double (7 # 10))))
    (inject_Z (scaled_number (general_speed base_config) (round_double (7 # 10))))
    base_config.

(** Scenario 6: the load at 150 percent. *)
Definition scenario6_config (base_config : Config) : Config :=
  with_ships_per_year
    (scaled_int (ships_per_year base_config) (round_double (15 # 10)))
    base_config.

Definition scenario_configs (base_config : Config) : list Config :=
  [scenario1_config base_config; scenario2_config base_config;
   scenario3_config base_config; scenario4_config base_config;
   scenario5_config base_config; scenario6_config base_config].

(** One entry of the result: the configuration of the scenario and the
    report of its run. *)
Record scenario := {
  scenario_config : Config;
  scenario_metrics : CapacityReport
}.

(** The six runs one after the other; the generator state goes from one
    run to the next, and the first error ends the function. *)
Fixpoint scenario_runs {R : RandomSource} (configs : list Config)
    (simulation_hours : Q) (fuel : nat) (g : rng R)
  : attempt (list scenario * rng R) :=
  match configs with
  | [] => Returned ([], g)
  | config :: rest =>
      match analysed_run config simulation_hours fuel g with
      | Returned (rep, g') =>
          match scenario_runs rest simulation_hours fuel g' with
          | Returned (l, g'') =>
              Returned ({| scenario_config := config;
                           scenario_metrics := rep |} :: l, g'')
          | Raising e => Raising e
          | Pending => Pending
          end
      | Raising e => Raising e
      | Pending => Pending
      end
  end.

Definition run_stress_scenarios {R : RandomSource} (base_config : Config)
    (simulation_hours : Q) (fuel : nat) (g : rng R)
  : attempt (list scenario * rng R) :=
  scenario_runs (scenario_configs base_config) simulation_hours fuel g.

(** * Properties *)

(** ** Boolean comparisons *)

Lemma Qltb_lt (a b : Q) : Qltb a b = true <-> a < b.
Proof.
  unfold Qltb. rewrite negb_true_iff, <- not_true_iff_false, Qle_bool_iff.
  split; [apply Qnot_le_lt | apply Qlt_not_le].
Qed.

Lemma Qltb_ge (a b : Q) : Qltb a b = false <-> b <= a.
Proof. unfold Qltb. rewrite negb_false_iff. apply Qle_bool_iff. Qed.

Lemma Qgtb_gt (a b : Q) : Qgtb a b = true <-> b < a.
Proof. apply Qltb_lt. Qed.

Lemma Qgtb_le (a b : Q) : Qgtb a b = false <-> a <= b.
Proof. apply Qltb_ge. Qed.

Lemma Qgeb_ge (a b : Q) : Qgeb a b = true <-> b <= a.
Proof. apply Qle_bool_iff. Qed.

Lemma Qgeb_lt (a b : Q) : Qgeb a b = false <-> a < b.
Proof.
  unfold Qgeb. rewrite <- not_true_iff_false, Qle_bool_iff.
  split; [apply Qnot_le_lt | apply Qlt_not_le].
Qed.

Lemma Qle_bool_gt (a b : Q) : Qle_bool a b = false <-> b < a.
Proof. apply Qgeb_lt. Qed.

(** Turns the boolean tests of the hypotheses into inequalities. *)
Ltac q_tests :=
  repeat match goal with
  | H : Qltb _ _ = true |- _ => apply Qltb_lt in H
  | H : Qltb _ _ = false |- _ => apply Qltb_ge in H
  | H : Qgtb _ _ = true |- _ => apply Qgtb_gt in H
  | H : Qgtb _ _ = false |- _ => apply Qgtb_le in H
  | H : Qgeb _ _ = true |- _ => apply Qgeb_ge in H
  | H : Qgeb _ _ = false |- _ => apply Qgeb_lt in H
  | H : Qle_bool _ _ = true |- _ => apply Qle_bool_iff in H
  | H : Qle_bool _ _ = false |- _ => apply Qle_bool_gt in H
  end.

(** ** PortMetrics: the counter and the per-ship lists *)

Lemma apply_op_counter (m : PortMetrics) (op : metrics_op) :
  counter_matches m -> counter_matches (apply_op m op).
Proof.
  unfold counter_matches. intros (Hw & Hp & Hc).
  destruct op; simpl; rewrite ?length_app; simpl; lia.
Qed.

Lemma apply_ops_counter (ops : list metrics_op) (m : PortMetrics) :
  counter_matches m -> counter_matches (apply_ops ops m).
Proof.
  unfold apply_ops. revert m.
  induction ops as [|op ops IH]; intros m Hm; simpl; [exact Hm|].
  apply IH, apply_op_counter, Hm.
Qed.

Lemma apply_op_keeps (m : PortMetrics) (op : metrics_op) :
  entries_kept m (apply_op m op).
Proof.
  unfold entries_kept.
  destruct op; simpl; repeat split;
    first [reflexivity | apply prefix_app_r; reflexivity].
Qed.

(** C10. From a fresh [PortMetrics], after any sequence of its operations,
    [ships_processed] is the length of each of the three per-ship lists;
    [record_ship_processing] adds one to the counter and appends exactly
    one entry to each of them; and no operation removes or changes an
    entry already recorded. *)
Theorem ships_processed_matches_lists :
  (forall ops : list metrics_op,
      counter_matches (apply_ops ops PortMetrics_init))
  /\ (forall (w p c : Q) (m : PortMetrics),
         let m' := record_ship_processing w p c m in
         ships_processed m' = S (ships_processed m)
         /\ ship_waiting_times m' = ship_waiting_times m ++ [w]
         /\ ship_processing_times m' = ship_processing_times m ++ [p]
         /\ cargo_processed m' = cargo_processed m ++ [c])
  /\ (forall (m : PortMetrics) (op : metrics_op),
         entries_kept m (apply_op m op)).
Proof.
  split; [|split].
  - intros ops. apply apply_ops_counter. repeat split.
  - intros w p c m. simpl. repeat split.
  - apply apply_op_keeps.
Qed.

(** ** Capacity analysis: the bottleneck *)




(** ** Capacity analysis: the status *)

Lemma classify_status_cases (u : Q) :
  (80 < u -> classify_status u = (AtLimit, Red))
  /\ (60 < u <= 80 -> classify_status u = (ModerateLoad, Orange))
  /\ (u <= 60 -> classify_status u = (AmpleReserve, Green)).
Proof.
  unfold classify_status.
  destruct (Qgtb u 80) eqn:T80; destruct (Qgtb u 60) eqn:T60; q_tests;
    repeat split; intros; try reflexivity; lra.
Qed.

(** C9, evaluated where the code departs from it. A report whose capacity
    utilization is exactly 60 percent gets the ample-reserve status (green),
    not the moderate-load status. *)
Theorem utilization_sixty_is_ample_reserve :
  exists rep : CapacityReport,
    calculate_capacity_metrics metrics_sixty config_sixty 876 = Ok rep
    /\ capacity_utilization_pct rep == 60
    /\ system_status rep = AmpleReserve
    /\ status_color rep = Green.
Proof.
  eexists. split; [reflexivity|]. repeat split.
Qed.

(** ** Storage levels stay within capacity *)

Section StorageBounds.

Context {R : RandomSource}.
Variable config : Config.

Implicit Types (s : Sim R) (p : pid) (c : cargo) (r : res_id).

Lemma get_storage_set_res c r x pt :
  get_storage c (set_res r x pt) = get_storage c pt.
Proof. destruct c; reflexivity. Qed.

Lemma get_storage_set_storage c c' x pt :
  get_storage c (set_storage c' x pt)
  = if decide (c = c') then x else get_storage c pt.
Proof. destruct c, c'; reflexivity. Qed.

Lemma port_inv_set_res r x pt :
  port_inv config pt -> port_inv config (set_res r x pt).
Proof.
  intros (Hp & Hc & Ht). split; [|split; assumption].
  intros c. rewrite get_storage_set_res. apply Hp.
Qed.

Lemma port_inv_set_storage c x pt :
  port_inv config pt ->
  pool_inv x -> c_capacity x = c_capacity (get_storage c pt) ->
  port_inv config (set_storage c x pt).
Proof.
  intros (Hp & Hc & Ht) Hx Hcap. split; [|split; assumption].
  intros c'. rewrite get_storage_set_storage.
  destruct (decide (c' = c)) as [->|_]; [|apply Hp].
  split; [exact Hx|]. rewrite Hcap. apply Hp.
Qed.

Lemma serve_puts_inv cap lvl pending lvl' waiting served :
  serve_puts cap lvl pending = (lvl', waiting, served) ->
  0 <= lvl -> lvl <= cap -> amounts_positive pending ->
  0 <= lvl' /\ lvl' <= cap /\ amounts_positive waiting.
Proof.
  revert lvl lvl' waiting served.
  induction pending as [|[p amount] rest IH]; intros lvl lvl' waiting served; simpl.
  - intros [= <- <- <-]. auto.
  - intros H H0 Hcap Hpos. inversion Hpos as [|? ? Hamount Hrest]; subst. simpl in Hamount.
    destruct (Qgeb (cap - lvl) amount) eqn:T.
    + destruct (serve_puts cap (lvl + amount) rest) as [[l w] sv] eqn:E.
      injection H as <- <- <-. q_tests.
      apply (IH _ _ _ _ E); [lra | lra | exact Hrest].
    + injection H as <- <- <-. auto.
Qed.

Lemma serve_gets_inv cap lvl pending lvl' waiting served :
  serve_gets lvl pending = (lvl', waiting, served) ->
  0 <= lvl -> lvl <= cap -> amounts_positive pending ->
  0 <= lvl' /\ lvl' <= cap /\ amounts_positive waiting.
Proof.
  revert lvl lvl' waiting served.
  induction pending as [|[p amount] rest IH]; intros lvl lvl' waiting served; simpl.
  - intros [= <- <- <-]. auto.
  - intros H H0 Hcap Hpos. inversion Hpos as [|? ? Hamount Hrest]; subst. simpl in Hamount.
    destruct (Qgeb lvl amount) eqn:T.
    + destruct (serve_gets (lvl - amount) rest) as [[l w] sv] eqn:E.
      injection H as <- <- <-. q_tests.
      apply (IH _ _ _ _ E); [lra | lra | exact Hrest].
    + injection H as <- <- <-. auto.
Qed.


(** *** The primitives of the engine keep the pools within bounds *)

Lemma storage_inv_schedule ev pr d s :
  storage_inv config s -> storage_inv config (schedule ev pr d s).
Proof. exact (fun H => H). Qed.

Lemma storage_inv_schedule_all mk served s :
  storage_inv config s -> storage_inv config (schedule_all mk served s).
Proof.
  unfold schedule_all. revert s.
  induction served as [|p served IH]; intros s H; simpl; [exact H|].
  apply IH, storage_inv_schedule, H.
Qed.

Lemma storage_inv_set_procs l s :
  storage_inv config s -> storage_inv config (set_procs l s).
Proof. exact (fun H => H). Qed.

Lemma storage_inv_set_proc p x s :
  storage_inv config s -> storage_inv config (set_proc p x s).
Proof. exact (fun H => H). Qed.

Lemma storage_inv_set_random g s :
  storage_inv config s -> storage_inv config (set_random g s).
Proof. exact (fun H => H). Qed.

Lemma storage_inv_set_events q s :
  storage_inv config s -> storage_inv config (set_events q s).
Proof. exact (fun H => H). Qed.

Lemma storage_inv_set_now t s :
  storage_inv config s -> storage_inv config (set_now t s).
Proof. exact (fun H => H). Qed.

Lemma storage_inv_spawn x s :
  storage_inv config s -> storage_inv config (spawn x s).
Proof. exact (fun H => H). Qed.

Lemma storage_inv_set_res r x s :
  storage_inv config s -> storage_inv config (set_port (set_res r x (port s)) s).
Proof. intros [Hp Hm]. split; [apply port_inv_set_res, Hp | exact Hm]. Qed.

Lemma storage_inv_resource_trigger_put r s :
  storage_inv config s -> storage_inv config (resource_trigger_put r s).
Proof.
  intros H. unfold resource_trigger_put.
  destruct (queue _) as [|p rest]; [exact H|].
  destruct (_ <? _)%Z; [|exact H].
  apply storage_inv_schedule, storage_inv_set_res, H.
Qed.

Lemma storage_inv_request r p s :
  storage_inv config s -> storage_inv config (request r p s).
Proof.
  intros H. apply storage_inv_resource_trigger_put, storage_inv_set_res, H.
Qed.

Lemma storage_inv_release r p s :
  storage_inv config s -> storage_inv config (release r p s).
Proof. intros H. apply storage_inv_schedule, storage_inv_set_res, H. Qed.

Lemma storage_inv_cancel r p s :
  storage_inv config s -> storage_inv config (cancel r p s).
Proof. intros H. apply storage_inv_set_res, H. Qed.

Lemma storage_inv_exit_request r p s :
  storage_inv config s -> storage_inv config (exit_request r p s).
Proof. intros H. apply storage_inv_release, storage_inv_cancel, H. Qed.

Lemma storage_inv_set_storage c x s :
  storage_inv config s ->
  pool_inv x -> c_capacity x = c_capacity (get_storage c (port s)) ->
  storage_inv config (set_port (set_storage c x (port s)) s).
Proof.
  intros [Hp Hm] Hx Hc. split; [|exact Hm].
  apply port_inv_set_storage; assumption.
Qed.

Lemma storage_inv_container_trigger_put c s :
  storage_inv config s -> storage_inv config (container_trigger_put c s).
Proof.
  intros H. unfold container_trigger_put.
  destruct (serve_puts _ _ _) as [[lvl waiting] served] eqn:E.
  apply storage_inv_schedule_all, storage_inv_set_storage; [exact H| |reflexivity].
  destruct H as [(Hp & _) _]. destruct (Hp c) as [(H0 & Hcap & Hput & Hget) _].
  destruct (serve_puts_inv _ _ _ _ _ _ E H0 Hcap Hput) as (? & ? & ?).
  repeat split; assumption.
Qed.

Lemma storage_inv_container_trigger_get c s :
  storage_inv config s -> storage_inv config (container_trigger_get c s).
Proof.
  intros H. unfold container_trigger_get.
  destruct (serve_gets _ _) as [[lvl waiting] served] eqn:E.
  apply storage_inv_schedule_all, storage_inv_set_storage; [exact H| |reflexivity].
  destruct H as [(Hp & _) _]. destruct (Hp c) as [(H0 & Hcap & Hput & Hget) _].
  destruct (serve_gets_inv _ _ _ _ _ _ E H0 Hcap Hget) as (? & ? & ?).
  repeat split; assumption.
Qed.

Lemma storage_inv_container_put c p amount s s' :
  container_put c p amount s = Ok s' ->
  storage_inv config s -> storage_inv config s'.
Proof.
  unfold container_put. destruct (Qle_bool amount 0) eqn:T; [discriminate|].
  intros [= <-] H. q_tests.
  apply storage_inv_container_trigger_put, storage_inv_set_storage;
    [exact H| |reflexivity].
  destruct H as [(Hp & _) _]. destruct (Hp c) as [(H0 & Hcap & Hput & Hget) _].
  repeat split; simpl; try assumption.
  apply Forall_app. split; [exact Hput|]. repeat constructor. exact T.
Qed.

Lemma storage_inv_container_get c p amount s s' :
  container_get c p amount s = Ok s' ->
  storage_inv config s -> storage_inv config s'.
Proof.
  unfold container_get. destruct (Qle_bool amount 0) eqn:T; [discriminate|].
  intros [= <-] H. q_tests.
  apply storage_inv_container_trigger_get, storage_inv_set_storage;
    [exact H| |reflexivity].
  destruct H as [(Hp & _) _]. destruct (Hp c) as [(H0 & Hcap & Hput & Hget) _].
  repeat split; simpl; try assumption.
  apply Forall_app. split; [exact Hget|]. repeat constructor. exact T.
Qed.

Lemma storage_inv_record_arrival t n s :
  storage_inv config s ->
  storage_inv config (set_metrics (record_ship_arrival t n (metrics s)) s).
Proof. exact (fun H => H). Qed.

Lemma storage_inv_record_processing w t a s :
  storage_inv config s ->
  storage_inv config (set_metrics (record_ship_processing w t a (metrics s)) s).
Proof. exact (fun H => H). Qed.

Lemma percentage_bounded (used total : Q) :
  0 <= used -> used <= total ->
  0 <= (if Qgtb total 0 then used / total * 100 else 0) <= 100.
Proof.
  intros H0 H1. destruct (Qgtb total 0) eqn:T; q_tests; [|lra].
  assert (0 <= used / total) by (apply Qle_shift_div_l; lra).
  assert (used / total <= 1) by (apply Qle_shift_div_r; lra).
  lra.
Qed.

Lemma storage_inv_snapshot t b k s :
  storage_inv config s ->
  storage_inv config
    (set_metrics
       (record_resource_usage t b k
          (level (grain_storage (port s)) + level (general_storage (port s))
           + level (oil_storage (port s)))
          (total_storage_capacity (port s)) (metrics s)) s).
Proof.
  intros [Hp Hm]. split; [exact Hp|].
  unfold samples_bounded. simpl. apply Forall_app. split; [exact Hm|].
  constructor; [|constructor]. simpl.
  destruct Hp as (Hp & _ & ->).
  destruct (Hp Grain) as [(? & ? & _) Eg], (Hp General) as [(? & ? & _) En],
    (Hp Oil) as [(? & ? & _) Eo].
  simpl in *. rewrite <- Eg, <- En, <- Eo.
  apply percentage_bounded; lra.
Qed.


Create HintDb storage.

Hint Resolve storage_inv_schedule storage_inv_set_proc storage_inv_set_random
  storage_inv_spawn storage_inv_request storage_inv_exit_request
  storage_inv_container_trigger_put storage_inv_container_trigger_get
  storage_inv_container_put storage_inv_container_get
  storage_inv_record_arrival storage_inv_record_processing
  storage_inv_snapshot : storage.

(** Unfolds a process function and follows each of its branches. *)
Ltac storage_branches :=
  intros; repeat case_match; subst; eauto 12 with storage.

(** *** The processes keep the pools within bounds *)

Lemma storage_inv_ship_leave_blocks p sh s :
  storage_inv config s -> storage_inv config (ship_leave_blocks p sh s).
Proof. unfold ship_leave_blocks. storage_branches. Qed.

Hint Resolve storage_inv_ship_leave_blocks : storage.

Lemma storage_inv_ship_fail p sh e s :
  storage_inv config s -> storage_inv config (ship_fail p sh e s).
Proof. unfold ship_fail. storage_branches. Qed.

Hint Resolve storage_inv_ship_fail : storage.

Lemma storage_inv_ship_storage_loop p sh s :
  storage_inv config s -> storage_inv config (ship_storage_loop p sh s).
Proof. unfold ship_storage_loop. storage_branches. Qed.

Lemma storage_inv_ship_depart p sh s :
  storage_inv config s -> storage_inv config (ship_depart p sh s).
Proof. unfold ship_depart. cbv zeta. storage_branches. Qed.

Hint Resolve storage_inv_ship_storage_loop storage_inv_ship_depart : storage.

Lemma storage_inv_ship_resume p sh ev s s' :
  ship_resume p sh ev s = Some s' ->
  storage_inv config s -> storage_inv config s'.
Proof.
  unfold ship_resume. intros H Hs.
  repeat case_match; try discriminate; injection H as <-; eauto 12 with storage.
Qed.

Lemma storage_inv_rail_fail p e s :
  storage_inv config s -> storage_inv config (rail_fail p e s).
Proof. unfold rail_fail. storage_branches. Qed.

Hint Resolve storage_inv_rail_fail : storage.

Lemma storage_inv_rail_wait_interval p s :
  storage_inv config s -> storage_inv config (rail_wait_interval p s).
Proof. unfold rail_wait_interval. storage_branches. Qed.

Lemma storage_inv_rail_load p s :
  storage_inv config s -> storage_inv config (rail_load p s).
Proof. unfold rail_load. storage_branches. Qed.

Lemma storage_inv_rail_get c p amount next s :
  storage_inv config s -> storage_inv config (rail_get c p amount next s).
Proof. unfold rail_get. storage_branches. Qed.

Hint Resolve storage_inv_rail_wait_interval storage_inv_rail_load
  storage_inv_rail_get : storage.

Lemma storage_inv_rail_drain_oil p amount s :
  storage_inv config s -> storage_inv config (rail_drain_oil p amount s).
Proof. unfold rail_drain_oil. storage_branches. Qed.

Hint Resolve storage_inv_rail_drain_oil : storage.

Lemma storage_inv_rail_drain_general p amount s :
  storage_inv config s -> storage_inv config (rail_drain_general p amount s).
Proof. unfold rail_drain_general. storage_branches. Qed.

Hint Resolve storage_inv_rail_drain_general : storage.

Lemma storage_inv_rail_drain_grain p amount s :
  storage_inv config s -> storage_inv config (rail_drain_grain p amount s).
Proof. unfold rail_drain_grain. storage_branches. Qed.

Hint Resolve storage_inv_rail_drain_grain : storage.

Lemma storage_inv_rail_fire p s :
  storage_inv config s -> storage_inv config (rail_fire p s).
Proof. unfold rail_fire. storage_branches. Qed.

Hint Resolve storage_inv_rail_fire : storage.

Lemma storage_inv_rail_resume p pc ev s s' :
  rail_resume p pc ev s = Some s' ->
  storage_inv config s -> storage_inv config s'.
Proof.
  unfold rail_resume. intros H Hs.
  repeat case_match; try discriminate; injection H as <-; eauto 12 with storage.
Qed.

Lemma storage_inv_gen_fail p n inter e s :
  storage_inv config s -> storage_inv config (gen_fail p n inter e s).
Proof. unfold gen_fail. storage_branches. Qed.

Hint Resolve storage_inv_gen_fail : storage.

Lemma storage_inv_gen_loop p n inter s :
  storage_inv config s -> storage_inv config (gen_loop p n inter s).
Proof. unfold gen_loop. storage_branches. Qed.

Hint Resolve storage_inv_gen_loop : storage.

Lemma storage_inv_gen_resume p n inter pc ev s s' :
  gen_resume p n inter pc ev s = Some s' ->
  storage_inv config s -> storage_inv config s'.
Proof.
  unfold gen_resume. intros H Hs.
  repeat case_match; try discriminate; injection H as <-; eauto 12 with storage.
Qed.

Lemma storage_inv_resume p ev s s' :
  resume p ev s = Some s' ->
  storage_inv config s -> storage_inv config s'.
Proof.
  unfold resume. intros H Hs.
  repeat case_match; try discriminate;
    eauto using storage_inv_ship_resume, storage_inv_rail_resume,
      storage_inv_gen_resume.
Qed.

Lemma storage_inv_step s :
  storage_inv config s ->
  match step s with
  | Continue s' | Stop s' => storage_inv config s'
  | _ => True
  end.
Proof.
  intros Hs. unfold step.
  destruct (events s) as [|x rest]; [exact I|].
  assert (Hs' : storage_inv config (set_events rest (set_now (e_time x) s)))
    by exact Hs.
  destruct (e_event x); unfold resumed;
    repeat case_match; try exact I; try discriminate; subst;
    try match goal with
    | H : Continue _ = Continue _ |- _ => injection H as <-
    end;
    eauto using storage_inv_resume, storage_inv_resource_trigger_put
      with storage.
Qed.


Lemma Container_init_inv cap st :
  Container_init cap 0 = Ok st -> pool_inv st /\ c_capacity st = cap.
Proof.
  unfold Container_init. intros H.
  repeat case_match; try discriminate. injection H as <-. q_tests.
  repeat split; simpl; try constructor; lra.
Qed.

Lemma Port_init_inv pt : Port_init config = Ok pt -> port_inv config pt.
Proof.
  unfold Port_init, bind. intros H.
  repeat case_match; try discriminate. injection H as <-.
  repeat match goal with
  | E : Container_init _ 0 = Ok _ |- _ => apply Container_init_inv in E
  end.
  split; [|split; reflexivity].
  intros []; simpl; assumption.
Qed.

Lemma storage_inv_prepare simulation_hours g s :
  prepare config simulation_hours g = Ok s -> storage_inv config s.
Proof.
  unfold prepare, start, bind, run_until. intros H.
  destruct (Port_init config) as [pt|] eqn:E; [|discriminate].
  apply Port_init_inv in E.
  case_match; try discriminate. injection H as <-.
  split; [exact E | constructor].
Qed.

Lemma storage_inv_reachable simulation_hours g s :
  reachable config simulation_hours g s -> storage_inv config s.
Proof.
  induction 1 as [s H|s s' _ IH H|s s' _ IH H].
  - eapply storage_inv_prepare, H.
  - apply storage_inv_step in IH. rewrite H in IH. exact IH.
  - apply storage_inv_step in IH. rewrite H in IH. exact IH.
Qed.

End StorageBounds.

(** C4. In every reachable state of a run each of the three pools holds a
    level between 0 and its configured capacity, and every recorded storage
    sample lies between 0 and 100 percent; a deposit ([Container.put]) and a
    withdrawal ([Container.get]) keep the pools within bounds. *)
Theorem storage_levels_within_capacity :
  (forall (R : RandomSource) (config : Config) (simulation_hours : Q)
          (g : rng R) (s : Sim R),
      reachable config simulation_hours g s ->
      (forall c : cargo,
          0 <= level (get_storage c (port s))
          /\ level (get_storage c (port s)) <= configured_capacity c config
          /\ c_capacity (get_storage c (port s)) = configured_capacity c config)
      /\ samples_bounded (metrics s))
  /\ (forall (R : RandomSource) (config : Config) (s s' : Sim R)
             (c : cargo) (p : pid) (amount : Q),
         storage_inv config s ->
         container_put c p amount s = Ok s' -> storage_inv config s')
  /\ (forall (R : RandomSource) (config : Config) (s s' : Sim R)
             (c : cargo) (p : pid) (amount : Q),
         storage_inv config s ->
         container_get c p amount s = Ok s' -> storage_inv config s').
Proof.
  split; [|split].
  - intros R config hours g s Hs.
    apply storage_inv_reachable in Hs. destruct Hs as [(Hp & _) Hm].
    split; [|exact Hm].
    intros c. destruct (Hp c) as [(H0 & H1 & _) Hc].
    rewrite <- Hc. auto.
  - intros. eapply storage_inv_container_put; eassumption.
  - intros. eapply storage_inv_container_get; eassumption.
Qed.

Lemma reachable_advance {R : RandomSource} (config : Config)
    (simulation_hours : Q) (g : rng R) (n : nat) (s : Sim R) :
  reachable config simulation_hours g s ->
  reachable config simulation_hours g (advance n s).
Proof.
  revert s. induction n as [|n IH]; intros s Hs; simpl; [exact Hs|].
  destruct (step s) as [s'|s'| |] eqn:E; try exact Hs.
  - apply IH. eapply reach_continue; eassumption.
  - eapply reach_stop; eassumption.
Qed.

Lemma storage_levels_within_capacity_witness :
  exists s0 : Sim turn_source,
    prepare sample_config 100 (0%nat : rng turn_source) = Ok s0
    /\ let s := advance 40 s0 in
       (forall c : cargo,
           0 <= level (get_storage c (port s))
           /\ level (get_storage c (port s)) <= configured_capacity c sample_config
           /\ c_capacity (get_storage c (port s))
              = configured_capacity c sample_config)
       /\ samples_bounded (metrics s).
Proof.
  eexists. split; [reflexivity|].
  apply (proj1 storage_levels_within_capacity turn_source sample_config 100 0%nat).
  apply reachable_advance, reach_prepare. reflexivity.
Defined.

(** ** Utilization snapshots are taken by ship id *)

Section MetricsFootprint.

Context {R : RandomSource}.

Implicit Types (s : Sim R) (p : pid) (c : cargo) (r : res_id).

Lemma metrics_schedule_all mk served s :
  metrics (schedule_all mk served s) = metrics s.
Proof.
  unfold schedule_all. revert s.
  induction served as [|p served IH]; intros s; simpl; [reflexivity|].
  rewrite IH. reflexivity.
Qed.

Lemma metrics_resource_trigger_put r s :
  metrics (resource_trigger_put r s) = metrics s.
Proof. unfold resource_trigger_put. repeat case_match; reflexivity. Qed.

Lemma metrics_request r p s : metrics (request r p s) = metrics s.
Proof. unfold request. rewrite metrics_resource_trigger_put. reflexivity. Qed.

Lemma metrics_exit_request r p s : metrics (exit_request r p s) = metrics s.
Proof. reflexivity. Qed.

Lemma metrics_container_trigger_put c s :
  metrics (container_trigger_put c s) = metrics s.
Proof.
  unfold container_trigger_put. repeat case_match.
  rewrite metrics_schedule_all. reflexivity.
Qed.

Lemma metrics_container_trigger_get c s :
  metrics (container_trigger_get c s) = metrics s.
Proof.
  unfold container_trigger_get. repeat case_match.
  rewrite metrics_schedule_all. reflexivity.
Qed.

Lemma metrics_container_put c p amount s s' :
  container_put c p amount s = Ok s' -> metrics s' = metrics s.
Proof.
  unfold container_put. case_match; [discriminate|].
  intros [= <-]. rewrite metrics_container_trigger_put. reflexivity.
Qed.

Lemma metrics_container_get c p amount s s' :
  container_get c p amount s = Ok s' -> metrics s' = metrics s.
Proof.
  unfold container_get. case_match; [discriminate|].
  intros [= <-]. rewrite metrics_container_trigger_get. reflexivity.
Qed.

Lemma metrics_ship_leave_blocks p sh s :
  metrics (ship_leave_blocks p sh s) = metrics s.
Proof. unfold ship_leave_blocks. case_match; reflexivity. Qed.

Lemma metrics_ship_fail p sh e s : metrics (ship_fail p sh e s) = metrics s.
Proof. unfold ship_fail. simpl. apply metrics_ship_leave_blocks. Qed.

Lemma metrics_ship_storage_loop p sh s :
  metrics (ship_storage_loop p sh s) = metrics s.
Proof.
  unfold ship_storage_loop.
  repeat case_match; rewrite ?metrics_ship_fail; reflexivity.
Qed.

Lemma metrics_rail_get c p amount next s :
  metrics (rail_get c p amount next s) = metrics s.
Proof.
  unfold rail_get. case_match; [|reflexivity].
  erewrite metrics_container_get by eassumption. reflexivity.
Qed.

Lemma metrics_rail_wait_interval p s :
  metrics (rail_wait_interval p s) = metrics s.
Proof. unfold rail_wait_interval. repeat case_match; reflexivity. Qed.

Lemma metrics_rail_drain_oil p amount s :
  metrics (rail_drain_oil p amount s) = metrics s.
Proof.
  unfold rail_drain_oil. case_match; rewrite ?metrics_rail_get; reflexivity.
Qed.

Lemma metrics_rail_drain_general p amount s :
  metrics (rail_drain_general p amount s) = metrics s.
Proof.
  unfold rail_drain_general.
  case_match; rewrite ?metrics_rail_get, ?metrics_rail_drain_oil; reflexivity.
Qed.

Lemma metrics_rail_drain_grain p amount s :
  metrics (rail_drain_grain p amount s) = metrics s.
Proof.
  unfold rail_drain_grain.
  case_match; rewrite ?metrics_rail_get, ?metrics_rail_drain_general; reflexivity.
Qed.

Lemma metrics_rail_fire p s : metrics (rail_fire p s) = metrics s.
Proof.
  unfold rail_fire.
  repeat case_match; rewrite ?metrics_rail_get, ?metrics_rail_drain_grain;
    reflexivity.
Qed.

Lemma metrics_rail_resume p pc ev s s' :
  rail_resume p pc ev s = Some s' -> metrics s' = metrics s.
Proof.
  unfold rail_resume. intros H.
  repeat case_match; try discriminate; injection H as <-;
    rewrite ?metrics_rail_wait_interval, ?metrics_request, ?metrics_rail_fire,
      ?metrics_rail_drain_general, ?metrics_rail_drain_oil;
    reflexivity.
Qed.

Lemma metrics_gen_loop p n inter s : metrics (gen_loop p n inter s) = metrics s.
Proof. unfold gen_loop. repeat case_match; reflexivity. Qed.

Lemma metrics_gen_resume p n inter pc ev s s' :
  gen_resume p n inter pc ev s = Some s' -> metrics s' = metrics s.
Proof.
  unfold gen_resume. intros H.
  repeat case_match; try discriminate; injection H as <-;
    rewrite ?metrics_gen_loop; reflexivity.
Qed.

(** A ship changes the metrics at its arrival, which adds a queue sample
    only, and at its departure. *)
Lemma metrics_ship_resume p sh ev s s' :
  ship_resume p sh ev s = Some s' ->
  match ev with
  | ContainerPut _ _ => ship_at sh = AwaitPut /\ s' = ship_depart p sh s
  | _ =>
      ship_at sh <> AwaitPut
      /\ ships_processed (metrics s') = ships_processed (metrics s)
      /\ no_snapshot (metrics s) (metrics s')
  end.
Proof.
  unfold ship_resume, no_snapshot. intros H.
  destruct (ship_at sh); destruct ev; try discriminate;
    repeat case_match; try discriminate; injection H as <-;
    rewrite ?metrics_request, ?metrics_ship_storage_loop, ?metrics_ship_fail;
    try (split; [discriminate|]); auto;
    erewrite metrics_container_put by eassumption; auto.
Qed.

Lemma metrics_ship_depart p sh s :
  ships_processed (metrics (ship_depart p sh s)) = S (ships_processed (metrics s))
  /\ if (ship_id sh mod 10 =? 0)%nat
     then snapshot_appended (metrics s) (metrics (ship_depart p sh s))
     else no_snapshot (metrics s) (metrics (ship_depart p sh s)).
Proof.
  unfold ship_depart. cbv zeta.
  pose proof (metrics_ship_leave_blocks p sh s) as E.
  set (s1 := ship_leave_blocks p sh s) in *. clearbody s1.
  destruct (ship_id sh mod 10 =? 0)%nat; simpl; rewrite E.
  - split; [reflexivity|]. do 3 eexists. repeat split.
  - split; [reflexivity|]. repeat split.
Qed.

Lemma procs_schedule_all mk served s :
  procs (schedule_all mk served s) = procs s.
Proof.
  unfold schedule_all. revert s.
  induction served as [|p served IH]; intros s; simpl; [reflexivity|].
  rewrite IH. reflexivity.
Qed.

Lemma procs_container_trigger_get c s :
  procs (container_trigger_get c s) = procs s.
Proof.
  unfold container_trigger_get. repeat case_match.
  rewrite procs_schedule_all. reflexivity.
Qed.

Lemma procs_container_trigger_put c s :
  procs (container_trigger_put c s) = procs s.
Proof.
  unfold container_trigger_put. repeat case_match.
  rewrite procs_schedule_all. reflexivity.
Qed.

Lemma metrics_resume p ev s s' :
  resume p ev s = Some s' ->
  match ev with
  | ContainerPut _ _ =>
      match procs s !! p with
      | Some (PShip sh) => ship_at sh = AwaitPut /\ s' = ship_depart p sh s
      | _ => metrics s' = metrics s
      end
  | _ =>
      match procs s !! p with
      | Some (PShip sh) => ship_at sh <> AwaitPut
      | _ => True
      end
      /\ ships_processed (metrics s') = ships_processed (metrics s)
      /\ no_snapshot (metrics s) (metrics s')
  end.
Proof.
  unfold resume. intros H.
  destruct (procs s !! p) as [[n inter pc|pc|sh]|]; [| | |discriminate].
  - apply metrics_gen_resume in H. rewrite H.
    destruct ev; repeat split; reflexivity.
  - apply metrics_rail_resume in H. rewrite H.
    destruct ev; repeat split; reflexivity.
  - apply metrics_ship_resume in H. exact H.
Qed.

End MetricsFootprint.

(** C8, as the code has it. A step of the run appends a utilization
    snapshot exactly when it is the departure of a ship whose [ship_id]
    (its number in arrival order, from 0) is a multiple of 10; every
    departure adds one to [ships_processed]; no other step does either. *)
Theorem snapshot_when_ship_id_multiple_of_ten {R : RandomSource} (s s' : Sim R) :
  step s = Continue s' ->
  match departing s with
  | Some sh =>
      ships_processed (metrics s') = S (ships_processed (metrics s))
      /\ if (ship_id sh mod 10 =? 0)%nat
         then snapshot_appended (metrics s) (metrics s')
         else no_snapshot (metrics s) (metrics s')
  | None =>
      ships_processed (metrics s') = ships_processed (metrics s)
      /\ no_snapshot (metrics s) (metrics s')
  end.
Proof.
  unfold step, departing.
  destruct (events s) as [|x rest]; [discriminate|].
  set (s0 := set_events rest (set_now (e_time x) s)).
  assert (Hm : metrics s0 = metrics s) by reflexivity.
  assert (Hp : procs s0 = procs s) by reflexivity.
  clearbody s0. rewrite <- Hm, <- Hp. clear Hm Hp.
  destruct (e_event x) as [p|p|r p|r|c p|c p|p|p e|]; unfold resumed;
    try discriminate;
    try (destruct (resume _ _ _) as [s1|] eqn:E; [|discriminate];
         intros [= <-]; apply metrics_resume in E).
  - destruct E as (_ & E). exact E.
  - destruct E as (_ & E). exact E.
  - destruct E as (_ & E). exact E.
  - intros [= <-]. rewrite metrics_resource_trigger_put. repeat split.
  - rewrite procs_container_trigger_get, metrics_container_trigger_get in E.
    destruct (procs s0 !! p) as [[n inter pc|pc|sh]|];
      try (rewrite E; repeat split).
    destruct E as [-> ->].
    pose proof (metrics_ship_depart p sh (container_trigger_get c s0)) as H.
    rewrite metrics_container_trigger_get in H. exact H.
  - destruct E as (_ & E).
    rewrite metrics_container_trigger_put in E. exact E.
  - intros [= <-]. repeat split.
Qed.

Lemma snapshot_when_ship_id_multiple_of_ten_witness :
  exists s0 s' : Sim turn_source,
    prepare sample_config 100 (0%nat : rng turn_source) = Ok s0
    /\ step (advance 12 s0) = Continue s'
    /\ match departing (advance 12 s0) with
       | Some sh =>
           ships_processed (metrics s')
           = S (ships_processed (metrics (advance 12 s0)))
           /\ if (ship_id sh mod 10 =? 0)%nat
              then snapshot_appended (metrics (advance 12 s0)) (metrics s')
              else no_snapshot (metrics (advance 12 s0)) (metrics s')
       | None =>
           ships_processed (metrics s')
           = ships_processed (metrics (advance 12 s0))
           /\ no_snapshot (metrics (advance 12 s0)) (metrics s')
       end.
Proof.
  eexists. eexists. split; [reflexivity|].
  split.
  - vm_compute. reflexivity.
  - apply (snapshot_when_ship_id_multiple_of_ten (R := turn_source)).
    vm_compute. reflexivity.
Defined.

(** C8 as worded fails: the first ship to complete (ship 0) triggers a
    snapshot although the count of completed ships is then 1. *)
Lemma snapshot_on_first_completion :
  exists s0 s' : Sim turn_source,
    prepare sample_config 100 (0%nat : rng turn_source) = Ok s0
    /\ step (advance 12 s0) = Continue s'
    /\ ~ snapshot_on_tenth_completion (advance 12 s0) s'.
Proof.
  eexists. eexists. split; [reflexivity|]. split.
  - vm_compute. reflexivity.
  - unfold snapshot_on_tenth_completion. intros [H _].
    assert (Hs : (1 mod 10 = 0)%nat); [|discriminate Hs].
    apply H. do 3 eexists. vm_compute. repeat split.
Qed.

(** ** The period of the rail dispatch *)

(** C7, evaluated where the code departs from it. With 7 trains a day the
    interval is 24/7 hours, yet consecutive firings are 38/7 hours apart:
    the interval plus the 2 hours of loading, during which the process
    holds the track and does not count down to the next train. *)
Theorem rail_period_is_interval_plus_loading :
  exists s0 : Sim turn_source,
    prepare sample_config 100 (0%nat : rng turn_source) = Ok s0
    /\ firing_times 40 s0
       = [24 # 7; 62 # 7; 100 # 7; 138 # 7]
    /\ gaps (firing_times 40 s0) = [38 # 7; 38 # 7; 38 # 7]
    /\ py_div 24 (inject_Z (trains_per_day sample_config)) = Ok (24 # 7).
Proof.
  eexists. split; [reflexivity|]. vm_compute. repeat split.
Qed.

(** ** One firing of the rail dispatch *)



Section RailFiring.

Context {R : RandomSource}.

Implicit Types (s : Sim R) (p : pid) (c : cargo) (pc : rail_pc).

Lemma port_schedule_all mk served s :
  port (schedule_all mk served s) = port s.
Proof.
  unfold schedule_all. revert s.
  induction served as [|q served IH]; intros s; simpl; [reflexivity|].
  rewrite IH. reflexivity.
Qed.

Lemma get_storage_set_same c x (pt : Port) :
  get_storage c (set_storage c x pt) = x.
Proof. destruct c; reflexivity. Qed.

Lemma get_storage_set_other c c' x (pt : Port) :
  c <> c' -> get_storage c (set_storage c' x pt) = get_storage c pt.
Proof. destruct c, c'; intros H; try reflexivity; contradiction. Qed.

(** A guarded [get] is served at once. *)
Lemma container_get_served c p amount s :
  0 < amount -> amount <= pool_level c s ->
  get_queue (get_storage c (port s)) = [] ->
  exists s',
    container_get c p amount s = Ok s'
    /\ procs s' = procs s
    /\ port_config (port s') = port_config (port s)
    /\ pool_level c s' = pool_level c s - amount
    /\ get_queue (get_storage c (port s')) = []
    /\ (forall c', c' <> c -> get_storage c' (port s') = get_storage c' (port s)).
Proof.
  unfold pool_level. intros Hpos Hle Hq.
  unfold container_get.
  destruct (Qle_bool amount 0) eqn:T; q_tests; [lra|].
  eexists. split; [reflexivity|].
  unfold container_trigger_get. cbn [port set_port].
  rewrite !get_storage_set_same. cbn [level get_queue put_queue c_capacity].
  rewrite Hq. cbn [app serve_gets].
  destruct (Qgeb (level (get_storage c (port s))) amount) eqn:T'; q_tests; [|lra].
  rewrite procs_schedule_all, port_schedule_all. cbn [port set_port procs].
  repeat split.
  - rewrite get_storage_set_same. reflexivity.
  - rewrite get_storage_set_same. reflexivity.
  - intros c' Hc. rewrite !get_storage_set_other by exact Hc. reflexivity.
Qed.












End RailFiring.



(** ** Errors raised before the first event *)

Lemma Resource_init_cases (cap : Z) :
  match Resource_init cap with
  | Ok _ => (0 < cap)%Z
  | Raise e => e = ValueError /\ (cap <= 0)%Z
  end.
Proof. unfold Resource_init. destruct (Z.leb_spec cap 0); [split; auto|lia]. Qed.

Lemma Container_init_cases (cap : Q) :
  match Container_init cap 0 with
  | Ok _ => 0 < cap
  | Raise e => e = ValueError /\ cap <= 0
  end.
Proof.
  unfold Container_init.
  destruct (Qle_bool cap 0) eqn:T; q_tests; [split; auto|].
  destruct (Qltb 0 0) eqn:T0; q_tests; [lra|].
  destruct (Qgtb 0 cap) eqn:T1; q_tests; [lra|exact T].
Qed.

Lemma Port_init_cases (config : Config) :
  match Port_init config with
  | Ok _ =>
      (0 < oil_berths config)%Z /\ (0 < dry_berths config)%Z
      /\ (0 < cranes config)%Z
      /\ 0 < grain_storage_capacity config
      /\ 0 < general_storage_capacity config
      /\ 0 < oil_storage_capacity config
      /\ (0 < railway_capacity config)%Z
  | Raise e =>
      e = ValueError
      /\ ((oil_berths config <= 0)%Z \/ (dry_berths config <= 0)%Z
          \/ (cranes config <= 0)%Z
          \/ grain_storage_capacity config <= 0
          \/ general_storage_capacity config <= 0
          \/ oil_storage_capacity config <= 0
          \/ (railway_capacity config <= 0)%Z)
  end.
Proof.
  unfold Port_init, bind.
  pose proof (Resource_init_cases (oil_berths config)) as H1.
  pose proof (Resource_init_cases (dry_berths config)) as H2.
  pose proof (Resource_init_cases (cranes config)) as H3.
  pose proof (Container_init_cases (grain_storage_capacity config)) as H4.
  pose proof (Container_init_cases (general_storage_capacity config)) as H5.
  pose proof (Container_init_cases (oil_storage_capacity config)) as H6.
  pose proof (Resource_init_cases (railway_capacity config)) as H7.
  destruct (Resource_init (oil_berths config)); [|intuition].
  destruct (Resource_init (dry_berths config)); [|intuition].
  destruct (Resource_init (cranes config)); [|intuition].
  destruct (Container_init (grain_storage_capacity config) 0); [|intuition].
  destruct (Container_init (general_storage_capacity config) 0); [|intuition].
  destruct (Container_init (oil_storage_capacity config) 0); [|intuition].
  destruct (Resource_init (railway_capacity config)); [|intuition].
  intuition.
Qed.

(** C5, as the code has it. Before the first event, [run_simulation] raises
    exactly when a berth count, the crane count, the rail track count or a
    storage capacity is not positive, or the horizon is not positive; the
    error is the library's [ValueError]. Otherwise the loop starts from the
    prepared state at time 0 with empty metrics. *)
Theorem errors_before_the_first_event {R : RandomSource} (config : Config)
    (simulation_hours : Q) (g : rng R) :
  match prepare config simulation_hours g with
  | Raise e =>
      e = ValueError
      /\ rejected_before_run config simulation_hours
      /\ forall fuel : nat,
           run_simulation config simulation_hours fuel g = Raised ValueError
  | Ok s =>
      ~ rejected_before_run config simulation_hours
      /\ now s = 0 /\ metrics s = PortMetrics_init
      /\ forall fuel : nat,
           run_simulation config simulation_hours fuel g = run_loop fuel s
  end.
Proof.
  unfold run_simulation, rejected_before_run.
  unfold prepare, start, bind, run_until.
  pose proof (Port_init_cases config) as HP.
  destruct (Port_init config) as [pt|e].
  - simpl. destruct (Qle_bool simulation_hours 0) eqn:T; q_tests.
    + repeat split; auto 10.
    + repeat split; try reflexivity. intros H.
      repeat destruct H as [H|H]; try lia; lra.
  - destruct HP as [-> HP]. repeat split; intuition.
Qed.

(** C5 as worded fails: trains of capacity 0 are not rejected. The run is
    prepared, events are processed, and the error only comes out of the
    first firing of the rail dispatch. *)
Lemma empty_trains_not_rejected :
  spec_invalid (choice_atol turn_source) config_empty_trains 100
  /\ exists s0 s1 : Sim turn_source,
       prepare config_empty_trains 100 (0%nat : rng turn_source) = Ok s0
       /\ step s0 = Continue s1
       /\ run_simulation config_empty_trains 100 6 (0%nat : rng turn_source)
          = OutOfFuel (advance 6 s0)
       /\ run_simulation config_empty_trains 100 20 (0%nat : rng turn_source)
          = Raised ValueError.
Proof.
  split.
  - unfold spec_invalid. simpl. do 8 right. left. lra.
  - eexists. eexists. split; [reflexivity|]. split; [reflexivity|].
    split; vm_compute; reflexivity.
Qed.


(** ** The berth and the crane are held until departure *)

Lemma elem_of_remove_first_ne (p q : pid) (l : list pid) :
  q <> p -> q ∈ remove_first p l <-> q ∈ l.
Proof.
  intros Hne. induction l as [|x l IH]; simpl; [reflexivity|].
  destruct (Nat.eqb_spec x p) as [->|Hx].
  - rewrite elem_of_cons. intuition congruence.
  - rewrite !elem_of_cons, IH. reflexivity.
Qed.

Lemma elem_of_remove_first (p q : pid) (l : list pid) :
  q ∈ remove_first p l -> q ∈ l.
Proof.
  induction l as [|x l IH]; simpl; [auto|].
  destruct (Nat.eqb_spec x p) as [->|Hx]; rewrite !elem_of_cons; intuition.
Qed.

Lemma NoDup_remove_first (p : pid) (l : list pid) :
  NoDup l -> NoDup (remove_first p l).
Proof.
  induction l as [|x l IH]; simpl; [auto|].
  rewrite NoDup_cons. intros [Hx Hl].
  destruct (Nat.eqb_spec x p) as [->|Hne]; [exact Hl|].
  apply NoDup_cons. split; [|auto].
  intros H. apply Hx. eapply elem_of_remove_first, H.
Qed.

Lemma remove_first_absent (p : pid) (l : list pid) :
  p ∉ l -> remove_first p l = l.
Proof.
  induction l as [|x l IH]; simpl; [auto|].
  rewrite not_elem_of_cons. intros [Hne Hl].
  destruct (Nat.eqb_spec x p) as [->|_]; [congruence|].
  rewrite IH; auto.
Qed.

Lemma heappush_perm (x : entry) (q : list entry) : heappush x q ≡ₚ x :: q.
Proof.
  induction q as [|y q IH]; simpl; [reflexivity|].
  destruct (entry_lt x y); [reflexivity|].
  rewrite IH. apply Permutation_swap.
Qed.

Lemma granted_heappush (x : entry) (q : list entry) :
  granted (heappush x q) ≡ₚ granted (x :: q).
Proof. unfold granted. rewrite heappush_perm. reflexivity. Qed.

Lemma elem_of_granted_snd (p : pid) (l : list (res_id * pid)) :
  p ∈ l.*2 <-> exists r, (r, p) ∈ l.
Proof.
  rewrite list_elem_of_fmap. split.
  - intros ([r q] & -> & H). exists r. exact H.
  - intros (r & H). exists (r, p). auto.
Qed.

Lemma get_res_set_res (r r' : res_id) (x : Resource) (pt : Port) :
  get_res r (set_res r' x pt) = if decide (r = r') then x else get_res r pt.
Proof. destruct r, r'; reflexivity. Qed.

Lemma get_res_set_storage (r : res_id) (c : cargo) (x : Container) (pt : Port) :
  get_res r (set_storage c x pt) = get_res r pt.
Proof. destruct r; reflexivity. Qed.

Section Holding.

Context {R : RandomSource}.

Implicit Types (s : Sim R) (p q : pid) (r : res_id) (c : cargo).

Lemma same_core_refl s : same_core s s.
Proof. split; [|split]; reflexivity. Qed.

Lemma same_core_trans s1 s2 s3 :
  same_core s1 s2 -> same_core s2 s3 -> same_core s1 s3.
Proof.
  intros (P1 & G1 & R1) (P2 & G2 & R2). split; [congruence|]. split.
  - rewrite G2. exact G1.
  - intros r. rewrite R2. apply R1.
Qed.

Lemma holds_inv_same_core s s' :
  same_core s s' -> holds_inv s -> holds_inv s'.
Proof.
  intros (HP & HG & HR) [Hb Hc Hd Hu Hg Hn Hq Hqn].
  assert (HC : port_cranes (port s') = port_cranes (port s))
    by exact (HR CranesRes).
  split.
  - intros p sh. rewrite HP, HR. apply Hb.
  - intros p sh. rewrite HP, HC. apply Hc.
  - intros p sh. rewrite HP. apply Hd.
  - intros p. rewrite HP, HC. apply Hu.
  - intros r p. rewrite HP, HG, HR. apply Hg.
  - rewrite HG. exact Hn.
  - intros r p. rewrite HP, HR. setoid_rewrite HG. apply Hq.
  - intros r. rewrite HR. apply Hqn.
Qed.

Lemma unref_same_core p s s' : same_core s s' -> unref p s -> unref p s'.
Proof.
  intros (HP & HG & HR) [Hg Hq]. split.
  - rewrite HG. exact Hg.
  - intros r. rewrite HR. apply Hq.
Qed.


Lemma same_core_schedule ev pr d s :
  not_request ev -> same_core s (schedule ev pr d s).
Proof.
  intros Hev. split; [reflexivity|]. split; [|reflexivity].
  cbn [events schedule]. rewrite granted_heappush.
  unfold granted. cbn [omap list_omap request_of e_event].
  destruct ev; try reflexivity. contradiction.
Qed.

Lemma same_core_schedule_all mk served s :
  (forall p, not_request (mk p)) -> same_core s (schedule_all mk served s).
Proof.
  intros Hmk. unfold schedule_all. revert s.
  induction served as [|p served IH]; intros s; simpl; [apply same_core_refl|].
  eapply same_core_trans; [apply (same_core_schedule (mk p)), Hmk | apply IH].
Qed.

Lemma same_core_set_storage c x s :
  same_core s (set_port (set_storage c x (port s)) s).
Proof.
  split; [reflexivity|]. split; [reflexivity|].
  intros r. apply get_res_set_storage.
Qed.

Lemma same_core_container_trigger_put c s :
  same_core s (container_trigger_put c s).
Proof.
  unfold container_trigger_put. repeat case_match.
  eapply same_core_trans; [apply same_core_set_storage|].
  apply same_core_schedule_all. intros; exact I.
Qed.

Lemma same_core_container_trigger_get c s :
  same_core s (container_trigger_get c s).
Proof.
  unfold container_trigger_get. repeat case_match.
  eapply same_core_trans; [apply same_core_set_storage|].
  apply same_core_schedule_all. intros; exact I.
Qed.

Lemma same_core_container_put c p amount s s' :
  container_put c p amount s = Ok s' -> same_core s s'.
Proof.
  unfold container_put. case_match; [discriminate|]. intros [= <-].
  eapply same_core_trans; [apply same_core_set_storage|].
  apply same_core_container_trigger_put.
Qed.

Lemma same_core_container_get c p amount s s' :
  container_get c p amount s = Ok s' -> same_core s s'.
Proof.
  unfold container_get. case_match; [discriminate|]. intros [= <-].
  eapply same_core_trans; [apply same_core_set_storage|].
  apply same_core_container_trigger_get.
Qed.

(** *** Popping the least entry *)

Lemma holds_inv_pop x rest s t :
  events s = x :: rest -> holds_inv s ->
  let s0 := set_events rest (set_now t s) in
  holds_inv s0
  /\ forall r p, e_event x = Request r p ->
       unref p s0
       /\ exists pr, procs s0 !! p = Some pr /\ waits_for pr = Some r
                     /\ p ∈ users (get_res r (port s0)).
Proof.
  intros He [Hb Hc Hd Hu Hg Hn Hq Hqn] s0.
  assert (Hsub : forall y, y ∈ granted rest -> y ∈ granted (events s)).
  { intros y. rewrite He. unfold granted. simpl.
    destruct (request_of x); [apply list_elem_of_further|auto]. }
  assert (Hsub2 : forall q, q ∈ (granted rest).*2 -> q ∈ (granted (events s)).*2).
  { intros q. rewrite !elem_of_granted_snd. intros (r & H). eauto. }
  split.
  - split; cbn [procs port events set_events set_now]; try assumption.
    + intros r p Hin. apply Hg, Hsub, Hin.
    + revert Hn. rewrite He. unfold granted. simpl.
      destruct (request_of x); [|auto].
      rewrite fmap_cons, NoDup_cons. tauto.
    + intros r p Hin. destruct (Hq r p Hin) as (pr & ? & ? & Hnot).
      exists pr. repeat split; auto.
  - intros r p Hx.
    assert (Hxg : granted (events s) = (r, p) :: granted rest).
    { rewrite He. unfold granted. simpl. unfold request_of at 1.
      rewrite Hx. reflexivity. }
    assert (Hin : (r, p) ∈ granted (events s))
      by (rewrite Hxg; apply list_elem_of_here).
    split; [split|].
    + cbn [events set_events]. revert Hn. rewrite Hxg, fmap_cons, NoDup_cons.
      simpl. tauto.
    + intros r' Hq'. cbn [port set_events set_now] in Hq'.
      destruct (Hq r' p Hq') as (_ & _ & _ & Hnot).
      apply Hnot, elem_of_granted_snd. eauto.
    + apply Hg, Hin.
Qed.

(** A process that waits for no resource is referenced nowhere. *)
Lemma unref_idle p pr s :
  holds_inv s -> procs s !! p = Some pr -> waits_for pr = None -> unref p s.
Proof.
  intros [Hb Hc Hd Hu Hg Hn Hq Hqn] Hp Hw. split.
  - rewrite elem_of_granted_snd. intros (r & Hin).
    destruct (Hg r p Hin) as (pr' & Hp' & Hw' & _). congruence.
  - intros r Hin. destruct (Hq r p Hin) as (pr' & Hp' & Hw' & _). congruence.
Qed.


(** *** Replacing a process entry, adding a process *)

Lemma holds_inv_set_proc p old x s :
  holds_inv s -> unref p s -> procs s !! p = Some old -> same_kind old x ->
  (forall sh, x = PShip sh ->
     (berthed (ship_at sh) = true ->
      p ∈ users (get_res (get_berth (cargo_type sh)) (port s)))
     /\ (craned (ship_at sh) = true -> cargo_type sh <> Oil ->
         p ∈ users (port_cranes (port s)))
     /\ (ship_at sh = AwaitCrane -> cargo_type sh <> Oil)) ->
  holds_inv (set_proc p x s).
Proof.
  intros [Hb Hc Hd Hu Hg Hn Hq Hqn] [Ug Uq] Hp Hk Hx.
  assert (Hlt : (p < length (procs s))%nat) by (eapply lookup_lt_Some, Hp).
  assert (Hlook : forall q pr,
             (<[p:=x]> (procs s)) !! q = Some pr ->
             (q = p /\ pr = x) \/ (q <> p /\ procs s !! q = Some pr)).
  { intros q pr. destruct (decide (q = p)) as [->|Hne].
    - rewrite list_lookup_insert_eq by exact Hlt. intros [= <-]. auto.
    - rewrite list_lookup_insert_ne by congruence. auto. }
  assert (Hkeep : forall q pr, q <> p -> procs s !! q = Some pr ->
                    (<[p:=x]> (procs s)) !! q = Some pr).
  { intros q pr Hne. rewrite list_lookup_insert_ne by congruence. auto. }
  split; cbn [procs port events set_proc set_procs]; try assumption.
  - intros q sh Hq' Hbt. destruct (Hlook _ _ Hq') as [[-> E]|[_ E]].
    + apply (Hx sh (eq_sym E)), Hbt.
    + eapply Hb; eassumption.
  - intros q sh Hq' Hct Hdry. destruct (Hlook _ _ Hq') as [[-> E]|[_ E]].
    + apply (Hx sh (eq_sym E)); assumption.
    + eapply Hc; eassumption.
  - intros q sh Hq' Hat. destruct (Hlook _ _ Hq') as [[-> E]|[_ E]].
    + apply (Hx sh (eq_sym E)), Hat.
    + eapply Hd; eassumption.
  - intros q Hin. destruct (Hu q Hin) as (sh & Hq' & Hdry).
    destruct (decide (q = p)) as [->|Hne].
    + rewrite Hp in Hq'. injection Hq' as ->.
      destruct x as [| |sh']; try contradiction. simpl in Hk.
      exists sh'. rewrite list_lookup_insert_eq by exact Hlt.
      split; [reflexivity|congruence].
    + exists sh. split; [apply Hkeep; assumption|exact Hdry].
  - intros r q Hin. destruct (Hg r q Hin) as (pr & Hq' & Hw & Hus).
    exists pr. split; [|auto]. apply Hkeep; [|exact Hq'].
    intros ->. apply Ug, elem_of_granted_snd. eauto.
  - intros r q Hin. destruct (Hq r q Hin) as (pr & Hq' & Hw & Hnot).
    exists pr. split; [|auto]. apply Hkeep; [|exact Hq'].
    intros ->. eapply Uq, Hin.
Qed.

Lemma holds_inv_spawn x s :
  holds_inv s ->
  (forall sh, x = PShip sh -> ship_at sh = ShipInit) ->
  holds_inv (spawn x s).
Proof.
  intros [Hb Hc Hd Hu Hg Hn Hq Hqn] Hx. unfold spawn.
  eapply holds_inv_same_core; [apply same_core_schedule; exact I|].
  assert (Hlook : forall q pr,
             (procs s ++ [x]) !! q = Some pr ->
             procs s !! q = Some pr \/ pr = x).
  { intros q pr. rewrite lookup_app_Some. intros [H|[_ H]]; [auto|].
    apply list_lookup_singleton_Some in H. right. symmetry. apply H. }
  split; cbn [procs port events set_procs]; try assumption.
  - intros q sh Hq' Hbt. destruct (Hlook _ _ Hq') as [E|E].
    + eapply Hb; eassumption.
    + rewrite (Hx sh (eq_sym E)) in Hbt. discriminate.
  - intros q sh Hq' Hct. destruct (Hlook _ _ Hq') as [E|E].
    + eapply Hc; eassumption.
    + rewrite (Hx sh (eq_sym E)) in Hct. discriminate.
  - intros q sh Hq' Hat. destruct (Hlook _ _ Hq') as [E|E].
    + eapply Hd; eassumption.
    + rewrite (Hx sh (eq_sym E)) in Hat. discriminate.
  - intros q Hin. destruct (Hu q Hin) as (sh & Hq' & Hdry).
    exists sh. split; [apply lookup_app_l_Some, Hq'|exact Hdry].
  - intros r q Hin. destruct (Hg r q Hin) as (pr & Hq' & Hw).
    exists pr. split; [apply lookup_app_l_Some, Hq'|exact Hw].
  - intros r q Hin. destruct (Hq r q Hin) as (pr & Hq' & Hw).
    exists pr. split; [apply lookup_app_l_Some, Hq'|exact Hw].
Qed.


(** *** Granting, requesting, releasing *)

Lemma resource_trigger_put_cases r s :
  resource_trigger_put r s = s
  \/ exists q rest,
       queue (get_res r (port s)) = q :: rest
       /\ procs (resource_trigger_put r s) = procs s
       /\ granted (events (resource_trigger_put r s))
          ≡ₚ (r, q) :: granted (events s)
       /\ forall r',
            get_res r' (port (resource_trigger_put r s))
            = if decide (r' = r)
              then {| capacity := capacity (get_res r (port s));
                      users := users (get_res r (port s)) ++ [q];
                      queue := rest |}
              else get_res r' (port s).
Proof.
  unfold resource_trigger_put.
  destruct (queue (get_res r (port s))) as [|q rest] eqn:E; [auto|].
  destruct (_ <? _)%Z; [|auto].
  right. exists q, rest. split; [reflexivity|]. split; [reflexivity|]. split.
  - cbn [events schedule set_port]. rewrite granted_heappush. reflexivity.
  - intros r'. cbn [port schedule set_port]. apply get_res_set_res.
Qed.

Lemma waits_for_cranes pr :
  waits_for pr = Some CranesRes ->
  exists sh, pr = PShip sh /\ ship_at sh = AwaitCrane.
Proof.
  destruct pr as [| pc |sh]; simpl; [discriminate| |].
  - destruct pc; discriminate.
  - destruct (ship_at sh) eqn:E; try discriminate.
    + destruct (cargo_type sh); discriminate.
    + eauto.
Qed.

Lemma holds_inv_resource_trigger_put r s :
  holds_inv s -> holds_inv (resource_trigger_put r s).
Proof.
  intros Hs.
  destruct (resource_trigger_put_cases r s)
    as [->|(q & rest & Eq & HP & HG & HR)]; [exact Hs|].
  destruct Hs as [Hb Hc Hd Hu Hg Hn Hq Hqn].
  assert (Hqin : q ∈ queue (get_res r (port s)))
    by (rewrite Eq; apply list_elem_of_here).
  destruct (Hq r q Hqin) as (prq & Hpq & Hwq & Hnq).
  pose proof (Hqn r) as Hnd. rewrite Eq, NoDup_cons in Hnd.
  destruct Hnd as [Hq_rest Hnd_rest].
  assert (Husers : forall r' p,
             p ∈ users (get_res r' (port s)) ->
             p ∈ users (get_res r' (port (resource_trigger_put r s)))).
  { intros r' p Hin. rewrite HR. destruct (decide (r' = r)) as [->|_]; [|auto].
    simpl. apply elem_of_app. auto. }
  split; rewrite ?HP.
  - intros p sh Hp Hbt. apply Husers. eapply Hb; eassumption.
  - intros p sh Hp Hct Hdry. apply (Husers CranesRes). eapply Hc; eassumption.
  - exact Hd.
  - intros p Hin. change (port_cranes ?pt) with (get_res CranesRes pt) in Hin.
    rewrite HR in Hin. destruct (decide (CranesRes = r)) as [<-|_]; [|auto].
    simpl in Hin. apply elem_of_app in Hin. destruct Hin as [Hin|Hin]; [auto|].
    apply list_elem_of_singleton in Hin. subst p.
    destruct (waits_for_cranes _ Hwq) as (sh & -> & Hat).
    exists sh. split; [exact Hpq|]. eapply Hd; eassumption.
  - intros r' p Hin. rewrite HG in Hin. apply elem_of_cons in Hin.
    destruct Hin as [[= -> ->]|Hin].
    + exists prq. repeat split; auto. rewrite HR.
      destruct (decide (r = r)); [|congruence]. simpl.
      apply elem_of_app. right. apply list_elem_of_here.
    + destruct (Hg r' p Hin) as (pr & ? & ? & ?). exists pr. auto.
  - rewrite HG, fmap_cons, NoDup_cons. auto.
  - intros r' p Hin. rewrite HR in Hin.
    assert (Hold : p ∈ queue (get_res r' (port s)) /\ p <> q).
    { destruct (decide (r' = r)) as [->|Hne].
      - simpl in Hin. split; [rewrite Eq; apply list_elem_of_further, Hin|].
        intros ->. contradiction.
      - split; [exact Hin|]. intros ->.
        destruct (Hq r' q Hin) as (pr & Hp' & Hw' & _). congruence. }
    destruct Hold as [Hold Hne].
    destruct (Hq r' p Hold) as (pr & Hp' & Hw' & Hnot).
    exists pr. repeat split; auto.
    rewrite HG, fmap_cons, not_elem_of_cons. auto.
  - intros r'. rewrite HR. destruct (decide (r' = r)); [exact Hnd_rest|auto].
Qed.

Lemma unref_resource_trigger_put p r s :
  unref p s -> unref p (resource_trigger_put r s).
Proof.
  intros [Ug Uq].
  destruct (resource_trigger_put_cases r s)
    as [->|(q & rest & Eq & HP & HG & HR)]; [split; assumption|].
  assert (p <> q).
  { intros ->. apply (Uq r). rewrite Eq. apply list_elem_of_here. }
  split.
  - rewrite HG, fmap_cons, not_elem_of_cons. auto.
  - intros r'. rewrite HR. destruct (decide (r' = r)) as [->|_]; [|auto].
    simpl. intros Hin. apply (Uq r). rewrite Eq.
    apply list_elem_of_further, Hin.
Qed.

Lemma holds_inv_request r p pr s :
  holds_inv s -> unref p s ->
  procs s !! p = Some pr -> waits_for pr = Some r ->
  holds_inv (request r p s).
Proof.
  intros [Hb Hc Hd Hu Hg Hn Hq Hqn] [Ug Uq] Hp Hw.
  unfold request. apply holds_inv_resource_trigger_put.
  assert (HR : forall r',
             users (get_res r'
                      (set_res r {| capacity := capacity (get_res r (port s));
                                    users := users (get_res r (port s));
                                    queue := queue (get_res r (port s)) ++ [p] |}
                         (port s)))
             = users (get_res r' (port s))).
  { intros r'. rewrite get_res_set_res. destruct (decide (r' = r)) as [->|]; auto. }
  split; cbn [procs port events set_port].
  - intros q sh ? ?. rewrite HR. eapply Hb; eassumption.
  - intros q sh ? ? ?. change (port_cranes ?pt) with (get_res CranesRes pt).
    rewrite (HR CranesRes). eapply Hc; eassumption.
  - exact Hd.
  - intros q. change (port_cranes ?pt) with (get_res CranesRes pt).
    rewrite (HR CranesRes). apply Hu.
  - intros r' q Hin. rewrite HR. apply Hg, Hin.
  - exact Hn.
  - intros r' q. rewrite get_res_set_res.
    destruct (decide (r' = r)) as [->|]; [|apply Hq].
    simpl. rewrite elem_of_app, list_elem_of_singleton.
    intros [Hin| ->]; [apply Hq, Hin|]. exists pr. auto.
  - intros r'. rewrite get_res_set_res.
    destruct (decide (r' = r)) as [->|]; [|apply Hqn].
    simpl. apply NoDup_app. split; [apply Hqn|]. split; [|apply NoDup_singleton].
    intros q Hin ->%list_elem_of_singleton. eapply Uq, Hin.
Qed.

Lemma exit_request_core r p s :
  procs (exit_request r p s) = procs s
  /\ granted (events (exit_request r p s)) ≡ₚ granted (events s)
  /\ forall r',
       get_res r' (port (exit_request r p s))
       = if decide (r' = r)
         then {| capacity := capacity (get_res r (port s));
                 users := remove_first p (users (get_res r (port s)));
                 queue := remove_first p (queue (get_res r (port s))) |}
         else get_res r' (port s).
Proof.
  unfold exit_request, release, cancel.
  split; [reflexivity|]. split.
  - cbn [events schedule set_port]. rewrite granted_heappush. reflexivity.
  - intros r'. cbn [port schedule set_port].
    rewrite !get_res_set_res. destruct (decide (r' = r)) as [->|Hne].
    + destruct (decide (r = r)); [reflexivity|congruence].
    + destruct (decide (r' = r)); [congruence|reflexivity].
Qed.

Lemma craned_berthed pc : craned pc = true -> berthed pc = true.
Proof. destruct pc; simpl; auto. Qed.

Lemma holds_inv_exit_request r p s :
  holds_inv s -> unref p s ->
  (forall sh, procs s !! p = Some (PShip sh) -> berthed (ship_at sh) = false) ->
  holds_inv (exit_request r p s).
Proof.
  intros [Hb Hc Hd Hu Hg Hn Hq Hqn] [Ug Uq] Hfree.
  destruct (exit_request_core r p s) as (HP & HG & HR).
  assert (Husers : forall r' q, q <> p ->
             q ∈ users (get_res r' (port s)) ->
             q ∈ users (get_res r' (port (exit_request r p s)))).
  { intros r' q Hne Hin. rewrite HR. destruct (decide (r' = r)) as [->|_]; [|auto].
    simpl. apply elem_of_remove_first_ne; assumption. }
  assert (Hqueue : forall r' q,
             q ∈ queue (get_res r' (port (exit_request r p s))) ->
             q ∈ queue (get_res r' (port s))).
  { intros r' q. rewrite HR. destruct (decide (r' = r)) as [->|_]; [|auto].
    simpl. apply elem_of_remove_first. }
  split; rewrite ?HP.
  - intros q sh Hq' Hbt. apply Husers; [|eapply Hb; eassumption].
    intros ->. rewrite (Hfree _ Hq') in Hbt. discriminate.
  - intros q sh Hq' Hct Hdry. apply (Husers CranesRes); [|eapply Hc; eassumption].
    intros ->. apply craned_berthed in Hct.
    rewrite (Hfree _ Hq') in Hct. discriminate.
  - exact Hd.
  - intros q Hin. apply Hu.
    change (port_cranes ?pt) with (get_res CranesRes pt) in Hin.
    rewrite HR in Hin. destruct (decide (CranesRes = r)) as [<-|_]; [|exact Hin].
    simpl in Hin. eapply elem_of_remove_first, Hin.
  - intros r' q Hin. rewrite HG in Hin.
    destruct (Hg r' q Hin) as (pr & ? & ? & ?). exists pr. repeat split; auto.
    apply Husers; [|assumption].
    intros ->. apply Ug, elem_of_granted_snd. eauto.
  - rewrite HG. exact Hn.
  - intros r' q Hin. apply Hqueue in Hin.
    destruct (Hq r' q Hin) as (pr & ? & ? & ?). exists pr. rewrite HG. auto.
  - intros r'. rewrite HR. destruct (decide (r' = r)) as [->|_]; [|auto].
    simpl. apply NoDup_remove_first, Hqn.
Qed.

Lemma unref_exit_request q r p s :
  unref q s -> unref q (exit_request r p s).
Proof.
  intros [Ug Uq]. destruct (exit_request_core r p s) as (HP & HG & HR). split.
  - rewrite HG. exact Ug.
  - intros r'. rewrite HR. destruct (decide (r' = r)) as [->|_]; [|auto].
    simpl. intros Hin. eapply Uq, elem_of_remove_first, Hin.
Qed.


(** *** The ship process *)

Lemma unref_schedule p ev pr d s :
  not_request ev -> unref p s -> unref p (schedule ev pr d s).
Proof. intros Hev. apply unref_same_core, same_core_schedule, Hev. Qed.

Lemma is_oil_false c : is_oil c = false <-> c <> Oil.
Proof. destruct c; simpl; split; congruence. Qed.

Lemma is_oil_true c : is_oil c = true <-> c = Oil.
Proof. destruct c; simpl; split; congruence. Qed.

Lemma procs_set_proc_same p x old s :
  procs s !! p = Some old -> procs (set_proc p x s) !! p = Some x.
Proof.
  intros Hp. cbn [procs set_proc set_procs].
  apply list_lookup_insert_eq. eapply lookup_lt_Some, Hp.
Qed.

(** Leaving the blocks once the entry of the ship says it is done. *)
Lemma holds_inv_leave_blocks_done p sh s :
  holds_inv s -> unref p s ->
  procs s !! p = Some (PShip (ship_moves sh ShipDone)) ->
  holds_inv (ship_leave_blocks p sh s) /\ unref p (ship_leave_blocks p sh s).
Proof.
  intros Hs Hu Hp. unfold ship_leave_blocks.
  assert (Hfree : forall s0, procs s0 = procs s ->
             forall sh0, procs s0 !! p = Some (PShip sh0) ->
                         berthed (ship_at sh0) = false).
  { intros s0 -> sh0. rewrite Hp. intros [= <-]. reflexivity. }
  destruct (is_oil (cargo_type sh)).
  - split; [|apply unref_exit_request, Hu].
    apply holds_inv_exit_request; auto. apply (Hfree s eq_refl).
  - assert (H1 : holds_inv (exit_request CranesRes p s))
      by (apply holds_inv_exit_request; auto; apply (Hfree s eq_refl)).
    assert (U1 : unref p (exit_request CranesRes p s))
      by (apply unref_exit_request, Hu).
    split; [|apply unref_exit_request, U1].
    apply holds_inv_exit_request; auto.
    apply Hfree. apply (exit_request_core CranesRes p s).
Qed.

Lemma holds_inv_ship_done p sh old s :
  holds_inv s -> unref p s ->
  procs s !! p = Some (PShip old) -> cargo_type sh = cargo_type old ->
  holds_inv (ship_leave_blocks p sh (set_proc p (PShip (ship_moves sh ShipDone)) s)).
Proof.
  intros Hs Hu Hp Hc.
  apply holds_inv_leave_blocks_done.
  - eapply holds_inv_set_proc; eauto.
    intros sh' [= <-]. simpl. repeat split; discriminate.
  - exact Hu.
  - eapply procs_set_proc_same, Hp.
Qed.

Lemma holds_inv_ship_fail p sh old e s :
  holds_inv s -> unref p s ->
  procs s !! p = Some (PShip old) -> cargo_type sh = cargo_type old ->
  holds_inv (ship_fail p sh e s).
Proof.
  intros Hs Hu Hp Hc.
  pose proof (holds_inv_ship_done p sh old s Hs Hu Hp Hc) as H.
  eapply holds_inv_same_core; [|exact H].
  unfold ship_fail.
  eapply same_core_trans; [|apply same_core_schedule; exact I].
  unfold ship_leave_blocks. destruct (is_oil (cargo_type sh));
    (split; [|split]; reflexivity).
Qed.

Lemma holds_inv_ship_depart p sh old s :
  holds_inv s -> unref p s ->
  procs s !! p = Some (PShip old) -> cargo_type sh = cargo_type old ->
  holds_inv (ship_depart p sh s).
Proof.
  intros Hs Hu Hp Hc.
  pose proof (holds_inv_ship_done p sh old s Hs Hu Hp Hc) as H.
  eapply holds_inv_same_core; [|exact H].
  unfold ship_depart. cbv zeta.
  eapply same_core_trans; [|apply same_core_schedule; exact I].
  unfold ship_leave_blocks.
  destruct (is_oil (cargo_type sh)); destruct (_ =? _)%nat;
    (split; [|split]; reflexivity).
Qed.

Lemma holds_inv_ship_storage_loop p sh old s :
  holds_inv s -> unref p s ->
  procs s !! p = Some (PShip old) -> cargo_type sh = cargo_type old ->
  p ∈ users (get_res (get_berth (cargo_type sh)) (port s)) ->
  (cargo_type sh <> Oil -> p ∈ users (port_cranes (port s))) ->
  holds_inv (ship_storage_loop p sh s).
Proof.
  intros Hs Hu Hp Hc Hb Hk. unfold ship_storage_loop.
  assert (Hmove : forall pc, pc <> AwaitCrane ->
             holds_inv (set_proc p (PShip (ship_moves sh pc)) s)).
  { intros pc Hpc. eapply holds_inv_set_proc; eauto.
    intros sh' [= <-]. simpl. repeat split; auto. }
  repeat case_match;
    try (eapply holds_inv_ship_fail; eassumption);
    (eapply holds_inv_same_core; [apply same_core_schedule; exact I|]);
    apply Hmove; discriminate.
Qed.

Lemma holds_inv_ship_resume p sh ev s s' :
  holds_inv s -> procs s !! p = Some (PShip sh) ->
  (forall r q, ev = Request r q ->
     unref p s /\ waits_for (PShip sh) = Some r
     /\ p ∈ users (get_res r (port s))) ->
  ship_resume p sh ev s = Some s' ->
  holds_inv s'.
Proof.
  intros Hs Hp Hev. unfold ship_resume.
  destruct (ship_at sh) eqn:Hat; destruct ev as [q|q|r q|r|c q|c q|q|q e|];
    try discriminate.
  - (* arrival *)
    intros [= <-].
    assert (Hu : unref p s)
      by (eapply unref_idle; eauto; simpl; rewrite Hat; reflexivity).
    eapply holds_inv_request.
    + eapply (holds_inv_set_proc p (PShip sh)); eauto.
      * eapply holds_inv_same_core; [|exact Hs]. split; [|split]; reflexivity.
      * reflexivity.
      * intros sh' [= <-]. simpl. repeat split; discriminate.
    + exact Hu.
    + eapply procs_set_proc_same. exact Hp.
    + reflexivity.
  - (* the berth is granted *)
    destruct (Hev r q eq_refl) as (Hu & Hw & Hin).
    simpl in Hw. rewrite Hat in Hw. injection Hw as <-.
    destruct (is_oil (cargo_type sh)) eqn:Hoil; intros [= <-].
    + eapply holds_inv_ship_storage_loop; eauto.
      apply is_oil_true in Hoil. simpl. congruence.
    + apply is_oil_false in Hoil. eapply holds_inv_request.
      * eapply (holds_inv_set_proc p (PShip sh)); eauto; [reflexivity|].
        intros sh' [= <-]. simpl. repeat split; auto. discriminate.
      * exact Hu.
      * eapply procs_set_proc_same. exact Hp.
      * reflexivity.
  - (* the crane is granted *)
    destruct (Hev r q eq_refl) as (Hu & Hw & Hin).
    simpl in Hw. rewrite Hat in Hw. injection Hw as <-.
    intros [= <-]. eapply holds_inv_ship_storage_loop; eauto.
    eapply (hold_berth s Hs); [exact Hp|]. rewrite Hat. reflexivity.
  - (* the storage loop *)
    intros [= <-].
    assert (Hu : unref p s)
      by (eapply unref_idle; eauto; simpl; rewrite Hat; reflexivity).
    eapply holds_inv_ship_storage_loop; eauto.
    + eapply (hold_berth s Hs); [exact Hp|]. rewrite Hat. reflexivity.
    + intros Hdry. eapply (hold_crane s Hs); [exact Hp| |exact Hdry].
      rewrite Hat. reflexivity.
  - (* the end of unloading *)
    assert (Hu : unref p s)
      by (eapply unref_idle; eauto; simpl; rewrite Hat; reflexivity).
    destruct (container_put _ _ _ _) as [s1|e] eqn:E; intros [= <-].
    + eapply holds_inv_same_core; [eapply same_core_container_put, E|].
      eapply (holds_inv_set_proc p (PShip sh)); eauto; [reflexivity|].
      intros sh' [= <-]. simpl. repeat split; try discriminate.
      * intros _. eapply (hold_berth s Hs); [exact Hp|]. rewrite Hat. reflexivity.
      * intros _ Hdry. eapply (hold_crane s Hs); [exact Hp| |exact Hdry].
        rewrite Hat. reflexivity.
    + eapply holds_inv_ship_fail; eauto.
  - (* departure *)
    intros [= <-].
    assert (Hu : unref p s)
      by (eapply unref_idle; eauto; simpl; rewrite Hat; reflexivity).
    eapply holds_inv_ship_depart; eauto.
Qed.


(** *** The rail process and the generator *)

Lemma holds_inv_set_rail p pc pc' s :
  holds_inv s -> unref p s -> procs s !! p = Some (PRail pc) ->
  holds_inv (set_proc p (PRail pc') s).
Proof.
  intros Hs Hu Hp. eapply holds_inv_set_proc; eauto; [exact I|].
  intros sh [=].
Qed.

Lemma holds_inv_rail_fail p pc e s :
  holds_inv s -> unref p s -> procs s !! p = Some (PRail pc) ->
  holds_inv (rail_fail p e s).
Proof.
  intros Hs Hu Hp. unfold rail_fail.
  eapply holds_inv_same_core; [apply same_core_schedule; exact I|].
  eapply holds_inv_set_rail; eauto.
Qed.

Lemma holds_inv_rail_wait_interval p pc s :
  holds_inv s -> unref p s -> procs s !! p = Some (PRail pc) ->
  holds_inv (rail_wait_interval p s).
Proof.
  intros Hs Hu Hp. unfold rail_wait_interval.
  repeat case_match; try (eapply holds_inv_rail_fail; eassumption).
  eapply holds_inv_same_core; [apply same_core_schedule; exact I|].
  eapply holds_inv_set_rail; eauto.
Qed.

Lemma holds_inv_rail_load p pc s :
  holds_inv s -> unref p s -> procs s !! p = Some (PRail pc) ->
  holds_inv (rail_load p s).
Proof.
  intros Hs Hu Hp. unfold rail_load.
  eapply holds_inv_same_core; [apply same_core_schedule; exact I|].
  eapply holds_inv_set_rail; eauto.
Qed.

Lemma holds_inv_exit_rail p pc s :
  holds_inv s -> unref p s -> procs s !! p = Some (PRail pc) ->
  holds_inv (exit_request Railway p s)
  /\ unref p (exit_request Railway p s)
  /\ procs (exit_request Railway p s) !! p = Some (PRail pc).
Proof.
  intros Hs Hu Hp. split; [|split].
  - apply holds_inv_exit_request; auto. intros sh. rewrite Hp. discriminate.
  - apply unref_exit_request, Hu.
  - exact Hp.
Qed.

Lemma holds_inv_rail_get c p amount next pc s :
  holds_inv s -> unref p s -> procs s !! p = Some (PRail pc) ->
  holds_inv (rail_get c p amount next s).
Proof.
  intros Hs Hu Hp. unfold rail_get.
  destruct (container_get _ _ _ _) as [s1|e] eqn:E.
  - eapply holds_inv_same_core; [eapply same_core_container_get, E|].
    eapply holds_inv_set_rail; eauto.
  - destruct (holds_inv_exit_rail p pc s Hs Hu Hp) as (H1 & U1 & P1).
    eapply holds_inv_rail_fail; eauto.
Qed.

Lemma holds_inv_rail_drain_oil p amount pc s :
  holds_inv s -> unref p s -> procs s !! p = Some (PRail pc) ->
  holds_inv (rail_drain_oil p amount s).
Proof.
  intros. unfold rail_drain_oil.
  case_match; eauto using holds_inv_rail_get, holds_inv_rail_load.
Qed.

Lemma holds_inv_rail_drain_general p amount pc s :
  holds_inv s -> unref p s -> procs s !! p = Some (PRail pc) ->
  holds_inv (rail_drain_general p amount s).
Proof.
  intros. unfold rail_drain_general.
  case_match; eauto using holds_inv_rail_get, holds_inv_rail_drain_oil.
Qed.

Lemma holds_inv_rail_drain_grain p amount pc s :
  holds_inv s -> unref p s -> procs s !! p = Some (PRail pc) ->
  holds_inv (rail_drain_grain p amount s).
Proof.
  intros. unfold rail_drain_grain.
  case_match; eauto using holds_inv_rail_get, holds_inv_rail_drain_general.
Qed.

Lemma holds_inv_rail_fire p pc s :
  holds_inv s -> unref p s -> procs s !! p = Some (PRail pc) ->
  holds_inv (rail_fire p s).
Proof.
  intros. unfold rail_fire.
  repeat case_match;
    eauto using holds_inv_rail_get, holds_inv_rail_drain_grain,
      holds_inv_rail_load.
Qed.

Lemma holds_inv_rail_resume p pc ev s s' :
  holds_inv s -> procs s !! p = Some (PRail pc) ->
  (forall r q, ev = Request r q -> unref p s) ->
  rail_resume p pc ev s = Some s' ->
  holds_inv s'.
Proof.
  intros Hs Hp Hev. unfold rail_resume.
  assert (Hidle : waits_for (PRail pc) = None -> unref p s)
    by (intros; eapply unref_idle; eauto).
  destruct pc; destruct ev as [q|q|r q|r|c0 q|c0 q|q|q e|];
    try discriminate; intros [= <-];
    try (specialize (Hidle eq_refl));
    eauto using holds_inv_rail_wait_interval, holds_inv_rail_load,
      holds_inv_rail_fire, holds_inv_rail_drain_general,
      holds_inv_rail_drain_oil.
  - eapply holds_inv_request.
    + eapply holds_inv_set_rail; eauto.
    + exact Hidle.
    + eapply procs_set_proc_same, Hp.
    + reflexivity.
  - destruct (holds_inv_exit_rail p _ s Hs Hidle Hp) as (H1 & U1 & P1).
    eapply holds_inv_rail_wait_interval; eauto.
Qed.

Lemma holds_inv_set_gen p n inter pc n' inter' pc' s :
  holds_inv s -> unref p s -> procs s !! p = Some (PGen n inter pc) ->
  holds_inv (set_proc p (PGen n' inter' pc') s).
Proof.
  intros Hs Hu Hp. eapply holds_inv_set_proc; eauto; [exact I|].
  intros sh [=].
Qed.

Lemma holds_inv_gen_fail p n inter pc n' inter' e s :
  holds_inv s -> unref p s -> procs s !! p = Some (PGen n inter pc) ->
  holds_inv (gen_fail p n' inter' e s).
Proof.
  intros Hs Hu Hp. unfold gen_fail.
  eapply holds_inv_same_core; [apply same_core_schedule; exact I|].
  eapply holds_inv_set_gen; eauto.
Qed.

Lemma unref_spawn p x s : unref p s -> unref p (spawn x s).
Proof.
  intros Hu. unfold spawn. apply unref_schedule; [exact I|exact Hu].
Qed.

Lemma holds_inv_gen_loop p n inter pc n' inter' s :
  holds_inv s -> unref p s -> procs s !! p = Some (PGen n inter pc) ->
  holds_inv (gen_loop p n' inter' s).
Proof.
  intros Hs Hu Hp. unfold gen_loop.
  destruct (np_random_choice _ _ _) as [[cargo_type g1]|e];
    [|eapply holds_inv_gen_fail; eauto].
  destruct (match cargo_type with
            | Grain => draw_uniform R 3000 8000 g1
            | Oil => draw_uniform R 5000 15000 g1
            | General => draw_uniform R 1000 5000 g1
            end) as [cargo_amount g2].
  match goal with
  | |- context [spawn ?x ?s0] =>
      assert (H1 : holds_inv (spawn x s0));
      [ apply holds_inv_spawn;
        [ eapply holds_inv_same_core; [|exact Hs]; split; [|split]; reflexivity
        | intros sh [= <-]; reflexivity ]
      | assert (U1 : unref p (spawn x s0)) by (apply unref_spawn; exact Hu);
        assert (P1 : procs (spawn x s0) !! p = Some (PGen n inter pc))
          by (apply lookup_app_l_Some, Hp);
        generalize dependent (spawn x s0); intros s1 H1 U1 P1 ]
  end.
  destruct (np_random_exponential _ _ _) as [[delay g3]|e];
    [|eapply holds_inv_gen_fail; eauto].
  assert (H3 : holds_inv (set_random g3 s1))
    by (eapply holds_inv_same_core; [|exact H1]; split; [|split]; reflexivity).
  destruct (Qltb delay 0).
  - eapply holds_inv_gen_fail; [exact H3|exact U1|exact P1].
  - eapply holds_inv_same_core; [apply same_core_schedule; exact I|].
    eapply holds_inv_set_gen; [exact H3|exact U1|exact P1].
Qed.

Lemma holds_inv_gen_resume p n inter pc ev s s' :
  holds_inv s -> procs s !! p = Some (PGen n inter pc) ->
  gen_resume p n inter pc ev s = Some s' ->
  holds_inv s'.
Proof.
  intros Hs Hp. unfold gen_resume.
  assert (Hu : unref p s) by (eapply unref_idle; eauto).
  destruct pc; destruct ev as [q|q|r q|r|c q|c q|q|q e|];
    try discriminate; repeat case_match; intros [= <-];
    eauto using holds_inv_gen_fail, holds_inv_gen_loop.
Qed.


(** *** The event loop *)

Lemma holds_inv_resume p ev s s' :
  holds_inv s ->
  (forall r q, ev = Request r q ->
     unref p s
     /\ exists pr, procs s !! p = Some pr /\ waits_for pr = Some r
                   /\ p ∈ users (get_res r (port s))) ->
  resume p ev s = Some s' ->
  holds_inv s'.
Proof.
  intros Hs Hev. unfold resume.
  destruct (procs s !! p) as [[n inter pc|pc|sh]|] eqn:Hp; [| | |discriminate].
  - apply holds_inv_gen_resume; assumption.
  - apply holds_inv_rail_resume; [assumption..|].
    intros r q E. apply (Hev r q E).
  - apply holds_inv_ship_resume; [assumption..|].
    intros r q E. destruct (Hev r q E) as (Hu & pr & [= <-] & Hw & Hin). auto.
Qed.

Lemma holds_inv_step s :
  holds_inv s ->
  match step s with
  | Continue s' | Stop s' => holds_inv s'
  | _ => True
  end.
Proof.
  intros Hs. unfold step.
  destruct (events s) as [|x rest] eqn:He; [exact I|].
  destruct (holds_inv_pop x rest s (e_time x) He Hs) as [H0 Hreq].
  set (s0 := set_events rest (set_now (e_time x) s)) in *. clearbody s0.
  assert (Hres : forall p ev s1 o,
             holds_inv s1 ->
             (forall r q, ev = Request r q ->
                unref p s1
                /\ exists pr, procs s1 !! p = Some pr /\ waits_for pr = Some r
                              /\ p ∈ users (get_res r (port s1))) ->
             resumed (resume p ev s1) = o ->
             match o with
             | Continue s' | Stop s' => holds_inv s'
             | _ => True
             end).
  { intros p ev s1 o H1 Hev <-. unfold resumed.
    destruct (resume p ev s1) eqn:E; [|exact I].
    eapply holds_inv_resume; eassumption. }
  destruct (e_event x) as [p|p|r p|r|c p|c p|p|p e|] eqn:Ex;
    try exact I; try exact H0.
  - eapply Hres; [exact H0| |reflexivity]. intros ? ? [=].
  - eapply Hres; [exact H0| |reflexivity]. intros ? ? [=].
  - eapply Hres; [exact H0| |reflexivity].
    intros r' q [= <- <-]. apply (Hreq r p eq_refl).
  - apply holds_inv_resource_trigger_put, H0.
  - eapply Hres; [| |reflexivity]; [|intros ? ? [=]].
    eapply holds_inv_same_core; [apply same_core_container_trigger_get|exact H0].
  - eapply Hres; [| |reflexivity]; [|intros ? ? [=]].
    eapply holds_inv_same_core; [apply same_core_container_trigger_put|exact H0].
Qed.

Lemma Resource_init_idle cap res :
  Resource_init cap = Ok res -> users res = [] /\ queue res = [].
Proof.
  unfold Resource_init. case_match; [discriminate|]. intros [= <-]. auto.
Qed.

Lemma Port_init_idle config pt :
  Port_init config = Ok pt ->
  forall r, users (get_res r pt) = [] /\ queue (get_res r pt) = [].
Proof.
  unfold Port_init, bind. intros H.
  repeat case_match; try discriminate. injection H as <-.
  repeat match goal with
  | E : Resource_init _ = Ok _ |- _ => apply Resource_init_idle in E
  end.
  intros []; simpl; assumption.
Qed.

Lemma holds_inv_prepare config simulation_hours g s :
  prepare config simulation_hours g = Ok s -> holds_inv s.
Proof.
  unfold prepare, start, bind, run_until. intros H.
  destruct (Port_init config) as [pt|] eqn:E; [|discriminate].
  pose proof (Port_init_idle _ _ E) as Hidle.
  case_match; try discriminate. injection H as <-.
  eapply holds_inv_same_core; [apply same_core_schedule; exact I|].
  apply holds_inv_spawn; [|intros sh [=]].
  apply holds_inv_spawn; [|intros sh [=]].
  split; cbn [procs port events].
  - intros p sh. rewrite lookup_nil. discriminate.
  - intros p sh. rewrite lookup_nil. discriminate.
  - intros p sh. rewrite lookup_nil. discriminate.
  - intros p. change (port_cranes pt) with (get_res CranesRes pt).
    rewrite (proj1 (Hidle CranesRes)). intros Hin. inversion Hin.
  - intros r p Hin. inversion Hin.
  - constructor.
  - intros r p. rewrite (proj2 (Hidle r)). intros Hin. inversion Hin.
  - intros r. rewrite (proj2 (Hidle r)). constructor.
Qed.

Lemma holds_inv_reachable config simulation_hours g s :
  reachable config simulation_hours g s -> holds_inv s.
Proof.
  induction 1 as [s H|s s' _ IH H|s s' _ IH H].
  - eapply holds_inv_prepare, H.
  - apply holds_inv_step in IH. rewrite H in IH. exact IH.
  - apply holds_inv_step in IH. rewrite H in IH. exact IH.
Qed.

End Holding.

(** C3, as the code has it. In every reachable state, a ship between the
    grant of its berth and its departure (queued for a crane, waiting for
    storage headroom, unloading, placing its cargo) is among the users of
    its berth, also in the instant between the grant and its resumption.
    A ship with dry cargo is among the users of the cranes while it waits
    for storage headroom, while it unloads and while it places its cargo:
    the crane is held from its grant until departure. A ship with oil is
    never among the users of the cranes. *)
Theorem berth_and_crane_held_until_departure {R : RandomSource}
    (config : Config) (simulation_hours : Q) (g : rng R) (s : Sim R) :
  reachable config simulation_hours g s ->
  forall (p : pid) (sh : Ship),
    procs s !! p = Some (PShip sh) ->
    let berth := get_berth (cargo_type sh) in
    ((berth, p) ∈ granted (events s) -> p ∈ users (get_res berth (port s)))
    /\ (berthed (ship_at sh) = true -> p ∈ users (get_res berth (port s)))
    /\ (cargo_type sh <> Oil ->
        ((CranesRes, p) ∈ granted (events s) -> p ∈ users (port_cranes (port s)))
        /\ (ship_at sh = AwaitSpace \/ ship_at sh = Unloading
            \/ ship_at sh = AwaitPut ->
            p ∈ users (port_cranes (port s))))
    /\ (cargo_type sh = Oil -> p ∉ users (port_cranes (port s))).
Proof.
  intros Hs p sh Hp berth. apply holds_inv_reachable in Hs.
  split; [|split; [|split]].
  - intros Hin. destruct (granted_ok s Hs _ _ Hin) as (_ & _ & _ & H). exact H.
  - intros Hb. eapply (hold_berth s Hs); eassumption.
  - intros Hdry. split.
    + intros Hin. destruct (granted_ok s Hs _ _ Hin) as (_ & _ & _ & H). exact H.
    + intros Hat. eapply (hold_crane s Hs); [exact Hp| |exact Hdry].
      destruct Hat as [-> |[-> | ->]]; reflexivity.
  - intros Hoil Hin. destruct (crane_users_dry s Hs p Hin) as (sh' & Hp' & Hdry).
    rewrite Hp in Hp'. injection Hp' as <-. contradiction.
Qed.

Lemma berth_and_crane_held_until_departure_witness :
  exists (s0 : Sim turn_source) (sh : Ship),
    prepare config_small_grain 100 (0%nat : rng turn_source) = Ok s0
    /\ procs (advance 9 s0) !! 2%nat = Some (PShip sh)
    /\ ship_at sh = AwaitSpace /\ cargo_type sh = Grain
    /\ 2%nat ∈ users (port_dry_berths (port (advance 9 s0)))
    /\ 2%nat ∈ users (port_cranes (port (advance 9 s0))).
Proof.
  eexists. eexists. split; [reflexivity|].
  split; [vm_compute; reflexivity|].
  split; [reflexivity|]. split; [reflexivity|].
  match goal with
  | |- context [advance 9 ?s0] =>
      assert (Hr : reachable config_small_grain 100 (0%nat : rng turn_source)
                     (advance 9 s0))
        by (apply reachable_advance, reach_prepare; reflexivity);
      assert (Hp : procs (advance 9 s0) !! 2%nat
                   = Some (PShip {| ship_id := 0; cargo_type := Grain;
                                    cargo_amount := 3000; arrival_time := 0 + 0;
                                    berth_wait_time := 0 + 0 - (0 + 0);
                                    ship_at := AwaitSpace |}))
        by (vm_compute; reflexivity)
  end.
  destruct (berth_and_crane_held_until_departure
              config_small_grain 100 (0%nat : rng turn_source) _ Hr _ _ Hp)
    as (_ & Hb & Hc & _).
  split.
  - apply Hb. reflexivity.
  - apply Hc; [discriminate|]. left. reflexivity.
Defined.

(** C3 as worded fails: with a grain terminal too small for the first grain
    ship, the ship polls for headroom while it is among the users of the
    cranes. *)
Lemma crane_held_while_waiting_for_storage :
  exists s0 : Sim turn_source,
    prepare config_small_grain 100 (0%nat : rng turn_source) = Ok s0
    /\ reachable config_small_grain 100 (0%nat : rng turn_source) (advance 9 s0)
    /\ ~ no_crane_while_waiting_or_storing (advance 9 s0).
Proof.
  eexists. split; [reflexivity|]. split.
  - apply reachable_advance, reach_prepare. reflexivity.
  - intros H.
    apply (H 2%nat {| ship_id := 0; cargo_type := Grain;
                      cargo_amount := 3000; arrival_time := 0 + 0;
                      berth_wait_time := 0 + 0 - (0 + 0);
                      ship_at := AwaitSpace |}).
    + vm_compute. reflexivity.
    + left. reflexivity.
    + vm_compute. apply list_elem_of_here.
Qed.

(** ** Determinism *)


(** Without the seed the second run starts from the generator state the
    first one left, and the logs differ. *)
Lemma second_run_without_seed_differs :
  exists s1 s2 : Sim turn_source,
    run_simulation sample_config 120 400 (0%nat : rng turn_source) = Finished s1
    /\ run_simulation sample_config 120 400 (random s1) = Finished s2
    /\ cargo_processed (metrics s1) <> cargo_processed (metrics s2).
Proof.
  eexists. eexists. split; [vm_compute; reflexivity|].
  split; [vm_compute; reflexivity|].
  vm_compute. discriminate.
Qed.

(** * The capacity analysis on any log *)

(** ** Sums and means *)


Lemma fold_left_Qplus (l : list Q) (a : Q) :
  fold_left Qplus l a == a + py_sum l.
Proof.
  unfold py_sum. revert a. induction l as [|x l IH]; intros a; simpl; [lra|].
  rewrite (IH (a + x)), (IH (0 + x)). lra.
Qed.

Lemma py_sum_cons (x : Q) (l : list Q) : py_sum (x :: l) == x + py_sum l.
Proof. unfold py_sum at 1. simpl. rewrite fold_left_Qplus. lra. Qed.

Lemma py_sum_bounds (lo hi : Q) (l : list Q) :
  Forall (fun x => lo <= x <= hi) l ->
  lo * inject_Z (Z.of_nat (length l)) <= py_sum l
  /\ py_sum l <= hi * inject_Z (Z.of_nat (length l)).
Proof.
  induction 1 as [|x l [Hlo Hhi] _ IH].
  - change (py_sum []) with 0. change (inject_Z (Z.of_nat (length (@nil Q)))) with 0. split; lra.
  - rewrite py_sum_cons.
    change (length (x :: l)) with (S (length l)).
    rewrite Nat2Z.inj_succ. unfold Z.succ. rewrite inject_Z_plus.
    destruct IH. change (inject_Z 1) with 1. split; lra.
Qed.

(** The mean of a non-empty list lies between any bounds of its items. *)
Lemma np_mean_bounds (lo hi : Q) (l : list Q) :
  l <> [] -> Forall (fun x => lo <= x <= hi) l ->
  lo <= np_mean l <= hi.
Proof.
  intros Hne Hl. destruct (py_sum_bounds lo hi l Hl) as [H1 H2].
  unfold np_mean.
  assert (Hlen : 0 < inject_Z (Z.of_nat (length l))).
  { destruct l; [contradiction|]. simpl length.
    change 0 with (inject_Z 0). rewrite <- Zlt_Qlt. lia. }
  split.
  - apply Qle_shift_div_l; [exact Hlen|exact H1].
  - apply Qle_shift_div_r; [exact Hlen|exact H2].
Qed.

Lemma mean_or_zero_bounds (lo hi : Q) (l : list Q) :
  lo <= 0 -> 0 <= hi -> Forall (fun x => lo <= x <= hi) l ->
  lo <= mean_or_zero l <= hi.
Proof.
  intros H0 H1 Hl. destruct l as [|x l]; [simpl; lra|].
  apply (np_mean_bounds lo hi (x :: l)); [discriminate|exact Hl].
Qed.
(** ** The fields of the report, in terms of one another *)

Lemma capacity_report_fields (m : PortMetrics) (config : Config)
    (simulation_hours : Q) (rep : CapacityReport) :
  calculate_capacity_metrics m config simulation_hours = Ok rep ->
  ~ simulation_hours == 0
  /\ annual_cargo_tons rep = py_sum (cargo_processed m) * (8760 / simulation_hours)
  /\ r_ships_processed rep = ships_processed m
  /\ avg_wait_time_hours rep = mean_or_zero (ship_waiting_times m)
  /\ avg_processing_time_hours rep = mean_or_zero (ship_processing_times m)
  /\ berth_utilization_pct rep
     = (if (0 <? oil_berths config + dry_berths config)%Z
        then mean_or_zero (map u_usage (berth_usage m))
             / inject_Z (oil_berths config + dry_berths config) * 100
        else 0)
  /\ crane_utilization_pct rep
     = (if (0 <? cranes config)%Z
        then mean_or_zero (map u_usage (crane_usage m))
             / inject_Z (cranes config) * 100
        else 0)
  /\ storage_utilization_pct rep = mean_or_zero (map u_usage (storage_usage m))
  /\ avg_queue_length rep
     = mean_or_zero
         (map (fun n => inject_Z (Z.of_nat n)) (map q_queue (ships_in_queue m)))
  /\ max_queue_length rep
     = fold_right Nat.max 0%nat (map q_queue (ships_in_queue m))
  /\ capacity_utilization_pct rep
     = (if Qgtb (theoretical_max_capacity_tons rep) 0
        then annual_cargo_tons rep / theoretical_max_capacity_tons rep * 100
        else 0)
  /\ reserve_capacity_tons rep
     = py_max2 0 (theoretical_max_capacity_tons rep - annual_cargo_tons rep)
  /\ critical_issues rep
     = (if (5 <? max_queue_length rep)%nat
        then [CriticalQueue (max_queue_length rep)] else [])
       ++ (if Qgtb (avg_wait_time_hours rep) 72
           then [CriticalWait (avg_wait_time_hours rep)] else [])
       ++ (if Qgtb (storage_utilization_pct rep) 95
           then [CriticalStorage (storage_utilization_pct rep)] else [])
  /\ (system_status rep, status_color rep)
     = classify_status (capacity_utilization_pct rep).
Proof.
  intros H. unfold calculate_capacity_metrics, py_div in H.
  destruct (Qeq_bool simulation_hours 0) eqn:E; [discriminate|].
  apply Qeq_bool_neq in E.
  unfold bind in H. cbv zeta in H.
  destruct (classify_status _) as [st col] eqn:Ec.
  injection H as <-.
  cbn [annual_cargo_tons r_ships_processed avg_wait_time_hours
       avg_processing_time_hours berth_utilization_pct crane_utilization_pct
       storage_utilization_pct avg_queue_length max_queue_length
       theoretical_max_capacity_tons capacity_utilization_pct
       reserve_capacity_tons critical_issues system_status status_color].
  repeat split; try reflexivity; try exact E. symmetry. exact Ec.
Qed.

(** ** The analysis fails only on an empty horizon *)

(** [calculate_capacity_metrics] raises exactly when [simulation_hours] is
    zero, and then [ZeroDivisionError] (line 264); in every other case it
    returns a report, whatever the log and the configuration are: empty
    lists, no berths, no capacity. *)
Theorem capacity_metrics_fails_only_on_zero_hours (m : PortMetrics)
    (config : Config) (simulation_hours : Q) :
  (simulation_hours == 0
   /\ calculate_capacity_metrics m config simulation_hours
      = Raise ZeroDivisionError)
  \/ (~ simulation_hours == 0
      /\ exists rep : CapacityReport,
           calculate_capacity_metrics m config simulation_hours = Ok rep).
Proof.
  unfold calculate_capacity_metrics, py_div.
  destruct (Qeq_bool simulation_hours 0) eqn:E.
  - left. split; [apply Qeq_bool_eq, E | reflexivity].
  - right. split; [apply Qeq_bool_neq, E|].
    unfold bind. cbv zeta. destruct (classify_status _) as [st col].
    eexists. reflexivity.
Qed.

(** ** Reserve and utilization *)

Lemma pct_lt_100 (a c : Q) : 0 < c -> (a / c * 100 < 100 <-> a < c).
Proof.
  intros Hc. assert (E : a == a / c * c) by (field; lra).
  rewrite E at 2. set (x := a / c).
  split; intros H.
  - assert (H1 : x < 1) by lra. apply (Qmult_lt_r x 1 c Hc) in H1. lra.
  - assert (H1 : x * c < 1 * c) by lra. apply (Qmult_lt_r x 1 c Hc) in H1. lra.
Qed.


(** The reserve is never negative: it is the theoretical maximum less the
    annual cargo, or zero when the cargo exceeds the maximum.  With a
    positive maximum the utilization is the annual cargo as a percentage
    of it, and the reserve is positive exactly when the utilization is
    below 100; with a maximum that is not positive the utilization is
    reported as 0. *)
Theorem reserve_positive_iff_utilization_below_100 (m : PortMetrics)
    (config : Config) (simulation_hours : Q) (rep : CapacityReport) :
  calculate_capacity_metrics m config simulation_hours = Ok rep ->
  let cap := theoretical_max_capacity_tons rep in
  let annual := annual_cargo_tons rep in
  reserve_capacity_tons rep == Qmax 0 (cap - annual)
  /\ 0 <= reserve_capacity_tons rep
  /\ (0 < cap ->
      capacity_utilization_pct rep == annual / cap * 100
      /\ (0 < reserve_capacity_tons rep <-> capacity_utilization_pct rep < 100))
  /\ (cap <= 0 -> capacity_utilization_pct rep == 0).
Proof.
  intros H cap annual.
  destruct (capacity_report_fields _ _ _ _ H)
    as (_ & _ & _ & _ & _ & _ & _ & _ & _ & _ & Hu & Hr & _).
  fold cap annual in Hu, Hr. rewrite Hu, Hr. clear Hu Hr H.
  unfold py_max2.
  destruct (Qgtb (cap - annual) 0) eqn:T; destruct (Qgtb cap 0) eqn:Tc;
    q_tests;
    (split; [destruct (Q.max_spec 0 (cap - annual)) as [[? ->]|[? ->]]; lra|]);
    (split; [lra|]); (split; [|intros; lra]); intros Hc; try lra;
    (split; [reflexivity|]).
  - rewrite pct_lt_100 by exact Hc. split; intros; lra.
  - rewrite pct_lt_100 by exact Hc. split; intros; lra.
Qed.

Lemma reserve_positive_iff_utilization_below_100_witness :
  exists rep : CapacityReport,
    calculate_capacity_metrics sample_metrics sample_config 8760 = Ok rep
    /\ reserve_capacity_tons rep
       == Qmax 0 (theoretical_max_capacity_tons rep - annual_cargo_tons rep)
    /\ 0 <= reserve_capacity_tons rep
    /\ (0 < theoretical_max_capacity_tons rep ->
        capacity_utilization_pct rep
        == annual_cargo_tons rep / theoretical_max_capacity_tons rep * 100
        /\ (0 < reserve_capacity_tons rep
            <-> capacity_utilization_pct rep < 100))
    /\ (theoretical_max_capacity_tons rep <= 0 ->
        capacity_utilization_pct rep == 0).
Proof.
  eexists. split; [reflexivity|].
  apply (reserve_positive_iff_utilization_below_100
           sample_metrics sample_config 8760).
  reflexivity.
Defined.

(** ** Queue statistics *)

Lemma fold_right_max_ge (l : list nat) :
  Forall (fun n => (n <= fold_right Nat.max 0 l)%nat) l.
Proof.
  induction l as [|x l IH]; simpl; constructor; [lia|].
  eapply Forall_impl; [exact IH|]. simpl. intros; lia.
Qed.

Lemma fold_right_max_in (l : list nat) :
  l <> [] -> In (fold_right Nat.max 0%nat l) l.
Proof.
  induction l as [|x l IH]; [contradiction|]. intros _. simpl.
  destruct l as [|y l]; [left; simpl; lia|].
  destruct (Nat.max_spec x (fold_right Nat.max 0%nat (y :: l)))
    as [[_ ->]|[_ ->]]; [right; apply IH; discriminate | left; reflexivity].
Qed.

(** The reported longest queue is the greatest queue length among the
    arrival samples (so every sample is at most that long, and one sample
    is exactly that long), the reported mean queue lies between 0 and the
    longest queue, and with no sample both are 0. *)
Theorem queue_length_mean_and_maximum (m : PortMetrics) (config : Config)
    (simulation_hours : Q) (rep : CapacityReport) :
  calculate_capacity_metrics m config simulation_hours = Ok rep ->
  Forall (fun x => (q_queue x <= max_queue_length rep)%nat) (ships_in_queue m)
  /\ (ships_in_queue m <> [] ->
      exists x, In x (ships_in_queue m) /\ q_queue x = max_queue_length rep)
  /\ (ships_in_queue m = [] ->
      max_queue_length rep = 0%nat /\ avg_queue_length rep = 0)
  /\ 0 <= avg_queue_length rep <= inject_Z (Z.of_nat (max_queue_length rep)).
Proof.
  intros H.
  destruct (capacity_report_fields _ _ _ _ H)
    as (_ & _ & _ & _ & _ & _ & _ & _ & Ha & Hm & _).
  rewrite Ha, Hm. clear Ha Hm H.
  set (l := map q_queue (ships_in_queue m)).
  split; [|split; [|split]].
  - pose proof (fold_right_max_ge l) as Hl. unfold l in Hl.
    rewrite Forall_map in Hl. exact Hl.
  - intros Hne.
    assert (Hl : l <> []) by (unfold l; destruct (ships_in_queue m); [contradiction|discriminate]).
    apply fold_right_max_in in Hl. unfold l in Hl at 2.
    apply in_map_iff in Hl. destruct Hl as (x & Hx & Hin). exists x. auto.
  - intros E. unfold l. rewrite E. split; reflexivity.
  - apply mean_or_zero_bounds.
    + lra.
    + change 0 with (inject_Z 0). rewrite <- Zle_Qle. lia.
    + rewrite Forall_map. eapply Forall_impl; [apply fold_right_max_ge|].
      simpl. intros n Hn. split.
      * change 0 with (inject_Z 0). rewrite <- Zle_Qle. lia.
      * rewrite <- Zle_Qle. lia.
Qed.

Lemma queue_length_mean_and_maximum_witness :
  exists rep : CapacityReport,
    calculate_capacity_metrics sample_metrics sample_config 8760 = Ok rep
    /\ max_queue_length rep = 1%nat
    /\ Forall (fun x => (q_queue x <= max_queue_length rep)%nat)
         (ships_in_queue sample_metrics)
    /\ (ships_in_queue sample_metrics <> [] ->
        exists x, In x (ships_in_queue sample_metrics)
                  /\ q_queue x = max_queue_length rep)
    /\ (ships_in_queue sample_metrics = [] ->
        max_queue_length rep = 0%nat /\ avg_queue_length rep = 0)
    /\ 0 <= avg_queue_length rep <= inject_Z (Z.of_nat (max_queue_length rep)).
Proof.
  eexists. split; [reflexivity|]. split; [reflexivity|].
  apply (queue_length_mean_and_maximum sample_metrics sample_config 8760).
  reflexivity.
Defined.

(** ** The report of an empty log *)

Lemma capacity_report_capacities (m : PortMetrics) (config : Config)
    (simulation_hours : Q) (rep : CapacityReport) :
  calculate_capacity_metrics m config simulation_hours = Ok rep ->
  capacities rep
  = [(Berths,
      inject_Z (oil_berths config + dry_berths config) * 8760
      / (if Qgtb (avg_processing_time_hours rep) 0
         then avg_processing_time_hours rep else 24)
      * (if (0 <? r_ships_processed rep)%nat
         then py_sum (cargo_processed m)
              / inject_Z (Z.of_nat (r_ships_processed rep))
         else 5000));
     (Cranes, inject_Z (cranes config) * general_speed config * 8760 * (7 # 10));
     (Storage,
      (grain_storage_capacity config + general_storage_capacity config
       + oil_storage_capacity config) * 24);
     (Rail, inject_Z (trains_per_day config) * train_capacity config * 365)].
Proof.
  intros H. unfold calculate_capacity_metrics, py_div in H.
  destruct (Qeq_bool simulation_hours 0); [discriminate|].
  unfold bind in H. cbv zeta in H.
  destruct (classify_status _) as [st col].
  injection H as <-. reflexivity.
Qed.

(** For a log with no entry at all (a run in which no ship arrived) and a
    horizon other than zero, the analysis returns a report with no cargo,
    zero times, zero utilizations and queue lengths, no critical issue and
    the ample-reserve status; the capacity of the berths is then computed
    from the fallback values of 24 hours and 5000 tons per ship. *)
Theorem empty_log_report (config : Config) (simulation_hours : Q) :
  ~ simulation_hours == 0 ->
  exists rep : CapacityReport,
    calculate_capacity_metrics PortMetrics_init config simulation_hours = Ok rep
    /\ annual_cargo_tons rep == 0 /\ r_ships_processed rep = 0%nat
    /\ avg_wait_time_hours rep = 0 /\ avg_processing_time_hours rep = 0
    /\ berth_utilization_pct rep == 0 /\ crane_utilization_pct rep == 0
    /\ storage_utilization_pct rep = 0
    /\ avg_queue_length rep = 0 /\ max_queue_length rep = 0%nat
    /\ capacity_utilization_pct rep == 0
    /\ critical_issues rep = []
    /\ system_status rep = AmpleReserve /\ status_color rep = Green
    /\ exists b rest,
         capacities rep = (Berths, b) :: rest
         /\ b == inject_Z (oil_berths config + dry_berths config) * 1825000.
Proof.
  intros Hh.
  destruct (capacity_metrics_fails_only_on_zero_hours
              PortMetrics_init config simulation_hours)
    as [[E _]|[_ [rep H]]]; [contradiction|].
  exists rep. split; [exact H|].
  pose proof (capacity_report_capacities _ _ _ _ H) as Hc.
  destruct (capacity_report_fields _ _ _ _ H)
    as (_ & Ha & Hn & Hw & Hp & Hb & Hk & Hs & Hq & Hm & Hu & _ & Hi & Hst).
  cbn [PortMetrics_init cargo_processed ships_processed ship_waiting_times
       ship_processing_times berth_usage crane_usage storage_usage
       ships_in_queue map mean_or_zero fold_right] in *.
  change (py_sum []) with 0 in *.
  assert (Ha0 : annual_cargo_tons rep == 0) by (rewrite Ha; ring).
  assert (Hu0 : capacity_utilization_pct rep == 0).
  { rewrite Hu.
    destruct (Qgtb (theoretical_max_capacity_tons rep) 0); [|reflexivity].
    rewrite Ha0. unfold Qdiv. ring. }
  destruct (classify_status_cases (capacity_utilization_pct rep))
    as (_ & _ & Hgreen).
  rewrite Hgreen in Hst by (rewrite Hu0; lra). injection Hst as Hst Hcol.
  rewrite Hw, Hs, Hm in Hi. rewrite Hp, Hn in Hc.
  assert (Hb0 : berth_utilization_pct rep == 0).
  { rewrite Hb. destruct (0 <? oil_berths config + dry_berths config)%Z;
      [unfold Qdiv; ring | reflexivity]. }
  assert (Hk0 : crane_utilization_pct rep == 0).
  { rewrite Hk. destruct (0 <? cranes config)%Z;
      [unfold Qdiv; ring | reflexivity]. }
  repeat (split; [assumption|]).
  eexists _, _. split; [exact Hc|].
  change (Qgtb 0 0) with false. change (0 <? 0)%nat with false.
  cbv iota. field.
Qed.

Lemma empty_log_report_witness :
  ~ 8760 == 0
  /\ exists rep : CapacityReport,
       calculate_capacity_metrics PortMetrics_init sample_config 8760 = Ok rep
       /\ annual_cargo_tons rep == 0 /\ r_ships_processed rep = 0%nat
       /\ avg_wait_time_hours rep = 0 /\ avg_processing_time_hours rep = 0
       /\ berth_utilization_pct rep == 0 /\ crane_utilization_pct rep == 0
       /\ storage_utilization_pct rep = 0
       /\ avg_queue_length rep = 0 /\ max_queue_length rep = 0%nat
       /\ capacity_utilization_pct rep == 0
       /\ critical_issues rep = []
       /\ system_status rep = AmpleReserve /\ status_color rep = Green
       /\ exists b rest,
            capacities rep = (Berths, b) :: rest
            /\ b == inject_Z (oil_berths sample_config
                              + dry_berths sample_config) * 1825000.
Proof.
  assert (H : ~ 8760 == 0) by discriminate.
  split; [exact H|]. apply (empty_log_report sample_config 8760 H).
Defined.

(** * The operations behind a step *)

Section Trace.

Context {R : RandomSource}.

Implicit Types (s : Sim R) (p : pid) (c : cargo) (sh : Ship).

Lemma prims_trans s1 s2 s3 : prims s1 s2 -> prims s2 s3 -> prims s1 s3.
Proof.
  intros H12 H23. induction H23 as [|s2 s3 s4 _ IH H]; [exact H12|].
  eapply prims_step; [apply IH, H12 | exact H].
Qed.

Lemma prims_one s s' : prim s s' -> prims s s'.
Proof. intros H. eapply prims_step; [apply prims_refl | exact H]. Qed.

(** *** What the operations leave alone *)

Lemma procs_exit_request r p s : procs (exit_request r p s) = procs s.
Proof. reflexivity. Qed.

Lemma now_exit_request r p s : now (exit_request r p s) = now s.
Proof. reflexivity. Qed.

Lemma procs_ship_leave_blocks p sh s : procs (ship_leave_blocks p sh s) = procs s.
Proof. unfold ship_leave_blocks. destruct (is_oil _); reflexivity. Qed.

Lemma now_ship_leave_blocks p sh s : now (ship_leave_blocks p sh s) = now s.
Proof. unfold ship_leave_blocks. destruct (is_oil _); reflexivity. Qed.

Lemma port_set_proc p x s : port (set_proc p x s) = port s.
Proof. reflexivity. Qed.

Lemma port_config_ship_leave_blocks p sh s :
  port_config (port (ship_leave_blocks p sh s)) = port_config (port s).
Proof. unfold ship_leave_blocks. destruct (is_oil _); reflexivity. Qed.

Lemma get_unloading_speed_config c (pt : Port) :
  get_unloading_speed c pt = unloading_speed c (port_config pt).
Proof. destruct c; reflexivity. Qed.

(** *** [ship_process] *)

Lemma ship_local_moves t old sh (pc : ship_pc) :
  ship_local t old sh -> ship_local t old (ship_moves sh pc).
Proof. exact (fun H => H). Qed.

Lemma ship_local_refl t sh :
  ship_at sh <> ShipInit -> ship_at sh <> AwaitBerth -> ship_local t sh sh.
Proof.
  intros H1 H2. unfold ship_local.
  destruct (ship_at sh); try contradiction; auto.
Qed.

Lemma ship_step_moves t config old sh (pc : ship_pc) :
  ship_local t old sh -> ship_at old <> ShipInit -> pc <> ShipInit ->
  proc_step t config (PShip old) (PShip (ship_moves sh pc)).
Proof.
  intros Hl Ho Hpc. split; [exact Hl|]. split; [exact Hpc|].
  intros E. contradiction.
Qed.

Lemma prims_ship_leave_blocks p sh s : prims s (ship_leave_blocks p sh s).
Proof.
  unfold ship_leave_blocks. destruct (is_oil _).
  - apply prims_one, prim_exit_request.
  - eapply prims_step; [apply prims_one|]; apply prim_exit_request.
Qed.

Lemma prims_ship_fail p old sh e s :
  procs s !! p = Some (PShip old) -> ship_local (now s) old sh ->
  ship_at old <> ShipInit ->
  fail_cause R (port_config (port s)) (PShip sh) e ->
  prims s (ship_fail p sh e s).
Proof.
  intros Hp Hl Ho Hc. unfold ship_fail.
  assert (Hp' : procs (ship_leave_blocks p sh s) !! p = Some (PShip old))
    by (rewrite procs_ship_leave_blocks; exact Hp).
  eapply prims_step;
    [|eapply (prim_fail p (PShip (ship_moves sh ShipDone)))].
  - eapply prims_step; [apply prims_ship_leave_blocks|].
    eapply prim_set_proc; [exact Hp'|].
    rewrite now_ship_leave_blocks. apply ship_step_moves; auto; discriminate.
  - eapply procs_set_proc_same, Hp'.
  - rewrite port_set_proc, port_config_ship_leave_blocks. exact Hc.
Qed.

Lemma prims_ship_storage_loop p old sh s :
  procs s !! p = Some (PShip old) -> ship_local (now s) old sh ->
  ship_at old <> ShipInit ->
  prims s (ship_storage_loop p sh s).
Proof.
  intros Hp Hl Ho. unfold ship_storage_loop.
  destruct (Qgtb _ _).
  - eapply prims_step; [|apply prim_timeout; lra].
    apply prims_one. eapply prim_set_proc; [exact Hp|].
    apply ship_step_moves; auto; discriminate.
  - rewrite get_unloading_speed_config.
    destruct (py_div _ _) as [unloading_time|e] eqn:E.
    + destruct (Qltb unloading_time 0) eqn:T; q_tests.
      * eapply prims_ship_fail; try eassumption.
        right. left. exists unloading_time. auto.
      * eapply prims_step; [|apply prim_timeout; exact T].
        apply prims_one. eapply prim_set_proc; [exact Hp|].
        apply ship_step_moves; auto; discriminate.
    + eapply prims_ship_fail; try eassumption. left. exact E.
Qed.

Lemma prims_ship_depart p sh s :
  procs s !! p = Some (PShip sh) -> ship_at sh = AwaitPut ->
  prims s (ship_depart p sh s).
Proof.
  intros Hp Hpc. unfold ship_depart. cbv zeta.
  eapply prims_step; [|apply prim_end].
  assert (Hl : ship_local (now s) sh sh)
    by (apply ship_local_refl; rewrite Hpc; discriminate).
  assert (H2 : prims s
            (set_metrics
               (record_ship_processing (berth_wait_time sh)
                  (now (ship_leave_blocks p sh s) - arrival_time sh)
                  (cargo_amount sh) (metrics (ship_leave_blocks p sh s)))
               (ship_leave_blocks p sh s))).
  { eapply prims_step; [apply prims_ship_leave_blocks|].
    apply (prim_processing p); [|exact Hpc].
    rewrite procs_ship_leave_blocks. exact Hp. }
  destruct (ship_id sh mod 10 =? 0)%nat.
  - eapply prims_step; [eapply prims_step; [exact H2|apply prim_snapshot]|].
    eapply prim_set_proc.
    + cbn [procs set_metrics]. rewrite procs_ship_leave_blocks. exact Hp.
    + cbn [now set_metrics]. rewrite now_ship_leave_blocks.
      apply ship_step_moves; auto; try rewrite Hpc; discriminate.
  - eapply prims_step; [exact H2|].
    eapply prim_set_proc.
    + cbn [procs set_metrics]. rewrite procs_ship_leave_blocks. exact Hp.
    + cbn [now set_metrics]. rewrite now_ship_leave_blocks.
      apply ship_step_moves; auto; try rewrite Hpc; discriminate.
Qed.

Lemma prims_ship_resume p sh ev s s' :
  procs s !! p = Some (PShip sh) ->
  ship_resume p sh ev s = Some s' -> prims s s'.
Proof.
  intros Hp H. unfold ship_resume in H.
  destruct (ship_at sh) eqn:Hpc; destruct ev; try discriminate.
  - (* start *)
    injection H as <-.
    eapply prims_step; [|apply prim_request].
    eapply prims_step; [apply prims_one, (prim_arrival (get_berth (cargo_type sh)))|].
    eapply prim_set_proc; [exact Hp|].
    split; [|split]; [|discriminate|reflexivity].
    unfold ship_local. rewrite Hpc. cbn. auto.
  - (* the berth is granted *)
    assert (Hl : ship_local (now s) sh
              {| ship_id := ship_id sh; cargo_type := cargo_type sh;
                 cargo_amount := cargo_amount sh;
                 arrival_time := arrival_time sh;
                 berth_wait_time := now s - arrival_time sh;
                 ship_at := AwaitBerth |}).
    { unfold ship_local. rewrite Hpc. cbn. auto. }
    assert (Ho : ship_at sh <> ShipInit) by (rewrite Hpc; discriminate).
    destruct (is_oil (cargo_type sh)); injection H as <-.
    + eapply prims_ship_storage_loop; eassumption.
    + eapply prims_step; [|apply prim_request].
      apply prims_one. eapply prim_set_proc; [exact Hp|].
      apply ship_step_moves; auto; discriminate.
  - injection H as <-. eapply prims_ship_storage_loop; [exact Hp| |].
    + apply ship_local_refl; rewrite Hpc; discriminate.
    + rewrite Hpc; discriminate.
  - injection H as <-. eapply prims_ship_storage_loop; [exact Hp| |].
    + apply ship_local_refl; rewrite Hpc; discriminate.
    + rewrite Hpc; discriminate.
  - assert (Hl : ship_local (now s) sh sh)
      by (apply ship_local_refl; rewrite Hpc; discriminate).
    assert (Ho : ship_at sh <> ShipInit) by (rewrite Hpc; discriminate).
    destruct (container_put _ _ _ _) as [s1|e] eqn:E; injection H as <-.
    + eapply prims_step; [|eapply prim_put, E].
      apply prims_one. eapply prim_set_proc; [exact Hp|].
      apply ship_step_moves; auto; discriminate.
    + eapply prims_ship_fail; try eassumption.
      right. right. unfold container_put in E.
      destruct (Qle_bool (cargo_amount sh) 0) eqn:T; [|discriminate].
      q_tests. exact T.
  - injection H as <-. apply prims_ship_depart; assumption.
Qed.

(** *** [railway_unload_process] *)

Lemma py_min2_le_r (a b : Q) : py_min2 a b <= b.
Proof. unfold py_min2. destruct (Qltb b a) eqn:T; q_tests; lra. Qed.

Lemma py_min2_le_l (a b : Q) : py_min2 a b <= a.
Proof. unfold py_min2. destruct (Qltb b a) eqn:T; q_tests; lra. Qed.

Lemma prims_set_rail p (pc pc' : rail_pc) s :
  procs s !! p = Some (PRail pc) -> prims s (set_proc p (PRail pc') s).
Proof. intros Hp. apply prims_one. eapply prim_set_proc; [exact Hp|exact I]. Qed.

Lemma prims_rail_fail p (pc : rail_pc) e s :
  procs s !! p = Some (PRail pc) ->
  fail_cause R (port_config (port s)) (PRail RailFailed) e ->
  prims s (rail_fail p e s).
Proof.
  intros Hp Hc. unfold rail_fail.
  eapply prims_step; [eapply prims_set_rail, Hp|].
  eapply (prim_fail p (PRail RailFailed)); [|exact Hc].
  eapply procs_set_proc_same, Hp.
Qed.

Lemma prims_rail_wait_interval p (pc : rail_pc) s :
  procs s !! p = Some (PRail pc) -> prims s (rail_wait_interval p s).
Proof.
  intros Hp. unfold rail_wait_interval.
  destruct (py_div _ _) as [interval|e] eqn:E;
    [|eapply prims_rail_fail; [exact Hp|left; exact E]].
  destruct (Qltb interval 0) eqn:T; q_tests.
  - eapply prims_rail_fail; [exact Hp|]. right. left. exists interval. auto.
  - eapply prims_step; [eapply prims_set_rail, Hp | apply prim_timeout, T].
Qed.

Lemma prims_rail_load p (pc : rail_pc) s :
  procs s !! p = Some (PRail pc) -> prims s (rail_load p s).
Proof.
  intros Hp. unfold rail_load.
  eapply prims_step; [eapply prims_set_rail, Hp | apply prim_timeout; lra].
Qed.

(** A [get] raises only on an amount that is not positive; the amount is
    the capacity of a train or a positive part of it. *)
Lemma prims_rail_get c p amount next (pc : rail_pc) s :
  procs s !! p = Some (PRail pc) ->
  amount <= level (get_storage c (port s)) ->
  (amount <= 0 -> train_capacity (port_config (port s)) <= 0) ->
  prims s (rail_get c p amount next s).
Proof.
  intros Hp Hle Hcap. unfold rail_get.
  destruct (container_get _ _ _ _) as [s1|e] eqn:E.
  - eapply prims_step; [eapply prims_set_rail, Hp|].
    eapply prim_get; [exact E | exact Hle].
  - eapply prims_trans; [apply prims_one, prim_exit_request|].
    eapply prims_rail_fail; [rewrite procs_exit_request; exact Hp|].
    right. right. apply Hcap.
    unfold container_get in E.
    destruct (Qle_bool amount 0) eqn:T; [|discriminate]. q_tests. exact T.
Qed.

Lemma py_min2_pos (a b : Q) : 0 < a -> 0 < b -> 0 < py_min2 a b.
Proof. intros. unfold py_min2. destruct (Qltb b a); assumption. Qed.

Lemma prims_rail_drain_oil p amount (pc : rail_pc) s :
  procs s !! p = Some (PRail pc) -> prims s (rail_drain_oil p amount s).
Proof.
  intros Hp. unfold rail_drain_oil.
  destruct (Qgtb amount 0) eqn:Ta; [|eapply prims_rail_load, Hp].
  destruct (Qgtb (level (oil_storage (port s))) 0) eqn:Tl;
    [|eapply prims_rail_load, Hp].
  cbn [andb]. q_tests.
  eapply prims_rail_get; [exact Hp|apply py_min2_le_r|].
  intros H. pose proof (py_min2_pos _ _ Ta Tl). lra.
Qed.

Lemma prims_rail_drain_general p amount (pc : rail_pc) s :
  procs s !! p = Some (PRail pc) -> prims s (rail_drain_general p amount s).
Proof.
  intros Hp. unfold rail_drain_general.
  destruct (Qgtb amount 0) eqn:Ta; [|eapply prims_rail_drain_oil, Hp].
  destruct (Qgtb (level (general_storage (port s))) 0) eqn:Tl;
    [|eapply prims_rail_drain_oil, Hp].
  cbn [andb]. q_tests.
  eapply prims_rail_get; [exact Hp|apply py_min2_le_r|].
  intros H. pose proof (py_min2_pos _ _ Ta Tl). lra.
Qed.

Lemma prims_rail_drain_grain p amount (pc : rail_pc) s :
  procs s !! p = Some (PRail pc) -> 0 < amount ->
  prims s (rail_drain_grain p amount s).
Proof.
  intros Hp Ha. unfold rail_drain_grain.
  destruct (Qgtb _ _) eqn:Tl; [|eapply prims_rail_drain_general, Hp].
  q_tests.
  eapply prims_rail_get; [exact Hp|apply py_min2_le_r|].
  intros H. pose proof (py_min2_pos _ _ Ha Tl). lra.
Qed.

Lemma prims_rail_fire p (pc : rail_pc) s :
  procs s !! p = Some (PRail pc) -> prims s (rail_fire p s).
Proof.
  intros Hp. unfold rail_fire. cbv zeta.
  destruct (Qgeb (level (grain_storage (port s))) _) eqn:Tg;
    [q_tests; eapply prims_rail_get; [exact Hp|exact Tg|auto]|].
  destruct (Qgeb (level (general_storage (port s))) _) eqn:Tn;
    [q_tests; eapply prims_rail_get; [exact Hp|exact Tn|auto]|].
  destruct (Qgeb (level (oil_storage (port s))) _) eqn:To;
    [q_tests; eapply prims_rail_get; [exact Hp|exact To|auto]|].
  destruct (Qgtb _ 0) eqn:Ta; [|eapply prims_rail_load, Hp].
  q_tests. eapply prims_rail_drain_grain; [exact Hp|exact Ta].
Qed.

Lemma prims_rail_resume p (pc : rail_pc) ev s s' :
  procs s !! p = Some (PRail pc) ->
  rail_resume p pc ev s = Some s' -> prims s s'.
Proof.
  intros Hp H. unfold rail_resume in H.
  destruct pc; destruct ev; try discriminate; injection H as <-.
  - eapply prims_rail_wait_interval, Hp.
  - eapply prims_step; [eapply prims_set_rail, Hp | apply prim_request].
  - eapply prims_rail_fire, Hp.
  - eapply prims_rail_load, Hp.
  - eapply prims_rail_drain_general, Hp.
  - eapply prims_rail_drain_oil, Hp.
  - eapply prims_rail_load, Hp.
  - eapply prims_trans; [apply prims_one, prim_exit_request|].
    eapply prims_rail_wait_interval. rewrite procs_exit_request. exact Hp.
Qed.

(** *** [ship_generator] *)

Lemma prims_gen_fail p n inter (pc : gen_pc) n' inter' e s :
  procs s !! p = Some (PGen n inter pc) ->
  inter' = inter
  \/ py_div 8760 (inject_Z (ships_per_year (port_config (port s)))) = Ok inter' ->
  fail_cause R (port_config (port s)) (PGen n' inter' GenFailed) e ->
  prims s (gen_fail p n' inter' e s).
Proof.
  intros Hp Hi Hc. unfold gen_fail.
  eapply prims_step;
    [|eapply (prim_fail p (PGen n' inter' GenFailed)); [|exact Hc]].
  - apply prims_one. eapply prim_set_proc; [exact Hp|exact Hi].
  - eapply procs_set_proc_same, Hp.
Qed.

Lemma prims_gen_loop p n inter (pc : gen_pc) n' inter' s :
  procs s !! p = Some (PGen n inter pc) ->
  inter' = inter
  \/ py_div 8760 (inject_Z (ships_per_year (port_config (port s)))) = Ok inter' ->
  prims s (gen_loop p n' inter' s).
Proof.
  intros Hp Hi. unfold gen_loop.
  destruct (np_random_choice _ _ _) as [[ct g1]|e] eqn:Ec;
    [|eapply prims_gen_fail; [exact Hp|exact Hi|right; left; eauto]].
  destruct (match ct with
            | Grain => draw_uniform R 3000 8000 g1
            | Oil => draw_uniform R 5000 15000 g1
            | General => draw_uniform R 1000 5000 g1
            end) as [amount g2] eqn:Ed.
  set (sh := {| ship_id := n'; cargo_type := ct;
                cargo_amount := amount; arrival_time := 0;
                berth_wait_time := 0; ship_at := ShipInit |}).
  assert (H1 : prims s (spawn (PShip sh) (set_random g2 s))).
  { eapply prims_step; [apply prims_one, prim_set_random|].
    apply prim_spawn; [reflexivity|].
    exists g1. cbn [cargo_amount cargo_type sh]. rewrite Ed. reflexivity. }
  assert (Hp1 : forall g,
             procs (set_random g (spawn (PShip sh) (set_random g2 s))) !! p
             = Some (PGen n inter pc)).
  { intros g. cbn [procs set_random spawn schedule set_procs].
    apply lookup_app_l_Some, Hp. }
  unfold np_random_exponential.
  destruct (Qltb inter' 0) eqn:Ti; q_tests.
  - eapply prims_trans; [exact H1|].
    eapply prims_gen_fail; [apply (Hp1 g2)|exact Hi|].
    right. right. left. exact Ti.
  - destruct (draw_exponential R inter' _) as [delay g3] eqn:Ex.
    destruct (Qltb delay 0) eqn:T; q_tests.
    + eapply prims_trans; [exact H1|].
      eapply prims_trans; [apply prims_one, (prim_set_random g3)|].
      eapply prims_gen_fail; [apply Hp1|exact Hi|].
      right. right. right. eexists. rewrite Ex. exact T.
    + eapply prims_step; [|apply prim_timeout, T].
      eapply prims_step;
        [eapply prims_step; [exact H1|apply (prim_set_random g3)]|].
      eapply prim_set_proc; [apply Hp1|exact Hi].
Qed.

Lemma prims_gen_resume p n inter (pc : gen_pc) ev s s' :
  procs s !! p = Some (PGen n inter pc) ->
  gen_resume p n inter pc ev s = Some s' -> prims s s'.
Proof.
  intros Hp H. unfold gen_resume in H.
  destruct pc; destruct ev; try discriminate.
  - destruct (py_div _ _) as [i|e] eqn:E; injection H as <-.
    + eapply prims_gen_loop; [exact Hp|right; exact E].
    + eapply prims_gen_fail; [exact Hp|left; reflexivity|left; exact E].
  - injection H as <-. eapply prims_gen_loop; [exact Hp|left; reflexivity].
Qed.

(** *** The step *)

Lemma prims_resume p ev s s' : resume p ev s = Some s' -> prims s s'.
Proof.
  unfold resume. destruct (procs s !! p) as [[n inter pc|pc|sh]|] eqn:Hp;
    [apply prims_gen_resume, Hp | apply prims_rail_resume, Hp
    | apply prims_ship_resume, Hp | discriminate].
Qed.

(** A step pops the least entry; unless that is the [until] event, the
    state it continues with is the popped state after a sequence of the
    operations. *)
Lemma step_prims s :
  match step s with
  | Continue s' =>
      exists x rest,
        events s = x :: rest /\ e_event x <> Until /\ prims (popped x rest s) s'
  | Stop s' =>
      exists x rest,
        events s = x :: rest /\ e_event x = Until /\ s' = popped x rest s
  | _ => True
  end.
Proof.
  unfold step. destruct (events s) as [|x rest]; [exact I|].
  fold (popped x rest s).
  destruct (e_event x) eqn:Ev; unfold resumed;
    try (destruct (resume _ _ _) as [s'|] eqn:E; [|exact I]);
    try (exists x, rest; split; [reflexivity|]; split; [rewrite Ev; discriminate|]);
    try (apply prims_resume in E).
  - exact E.
  - exact E.
  - exact E.
  - apply prims_one, prim_trigger.
  - eapply prims_trans; [apply prims_one, prim_trigger_get | exact E].
  - eapply prims_trans; [apply prims_one, prim_trigger_put | exact E].
  - apply prims_refl.
  - exact I.
  - exists x, rest. rewrite Ev. auto.
Qed.

End Trace.

(** * Invariants of a run *)

Section Invariant.

Context {R : RandomSource}.
Variables (config : Config) (simulation_hours : Q) (g : rng R).
Variable I : Sim R -> Prop.

Hypothesis I_prepare :
  forall s, prepare config simulation_hours g = Ok s -> I s.
Hypothesis I_pop :
  forall s x rest,
    reachable config simulation_hours g s -> I s ->
    events s = x :: rest -> I (popped x rest s).
Hypothesis I_prim : forall s s', I s -> prim s s' -> I s'.

Lemma invariant_prims s s' : I s -> prims s s' -> I s'.
Proof. intros Hs H. induction H; eauto. Qed.

Lemma invariant_reachable s :
  reachable config simulation_hours g s -> I s.
Proof.
  induction 1 as [s H|s s' Hr IH H|s s' Hr IH H].
  - apply I_prepare, H.
  - pose proof (step_prims s) as Hs. rewrite H in Hs.
    destruct Hs as (x & rest & He & _ & Hp).
    eapply invariant_prims; [|exact Hp]. apply I_pop; assumption.
  - pose proof (step_prims s) as Hs. rewrite H in Hs.
    destruct Hs as (x & rest & He & _ & ->). apply I_pop; assumption.
Qed.

End Invariant.

(** ** Resources within their capacity *)

Lemma length_remove_first (p : pid) (l : list pid) :
  (length (remove_first p l) <= length l)%nat.
Proof.
  induction l as [|x l IH]; simpl; [lia|].
  destruct (x =? p)%nat; simpl; lia.
Qed.

Section Capacity.

Context {R : RandomSource}.
Variable config : Config.

Implicit Types (s : Sim R).

Lemma users_inv_same_port s s' : port s' = port s -> users_inv config s -> users_inv config s'.
Proof. unfold users_inv. intros ->. auto. Qed.

Lemma users_inv_same_res s s' :
  (forall r, get_res r (port s') = get_res r (port s)) ->
  users_inv config s -> users_inv config s'.
Proof. unfold users_inv. intros E H r. rewrite E. apply H. Qed.

Lemma users_inv_resource_trigger_put r s :
  users_inv config s -> users_inv config (resource_trigger_put r s).
Proof.
  intros H. unfold resource_trigger_put.
  destruct (queue (get_res r (port s))) as [|p rest]; [exact H|].
  destruct (_ <? _)%Z eqn:T; [|exact H].
  apply Z.ltb_lt in T.
  intros r'. cbn [port schedule set_port]. rewrite get_res_set_res.
  destruct (decide (r' = r)) as [->|]; [|apply H].
  destruct (H r) as [Hc Hu]. unfold count in *. cbn [capacity users].
  split; [exact Hc|]. rewrite length_app. simpl. rewrite <- Hc. lia.
Qed.

Lemma users_inv_request r p s :
  users_inv config s -> users_inv config (request r p s).
Proof.
  intros H. unfold request. apply users_inv_resource_trigger_put.
  intros r'. cbn [port set_port]. rewrite get_res_set_res.
  destruct (decide (r' = r)) as [->|]; [|apply H]. exact (H r).
Qed.

Lemma users_inv_exit_request r p s :
  users_inv config s -> users_inv config (exit_request r p s).
Proof.
  intros H r'. destruct (exit_request_core r p s) as (_ & _ & E).
  rewrite E. destruct (decide (r' = r)) as [->|]; [|apply H].
  destruct (H r) as [Hc Hu]. unfold count in *. cbn [capacity users].
  split; [exact Hc|].
  pose proof (length_remove_first p (users (get_res r (port s)))).
  lia.
Qed.

Lemma users_inv_prim s s' : users_inv config s -> prim s s' -> users_inv config s'.
Proof.
  intros H Hp.
  destruct Hp;
    try (revert H; apply users_inv_same_port; reflexivity).
  - apply users_inv_request, H.
  - apply users_inv_exit_request, H.
  - apply users_inv_resource_trigger_put, H.
  - revert H. apply users_inv_same_res.
    eapply same_core_container_put; eassumption.
  - revert H. apply users_inv_same_res.
    eapply same_core_container_get; eassumption.
  - revert H. apply users_inv_same_res, same_core_container_trigger_put.
  - revert H. apply users_inv_same_res, same_core_container_trigger_get.
Qed.

Lemma Resource_init_capacity cap res :
  Resource_init cap = Ok res ->
  capacity res = cap /\ users res = [] /\ (0 < cap)%Z.
Proof.
  unfold Resource_init. destruct (cap <=? 0)%Z eqn:T; [discriminate|].
  apply Z.leb_gt in T. intros [= <-]. auto.
Qed.

Lemma users_inv_prepare simulation_hours g s :
  prepare config simulation_hours g = Ok s -> users_inv config s.
Proof.
  unfold prepare, start, bind, run_until. intros H.
  destruct (Port_init config) as [pt|] eqn:E; [|discriminate].
  case_match; try discriminate. injection H as <-.
  unfold Port_init, bind in E.
  repeat case_match; try discriminate. injection E as <-.
  repeat match goal with
  | E : Resource_init _ = Ok _ |- _ =>
      apply Resource_init_capacity in E; destruct E as (? & ? & ?)
  end.
  intros []; cbn; (split; [assumption|]);
    match goal with H : users ?r = [] |- context [count ?r] =>
      unfold count; rewrite H end; simpl; lia.
Qed.

Lemma users_inv_reachable simulation_hours g s :
  reachable config simulation_hours g s -> users_inv config s.
Proof.
  apply (invariant_reachable config simulation_hours g (users_inv config)).
  - apply users_inv_prepare.
  - intros s0 x rest _ H _. exact H.
  - apply users_inv_prim.
Qed.

End Capacity.

(** ** What an operation does to the log *)

Lemma metrics_prim {R : RandomSource} (s s' : Sim R) :
  prim s s' ->
  metrics s' = metrics s
  \/ (exists r,
        metrics s'
        = record_ship_arrival (now s) (length (queue (get_res r (port s))))
            (metrics s))
  \/ (exists p sh,
        procs s !! p = Some (PShip sh) /\ ship_at sh = AwaitPut
        /\ metrics s'
           = record_ship_processing (berth_wait_time sh)
               (now s - arrival_time sh) (cargo_amount sh) (metrics s))
  \/ metrics s'
     = record_resource_usage (now s)
         (count (port_oil_berths (port s)) + count (port_dry_berths (port s)))
         (count (port_cranes (port s)))
         (level (grain_storage (port s)) + level (general_storage (port s))
          + level (oil_storage (port s)))
         (total_storage_capacity (port s)) (metrics s).
Proof.
  intros H. destruct H;
    first
      [ left; reflexivity
      | left; apply metrics_request
      | left; apply metrics_resource_trigger_put
      | left; eapply metrics_container_put; eassumption
      | left; eapply metrics_container_get; eassumption
      | left; apply metrics_container_trigger_put
      | left; apply metrics_container_trigger_get
      | right; left; eexists; reflexivity
      | right; right; left; eexists _, _; repeat split; eassumption
      | right; right; right; reflexivity ].
Qed.

(** ** Usage samples within the configured numbers *)

Lemma pct_bounded (used total : Q) :
  0 < total -> 0 <= used <= total -> 0 <= used / total * 100 <= 100.
Proof.
  intros Ht [H0 H1].
  assert (0 <= used / total) by (apply Qle_shift_div_l; lra).
  assert (used / total <= 1) by (apply Qle_shift_div_r; lra).
  lra.
Qed.

Section Usage.

Context {R : RandomSource}.
Variable config : Config.

Implicit Types (s : Sim R).

Lemma usage_within_snapshot s :
  users_inv config s ->
  usage_within config (metrics s) ->
  usage_within config
    (record_resource_usage (now s)
       (count (port_oil_berths (port s)) + count (port_dry_berths (port s)))
       (count (port_cranes (port s)))
       (level (grain_storage (port s)) + level (general_storage (port s))
        + level (oil_storage (port s)))
       (total_storage_capacity (port s)) (metrics s)).
Proof.
  intros Hu [Hb Hc].
  destruct (Hu OilBerths) as [_ Ho], (Hu DryBerths) as [_ Hd],
    (Hu CranesRes) as [_ Hk].
  cbn [get_res resource_capacity] in *.
  split; cbn [berth_usage crane_usage record_resource_usage];
    apply Forall_app; (split; [assumption|]);
    constructor; [|constructor| |constructor]; cbn [u_usage]; split.
  - change 0 with (inject_Z 0). rewrite <- Zle_Qle. lia.
  - rewrite <- Zle_Qle. lia.
  - change 0 with (inject_Z 0). rewrite <- Zle_Qle. lia.
  - rewrite <- Zle_Qle. lia.
Qed.

Lemma usage_inv_prim s s' :
  users_inv config s /\ usage_within config (metrics s) -> prim s s' ->
  users_inv config s' /\ usage_within config (metrics s').
Proof.
  intros [Hu Hm] Hp. split; [eapply users_inv_prim; eassumption|].
  destruct (metrics_prim s s' Hp) as [E|[(r & E)|[(p & sh & _ & _ & E)|E]]];
    rewrite E; try exact Hm.
  apply usage_within_snapshot; assumption.
Qed.

Lemma usage_inv_reachable simulation_hours g s :
  reachable config simulation_hours g s ->
  users_inv config s /\ usage_within config (metrics s).
Proof.
  apply (invariant_reachable config simulation_hours g
           (fun s => users_inv config s /\ usage_within config (metrics s))).
  - intros s0 H. split; [eapply users_inv_prepare, H|].
    unfold prepare, start, bind, run_until in H.
    destruct (Port_init config); [|discriminate].
    case_match; try discriminate. injection H as <-.
    split; constructor.
  - intros s0 x rest _ H _. exact H.
  - apply usage_inv_prim.
Qed.

End Usage.

(** In every state of a run each resource has the number of slots the
    configuration gives it, and the processes using it at once are never
    more than that: ships at the oil berths, ships at the dry berths,
    ships holding a crane, trains on the tracks. *)
Theorem resources_never_over_capacity {R : RandomSource} (config : Config)
    (simulation_hours : Q) (g : rng R) (s : Sim R) :
  reachable config simulation_hours g s ->
  forall r : res_id,
    capacity (get_res r (port s)) = resource_capacity r config
    /\ (Z.of_nat (count (get_res r (port s))) <= resource_capacity r config)%Z.
Proof. apply users_inv_reachable. Qed.

Lemma utilization_bounds_reachable {R : RandomSource}
    (config : Config) (simulation_hours : Q) (g : rng R) (s : Sim R)
    (rep : CapacityReport) :
  reachable config simulation_hours g s ->
  calculate_capacity_metrics (metrics s) config simulation_hours = Ok rep ->
  0 <= berth_utilization_pct rep <= 100
  /\ 0 <= crane_utilization_pct rep <= 100
  /\ 0 <= storage_utilization_pct rep <= 100.
Proof.
  intros Hs H.
  destruct (capacity_report_fields _ _ _ _ H)
    as (_ & _ & _ & _ & _ & Hb & Hk & Hst & _).
  destruct (usage_inv_reachable config _ _ _ Hs) as [_ [Ub Uk]].
  destruct (storage_inv_reachable config _ _ _ Hs) as [_ Us].
  rewrite Hb, Hk, Hst. clear Hb Hk Hst H. split; [|split].
  - destruct (0 <? _)%Z eqn:T; [|lra]. apply Z.ltb_lt in T.
    apply pct_bounded.
    + change 0 with (inject_Z 0). rewrite <- Zlt_Qlt. exact T.
    + apply mean_or_zero_bounds.
      * lra.
      * change 0 with (inject_Z 0). rewrite <- Zle_Qle. lia.
      * rewrite Forall_map. exact Ub.
  - destruct (0 <? _)%Z eqn:T; [|lra]. apply Z.ltb_lt in T.
    apply pct_bounded.
    + change 0 with (inject_Z 0). rewrite <- Zlt_Qlt. exact T.
    + apply mean_or_zero_bounds.
      * lra.
      * change 0 with (inject_Z 0). rewrite <- Zle_Qle. lia.
      * rewrite Forall_map. exact Uk.
  - apply mean_or_zero_bounds; [lra|lra|].
    rewrite Forall_map. exact Us.
Qed.

(** The utilization figures the analysis derives from the log of a run are
    percentages: the berth, crane and storage utilization of the report
    lie between 0 and 100, at whatever state of the run the log is read. *)
Theorem utilization_percentages_within_0_100 {R : RandomSource}
    (config : Config) (simulation_hours : Q) (g : rng R) (s : Sim R)
    (rep : CapacityReport) :
  reachable config simulation_hours g s ->
  calculate_capacity_metrics (metrics s) config simulation_hours = Ok rep ->
  0 <= berth_utilization_pct rep <= 100
  /\ 0 <= crane_utilization_pct rep <= 100
  /\ 0 <= storage_utilization_pct rep <= 100.
Proof. apply utilization_bounds_reachable. Qed.

Lemma resources_never_over_capacity_witness :
  exists s0 : Sim turn_source,
    prepare sample_config 100 (0%nat : rng turn_source) = Ok s0
    /\ let s := advance 40 s0 in
       count (port_dry_berths (port s)) = 1%nat
       /\ forall r : res_id,
            capacity (get_res r (port s)) = resource_capacity r sample_config
            /\ (Z.of_nat (count (get_res r (port s)))
                <= resource_capacity r sample_config)%Z.
Proof.
  eexists. split; [reflexivity|]. split; [vm_compute; reflexivity|].
  apply (resources_never_over_capacity sample_config 100 (0%nat : rng turn_source)).
  apply reachable_advance, reach_prepare. reflexivity.
Defined.

Lemma utilization_percentages_within_0_100_witness :
  exists (s0 : Sim turn_source) (rep : CapacityReport),
    prepare sample_config 100 (0%nat : rng turn_source) = Ok s0
    /\ calculate_capacity_metrics (metrics (advance 40 s0)) sample_config 100
       = Ok rep
    /\ 0 <= berth_utilization_pct rep <= 100
    /\ 0 <= crane_utilization_pct rep <= 100
    /\ 0 <= storage_utilization_pct rep <= 100.
Proof.
  eexists _, _. split; [reflexivity|].
  match goal with
  | |- context [advance 40 ?s0] =>
      assert (Hr : reachable sample_config 100 (0%nat : rng turn_source)
                     (advance 40 s0))
        by (apply reachable_advance, reach_prepare; reflexivity)
  end.
  split; [vm_compute; reflexivity|].
  apply (utilization_percentages_within_0_100 _ _ _ _ _ Hr).
  vm_compute. reflexivity.
Defined.

(** * The clock *)

Lemma entry_lt_time (x y : entry) : entry_lt x y = true -> e_time x <= e_time y.
Proof.
  unfold entry_lt. intros H. apply orb_true_iff in H. destruct H as [H|H].
  - q_tests. lra.
  - apply andb_true_iff in H. destruct H as [H _].
    apply Qeq_bool_eq in H. rewrite H. lra.
Qed.

Lemma entry_nlt_time (x y : entry) : entry_lt x y = false -> e_time y <= e_time x.
Proof.
  unfold entry_lt. intros H. apply orb_false_iff in H. destruct H as [H _].
  q_tests. exact H.
Qed.

Lemma Forall_heappush (P : entry -> Prop) (x : entry) (q : list entry) :
  Forall P (heappush x q) <-> P x /\ Forall P q.
Proof. rewrite (heappush_perm x q). apply Forall_cons. Qed.

Lemma heappush_sorted (x : entry) (q : list entry) :
  time_sorted q -> time_sorted (heappush x q).
Proof.
  induction q as [|y q IH]; simpl; [auto|].
  intros [Hy Hq]. destruct (entry_lt x y) eqn:T; simpl.
  - apply entry_lt_time in T. split; [|auto].
    constructor; [exact T|].
    eapply Forall_impl; [exact Hy|]. simpl. intros z Hz. lra.
  - apply entry_nlt_time in T. split; [|auto].
    apply Forall_heappush. auto.
Qed.

Section Clock.

Context {R : RandomSource}.
Variable simulation_hours : Q.

Implicit Types (s : Sim R).

Lemma clock_inv_same s s' :
  now s' = now s -> events s' = events s ->
  clock_inv simulation_hours s -> clock_inv simulation_hours s'.
Proof. unfold clock_inv. intros -> ->. auto. Qed.

Lemma clock_inv_schedule ev pr d s :
  0 <= d -> (ev = Until -> now s + d == simulation_hours) ->
  clock_inv simulation_hours s ->
  clock_inv simulation_hours (schedule ev pr d s).
Proof.
  intros Hd Hev (H0 & Hs & Hn & Hu).
  unfold clock_inv. cbn [now events schedule].
  split; [exact H0|]. split; [apply heappush_sorted, Hs|].
  split; apply Forall_heappush; (split; [|assumption]); cbn.
  - lra.
  - exact Hev.
Qed.

Lemma clock_inv_schedule_all mk served s :
  (forall p, mk p <> Until) ->
  clock_inv simulation_hours s ->
  clock_inv simulation_hours (schedule_all mk served s).
Proof.
  intros Hmk. unfold schedule_all. revert s.
  induction served as [|p served IH]; intros s H; simpl; [exact H|].
  apply IH, clock_inv_schedule; [lra| |exact H].
  intros E. destruct (Hmk p E).
Qed.

Lemma clock_inv_resource_trigger_put r s :
  clock_inv simulation_hours s ->
  clock_inv simulation_hours (resource_trigger_put r s).
Proof.
  intros H. unfold resource_trigger_put.
  destruct (queue _) as [|p rest]; [exact H|].
  destruct (_ <? _)%Z; [|exact H].
  apply clock_inv_schedule; [lra|discriminate|exact H].
Qed.

Lemma clock_inv_request r p s :
  clock_inv simulation_hours s -> clock_inv simulation_hours (request r p s).
Proof. intros H. apply clock_inv_resource_trigger_put. exact H. Qed.

Lemma clock_inv_exit_request r p s :
  clock_inv simulation_hours s ->
  clock_inv simulation_hours (exit_request r p s).
Proof.
  intros H. unfold exit_request, release.
  apply clock_inv_schedule; [lra|discriminate|exact H].
Qed.

Lemma clock_inv_container_trigger_put c s :
  clock_inv simulation_hours s ->
  clock_inv simulation_hours (container_trigger_put c s).
Proof.
  intros H. unfold container_trigger_put.
  destruct (serve_puts _ _ _) as [[lvl waiting] served].
  apply clock_inv_schedule_all; [discriminate|exact H].
Qed.

Lemma clock_inv_container_trigger_get c s :
  clock_inv simulation_hours s ->
  clock_inv simulation_hours (container_trigger_get c s).
Proof.
  intros H. unfold container_trigger_get.
  destruct (serve_gets _ _) as [[lvl waiting] served].
  apply clock_inv_schedule_all; [discriminate|exact H].
Qed.

Lemma clock_inv_prim s s' :
  clock_inv simulation_hours s -> prim s s' -> clock_inv simulation_hours s'.
Proof.
  intros H Hp.
  destruct Hp;
    first
      [ exact H
      | apply clock_inv_schedule; [lra || assumption|discriminate|exact H]
      | apply clock_inv_request, H
      | apply clock_inv_exit_request, H
      | apply clock_inv_resource_trigger_put, H
      | apply clock_inv_container_trigger_put, H
      | apply clock_inv_container_trigger_get, H
      | idtac ].
  - (* put *)
    unfold container_put in *. destruct (Qle_bool _ _); [discriminate|].
    match goal with E : Ok _ = Ok _ |- _ => injection E as <- end.
    apply clock_inv_container_trigger_put, H.
  - unfold container_get in *. destruct (Qle_bool _ _); [discriminate|].
    match goal with E : Ok _ = Ok _ |- _ => injection E as <- end.
    apply clock_inv_container_trigger_get, H.
Qed.

Lemma clock_inv_pop s x rest :
  clock_inv simulation_hours s -> events s = x :: rest ->
  clock_inv simulation_hours (popped x rest s)
  /\ now s <= e_time x
  /\ (e_event x = Until -> e_time x == simulation_hours).
Proof.
  intros (H0 & Hs & Hn & Hu) E. rewrite E in *.
  destruct Hs as [Hx Hs]. inversion Hn; subst. inversion Hu; subst.
  split; [|auto].
  unfold clock_inv, popped. cbn [now events set_events set_now].
  split; [lra|]. auto.
Qed.

Lemma clock_inv_prepare config g s :
  prepare config simulation_hours g = Ok s -> clock_inv simulation_hours s.
Proof.
  unfold prepare, start, bind, run_until. intros H.
  destruct (Port_init config) as [pt|]; [|discriminate].
  destruct (Qle_bool _ _) eqn:T; [discriminate|]. injection H as <-.
  q_tests. cbn [now spawn schedule set_procs] in T.
  apply clock_inv_schedule.
  - cbn [now spawn schedule set_procs]. lra.
  - intros _. cbn [now spawn schedule set_procs]. ring.
  - apply clock_inv_schedule; [lra|discriminate|].
    apply clock_inv_schedule; [lra|discriminate|].
    unfold clock_inv. cbn. split; [lra|]. split; [exact I|].
    split; constructor.
Qed.

Lemma clock_inv_reachable config g s :
  reachable config simulation_hours g s -> clock_inv simulation_hours s.
Proof.
  apply (invariant_reachable config simulation_hours g
           (clock_inv simulation_hours)).
  - apply clock_inv_prepare.
  - intros s0 x rest _ H E. eapply clock_inv_pop; eassumption.
  - apply clock_inv_prim.
Qed.

(** *** The operations leave the clock alone *)

Lemma now_schedule_all mk served s : now (schedule_all mk served s) = now s.
Proof.
  unfold schedule_all. revert s.
  induction served as [|q served IH]; intros s; simpl; [reflexivity|].
  rewrite IH. reflexivity.
Qed.

Lemma now_resource_trigger_put r s : now (resource_trigger_put r s) = now s.
Proof. unfold resource_trigger_put. repeat case_match; reflexivity. Qed.

Lemma now_container_trigger_put c s : now (container_trigger_put c s) = now s.
Proof.
  unfold container_trigger_put. repeat case_match.
  rewrite now_schedule_all. reflexivity.
Qed.

Lemma now_container_trigger_get c s : now (container_trigger_get c s) = now s.
Proof.
  unfold container_trigger_get. repeat case_match.
  rewrite now_schedule_all. reflexivity.
Qed.

Lemma now_prim s s' : prim s s' -> now s' = now s.
Proof.
  intros Hp.
  destruct Hp;
    first
      [ reflexivity
      | apply now_resource_trigger_put
      | apply now_container_trigger_put
      | apply now_container_trigger_get
      | apply (now_resource_trigger_put _ (set_port _ _))
      | idtac ].
  - unfold container_put in *. destruct (Qle_bool _ _); [discriminate|].
    match goal with E : Ok _ = Ok _ |- _ => injection E as <- end.
    apply (now_container_trigger_put _ (set_port _ _)).
  - unfold container_get in *. destruct (Qle_bool _ _); [discriminate|].
    match goal with E : Ok _ = Ok _ |- _ => injection E as <- end.
    apply (now_container_trigger_get _ (set_port _ _)).
Qed.

Lemma now_prims s s' : prims s s' -> now s' = now s.
Proof.
  induction 1 as [|s s' s'' _ IH H]; [reflexivity|].
  rewrite (now_prim _ _ H). exact IH.
Qed.

End Clock.

(** Simulated time starts at 0 and never runs backwards: in every state of
    a run no pending event lies in the past, and a step of the loop leaves
    the clock where it was or moves it forward. *)
Theorem clock_never_runs_backwards {R : RandomSource} (config : Config)
    (simulation_hours : Q) (g : rng R) (s : Sim R) :
  reachable config simulation_hours g s ->
  0 <= now s
  /\ Forall (fun x => now s <= e_time x) (events s)
  /\ forall s', step s = Continue s' \/ step s = Stop s' -> now s <= now s'.
Proof.
  intros Hs. apply clock_inv_reachable in Hs.
  split; [apply Hs|]. split; [apply Hs|].
  intros s' H. pose proof (step_prims s) as Hp.
  destruct H as [H|H]; rewrite H in Hp; destruct Hp as (x & rest & E & _ & Hp).
  - apply now_prims in Hp. rewrite Hp. cbn.
    eapply clock_inv_pop; eassumption.
  - subst s'. cbn. eapply clock_inv_pop; eassumption.
Qed.

Lemma clock_never_runs_backwards_witness :
  exists s0 : Sim turn_source,
    prepare sample_config 100 (0%nat : rng turn_source) = Ok s0
    /\ let s := advance 40 s0 in
       0 < now s
       /\ 0 <= now s
       /\ Forall (fun x => now s <= e_time x) (events s)
       /\ forall s', step s = Continue s' \/ step s = Stop s' -> now s <= now s'.
Proof.
  eexists. split; [reflexivity|]. split; [vm_compute; reflexivity|].
  apply (clock_never_runs_backwards sample_config 100 (0%nat : rng turn_source)).
  apply reachable_advance, reach_prepare. reflexivity.
Defined.

(** * Times in the log *)

(** A run that finishes does so at the [until] event. *)
Lemma run_loop_finished {R : RandomSource} (config : Config)
    (simulation_hours : Q) (g : rng R) (fuel : nat) (s0 s : Sim R) :
  reachable config simulation_hours g s0 ->
  run_loop fuel s0 = Finished s ->
  exists s1, reachable config simulation_hours g s1 /\ step s1 = Stop s.
Proof.
  revert s0. induction fuel as [|fuel IH]; intros s0 Hr H; [discriminate|].
  simpl in H. destruct (step s0) as [s'|s'|e|] eqn:E; try discriminate.
  - eapply IH; [|exact H]. eapply reach_continue; eassumption.
  - injection H as <-. eauto.
Qed.

Lemma run_simulation_finished {R : RandomSource} (config : Config)
    (simulation_hours : Q) (g : rng R) (fuel : nat) (s : Sim R) :
  run_simulation config simulation_hours fuel g = Finished s ->
  exists s1, reachable config simulation_hours g s1 /\ step s1 = Stop s.
Proof.
  unfold run_simulation.
  destruct (prepare config simulation_hours g) as [s0|e] eqn:E; [|discriminate].
  apply run_loop_finished, reach_prepare, E.
Qed.

Section Times.

Context {R : RandomSource}.

Implicit Types (s : Sim R) (sh : Ship).

Lemma ship_times_mono t t' sh : t <= t' -> ship_times t sh -> ship_times t' sh.
Proof.
  unfold ship_times. intros Ht. destruct (ship_at sh); intros H; try exact I;
    repeat split; try apply H; lra.
Qed.

Lemma log_times_mono t t' m : t <= t' -> log_times t m -> log_times t' m.
Proof.
  intros Ht (Hq & Hb & Hc & Hs & Hw).
  repeat split;
    try (eapply Forall_impl; [eassumption|]; simpl; intros; lra).
  eapply Forall2_impl; [exact Hw|]. simpl. intros; lra.
Qed.

Lemma ship_times_step t old new :
  0 <= t -> ship_step t old new -> ship_times t old -> ship_times t new.
Proof.
  intros Ht ((_ & _ & _ & Ha & Hw) & Hn & Hi). unfold ship_times.
  destruct (ship_at old) eqn:Eo; intros H.
  - rewrite (Hi eq_refl). rewrite Ha. lra.
  - rewrite Ha, Hw. destruct (ship_at new); try contradiction; lra.
  - rewrite Ha, Hw. destruct (ship_at new); try contradiction; lra.
  - rewrite Ha, Hw. destruct (ship_at new); try contradiction; lra.
  - rewrite Ha, Hw. destruct (ship_at new); try contradiction; lra.
  - rewrite Ha, Hw. destruct (ship_at new); try contradiction; lra.
  - rewrite Ha, Hw. destruct (ship_at new); try contradiction; lra.
Qed.

Lemma procs_prim s s' :
  prim s s' ->
  procs s' = procs s
  \/ (exists p old new,
        procs s !! p = Some old /\ proc_step (now s) (port_config (port s)) old new
        /\ procs s' = <[p := new]> (procs s))
  \/ (exists sh,
        ship_at sh = ShipInit /\ drawn_amount R sh
        /\ procs s' = procs s ++ [PShip sh]).
Proof.
  intros Hp.
  destruct Hp;
    first
      [ left; reflexivity
      | left; apply (same_core_container_trigger_put _ _)
      | left; apply (same_core_container_trigger_get _ _)
      | left; eapply same_core_container_put; eassumption
      | left; eapply same_core_container_get; eassumption
      | right; left; eexists _, _, _; repeat split; eassumption
      | right; right; eexists; repeat split; eassumption
      | idtac ].
  - left. unfold request, resource_trigger_put. repeat case_match; reflexivity.
  - left. unfold resource_trigger_put. repeat case_match; reflexivity.
Qed.

Lemma times_inv_prim s s' :
  0 <= now s -> times_inv s -> prim s s' -> times_inv s'.
Proof.
  intros H0 [Hs Hm] Hp. unfold times_inv. rewrite (now_prim _ _ Hp).
  split.
  - destruct (procs_prim _ _ Hp)
      as [E|[(p & old & new & Ho & Hst & E)|(sh & Hi & _ & E)]]; rewrite E.
    + exact Hs.
    + intros q sh Hq.
      destruct (decide (q = p)) as [->|Hne].
      * rewrite list_lookup_insert_eq in Hq by (eapply lookup_lt_Some, Ho).
        injection Hq as ->.
        destruct old as [| |osh]; try contradiction.
        eapply ship_times_step; [exact H0|exact Hst|]. eapply Hs, Ho.
      * rewrite list_lookup_insert_ne in Hq by congruence. eapply Hs, Hq.
    + intros q sh' Hq. apply lookup_app_Some in Hq.
      destruct Hq as [Hq|[_ Hq]]; [eapply Hs, Hq|].
      apply list_lookup_singleton_Some in Hq. destruct Hq as [_ [= <-]].
      unfold ship_times. rewrite Hi. exact I.
  - destruct Hm as (Hq & Hb & Hc & Hu & Hw).
    destruct (metrics_prim _ _ Hp) as [E|[(r & E)|[(p & sh & Hl & Hpc & E)|E]]];
      rewrite E; unfold log_times;
      cbn [record_ship_arrival record_ship_processing record_resource_usage
           ships_in_queue berth_usage crane_usage storage_usage
           ship_waiting_times ship_processing_times].
    + auto 6.
    + repeat split; try assumption.
      apply Forall_app. split; [assumption|].
      constructor; [|constructor]. cbn. lra.
    + repeat split; try assumption.
      apply Forall2_app; [assumption|].
      constructor; [|constructor].
      specialize (Hs _ _ Hl). unfold ship_times in Hs. rewrite Hpc in Hs. lra.
    + repeat split; try assumption;
        (apply Forall_app; split; [assumption|]);
        (constructor; [|constructor]); cbn; lra.
Qed.

Lemma times_inv_reachable config simulation_hours g s :
  reachable config simulation_hours g s -> times_inv s.
Proof.
  intros Hs.
  cut (clock_inv simulation_hours s /\ times_inv s); [intros [_ H]; exact H|].
  revert s Hs.
  apply (invariant_reachable config simulation_hours g
           (fun s => clock_inv simulation_hours s /\ times_inv s)).
  - intros s H. split; [eapply clock_inv_prepare, H|].
    unfold prepare, start, bind, run_until in H.
    destruct (Port_init config); [|discriminate].
    case_match; try discriminate. injection H as <-.
    split.
    + intros p sh Hp. cbn in Hp.
      destruct p as [|[|p]]; simpl in Hp; discriminate.
    + repeat split; constructor.
  - intros s x rest _ [Hc [Hs Hm]] E.
    destruct (clock_inv_pop _ _ _ _ Hc E) as (Hc' & Hle & _).
    split; [exact Hc'|]. split; cbn [popped now procs metrics set_events set_now].
    + intros p sh Hp. eapply ship_times_mono; [exact Hle|]. eapply Hs, Hp.
    + eapply log_times_mono; eassumption.
  - intros s s' [Hc Ht] Hp. split; [eapply clock_inv_prim; eassumption|].
    eapply times_inv_prim; [apply Hc|exact Ht|exact Hp].
Qed.

End Times.

(** A run that finishes ends exactly at the horizon: the horizon is
    positive, the clock of the final state reads [simulation_hours], and so
    every time stamp of the final log lies between 0 and the horizon, and
    every recorded ship has waited no longer than its stay, which is no
    longer than the horizon. *)
Theorem finished_run_ends_at_horizon {R : RandomSource} (config : Config)
    (simulation_hours : Q) (fuel : nat) (g : rng R) (s : Sim R) :
  run_simulation config simulation_hours fuel g = Finished s ->
  0 < simulation_hours /\ now s == simulation_hours
  /\ log_times simulation_hours (metrics s).
Proof.
  intros H. destruct (run_simulation_finished _ _ _ _ _ H) as (s1 & Hr & Hs).
  assert (Hc := clock_inv_reachable _ _ _ _ Hr).
  assert (Hr' : reachable config simulation_hours g s)
    by (eapply reach_stop; eassumption).
  apply times_inv_reachable in Hr'. destruct Hr' as [_ Hl].
  pose proof (step_prims s1) as Hp. rewrite Hs in Hp.
  destruct Hp as (x & rest & E & Hu & ->).
  destruct (clock_inv_pop _ _ _ _ Hc E) as (_ & _ & Hx).
  specialize (Hx Hu).
  split; [|split; [exact Hx|]].
  - unfold run_simulation, prepare, start, bind, run_until in H.
    destruct (Port_init config); [|discriminate].
    destruct (Qle_bool _ _) eqn:T; [discriminate|]. q_tests. exact T.
  - eapply log_times_mono; [|exact Hl]. cbn. rewrite Hx. lra.
Qed.

Lemma finished_run_ends_at_horizon_witness :
  exists s : Sim turn_source,
    run_simulation sample_config 120 400 (0%nat : rng turn_source) = Finished s
    /\ ships_processed (metrics s) = 8%nat
    /\ 0 < 120 /\ now s == 120 /\ log_times 120 (metrics s).
Proof.
  eexists. split; [vm_compute; reflexivity|]. split; [vm_compute; reflexivity|].
  apply (finished_run_ends_at_horizon sample_config 120 400
           (0%nat : rng turn_source)).
  vm_compute. reflexivity.
Defined.

(** The times in the log of a run.  At every state of the run each time
    stamp of the log (arrival samples, usage snapshots) lies between 0 and
    the current time, and for every ship recorded the wait for the berth is
    not negative and no longer than the whole stay, which in turn is no
    longer than the time elapsed. *)
Theorem log_times_within_the_run {R : RandomSource} (config : Config)
    (simulation_hours : Q) (g : rng R) (s : Sim R) :
  reachable config simulation_hours g s ->
  log_times (now s) (metrics s).
Proof. intros H. eapply times_inv_reachable, H. Qed.

Lemma log_times_within_the_run_witness :
  exists s0 : Sim turn_source,
    prepare sample_config 100 (0%nat : rng turn_source) = Ok s0
    /\ let s := advance 40 s0 in
       ships_processed (metrics s) = 2%nat
       /\ log_times (now s) (metrics s).
Proof.
  eexists. split; [reflexivity|]. split; [vm_compute; reflexivity|].
  apply (log_times_within_the_run sample_config 100 (0%nat : rng turn_source)).
  apply reachable_advance, reach_prepare. reflexivity.
Defined.

(** * Withdrawals are served at once *)

Section NoWaitingGet.

Context {R : RandomSource}.

Implicit Types (s : Sim R) (c : cargo).

Lemma gets_served_same_storage s s' :
  (forall c, get_storage c (port s') = get_storage c (port s)) ->
  gets_served s -> gets_served s'.
Proof. unfold gets_served. intros E H c. rewrite E. apply H. Qed.

Lemma get_storage_resource_trigger_put r s c :
  get_storage c (port (resource_trigger_put r s)) = get_storage c (port s).
Proof.
  unfold resource_trigger_put.
  repeat case_match; try reflexivity;
    cbn [port schedule set_port]; apply get_storage_set_res.
Qed.

Lemma get_storage_request r p s c :
  get_storage c (port (request r p s)) = get_storage c (port s).
Proof.
  unfold request. rewrite get_storage_resource_trigger_put.
  cbn [port set_port]. apply get_storage_set_res.
Qed.

Lemma get_storage_exit_request r p s c :
  get_storage c (port (exit_request r p s)) = get_storage c (port s).
Proof.
  unfold exit_request, release, cancel. cbn [port schedule set_port].
  rewrite !get_storage_set_res. reflexivity.
Qed.

Lemma gets_served_container_trigger_put c s :
  gets_served s -> gets_served (container_trigger_put c s).
Proof.
  intros H c'. unfold container_trigger_put.
  destruct (serve_puts _ _ _) as [[lvl waiting] served].
  rewrite port_schedule_all. cbn [port set_port].
  rewrite get_storage_set_storage.
  destruct (decide (c' = c)) as [->|]; [|apply H]. apply H.
Qed.

Lemma gets_served_container_trigger_get c s :
  gets_served s -> gets_served (container_trigger_get c s).
Proof.
  intros H c'. unfold container_trigger_get. rewrite (H c).
  cbn [serve_gets]. rewrite port_schedule_all. cbn [port set_port].
  rewrite get_storage_set_storage.
  destruct (decide (c' = c)) as [->|]; [|apply H]. reflexivity.
Qed.

Lemma gets_served_prim s s' : gets_served s -> prim s s' -> gets_served s'.
Proof.
  intros H Hp.
  destruct Hp;
    first
      [ exact H
      | revert H; apply gets_served_same_storage; intros;
        first [ apply get_storage_request | apply get_storage_exit_request
              | apply get_storage_resource_trigger_put ]
      | apply gets_served_container_trigger_put, H
      | apply gets_served_container_trigger_get, H
      | idtac ].
  - (* put *)
    unfold container_put in *. destruct (Qle_bool _ _); [discriminate|].
    match goal with E : Ok _ = Ok _ |- _ => injection E as <- end.
    apply gets_served_container_trigger_put.
    intros c'. cbn [port set_port]. rewrite get_storage_set_storage.
    destruct (decide (c' = c)) as [->|]; apply H.
  - (* get *)
    assert (Hpos : 0 < amount).
    { unfold container_get in *. destruct (Qle_bool amount 0) eqn:T;
        [discriminate|]. q_tests. exact T. }
    destruct (container_get_served c p amount s Hpos) as (s1 & E & _ & _ & _ & Hq & Ho);
      [assumption|apply H|].
    match goal with E' : container_get _ _ _ _ = Ok _ |- _ =>
      rewrite E in E'; injection E' as <- end.
    intros c'. destruct (decide (c' = c)) as [->|Hne]; [exact Hq|].
    rewrite Ho by exact Hne. apply H.
Qed.

Lemma gets_served_reachable config simulation_hours g s :
  reachable config simulation_hours g s -> gets_served s.
Proof.
  apply (invariant_reachable config simulation_hours g gets_served).
  - intros s0 H. unfold prepare, start, bind, run_until in H.
    destruct (Port_init config) as [pt|] eqn:E; [|discriminate].
    case_match; try discriminate. injection H as <-.
    unfold Port_init, bind in E. repeat case_match; try discriminate.
    injection E as <-.
    repeat match goal with
    | E : Container_init _ _ = Ok _ |- _ =>
        unfold Container_init in E; repeat case_match; try discriminate;
        injection E as <-
    end.
    intros []; reflexivity.
  - intros s0 x rest _ H _. exact H.
  - apply gets_served_prim.
Qed.

End NoWaitingGet.

(** A train never waits for cargo.  In every state of a run the queue of
    pending withdrawals of each pool is empty: the rail process asks a pool
    only for what the pool holds, so every [get] is served at once. *)
Theorem rail_withdrawals_never_wait {R : RandomSource} (config : Config)
    (simulation_hours : Q) (g : rng R) (s : Sim R) :
  reachable config simulation_hours g s ->
  forall c : cargo, get_queue (get_storage c (port s)) = [].
Proof. apply gets_served_reachable. Qed.

Lemma rail_withdrawals_never_wait_witness :
  exists s0 : Sim turn_source,
    prepare sample_config 100 (0%nat : rng turn_source) = Ok s0
    /\ let s := advance 45 s0 in
       forall c : cargo, get_queue (get_storage c (port s)) = [].
Proof.
  eexists. split; [reflexivity|].
  apply (rail_withdrawals_never_wait sample_config 100 (0%nat : rng turn_source)).
  apply reachable_advance, reach_prepare. reflexivity.
Defined.

(** * The lists of the log side by side *)

Section Log.

Context {R : RandomSource}.

Implicit Types (s : Sim R).

Lemma log_aligned_prim s s' :
  log_aligned (metrics s) -> prim s s' -> log_aligned (metrics s').
Proof.
  intros ((Hw & Hp & Hc) & Hb & Hk) H.
  destruct (metrics_prim _ _ H) as [E|[(r & E)|[(p & sh & _ & _ & E)|E]]];
    rewrite E; unfold log_aligned, counter_matches; cbn;
    rewrite ?length_app; cbn; repeat split; lia.
Qed.

Lemma unwritten_prim s s' :
  total_storage_used (port s) = 0 /\ bottlenecks (metrics s) = [] ->
  prim s s' ->
  total_storage_used (port s') = 0 /\ bottlenecks (metrics s') = [].
Proof.
  intros [Hu Hb] H. split.
  - rewrite <- Hu. clear Hu Hb.
    destruct H; try reflexivity.
    + unfold request, resource_trigger_put. repeat case_match; reflexivity.
    + unfold resource_trigger_put. repeat case_match; reflexivity.
    + unfold container_put in *. case_match; [discriminate|].
      match goal with E : Ok _ = Ok _ |- _ => injection E as <- end.
      unfold container_trigger_put. repeat case_match.
      rewrite port_schedule_all. reflexivity.
    + unfold container_get in *. case_match; [discriminate|].
      match goal with E : Ok _ = Ok _ |- _ => injection E as <- end.
      unfold container_trigger_get. repeat case_match.
      rewrite port_schedule_all. reflexivity.
    + unfold container_trigger_put. repeat case_match.
      rewrite port_schedule_all. reflexivity.
    + unfold container_trigger_get. repeat case_match.
      rewrite port_schedule_all. reflexivity.
  - destruct (metrics_prim _ _ H) as [E|[(r & E)|[(p & sh & _ & _ & E)|E]]];
      rewrite E; exact Hb.
Qed.

Lemma prepare_initial config simulation_hours g s :
  prepare config simulation_hours g = Ok s ->
  metrics s = PortMetrics_init /\ total_storage_used (port s) = 0
  /\ forall p pr, procs s !! p = Some pr ->
       match pr with PShip _ => False | _ => True end.
Proof.
  unfold prepare, start, bind, run_until. intros H.
  destruct (Port_init config) as [pt|] eqn:E; [|discriminate].
  case_match; try discriminate. injection H as <-.
  split; [reflexivity|]. split.
  - unfold Port_init, bind in E. repeat case_match; try discriminate.
    injection E as <-. reflexivity.
  - intros p pr Hp. cbn in Hp.
    destruct p as [|[|p]]; simpl in Hp; try discriminate;
      injection Hp as <-; exact I.
Qed.

Lemma tonnage_inv_prim s s' :
  uniform_in_range R -> tonnage_inv s -> prim s s' -> tonnage_inv s'.
Proof.
  intros HR [Hs Hm] Hp. split.
  - destruct (procs_prim _ _ Hp)
      as [E|[(p & old & new & Ho & Hst & E)|(sh & Hi & Hd & E)]]; rewrite E.
    + exact Hs.
    + intros q sh Hq. destruct (decide (q = p)) as [->|Hne].
      * rewrite list_lookup_insert_eq in Hq by (eapply lookup_lt_Some, Ho).
        injection Hq as ->.
        destruct old as [| |osh]; try contradiction.
        destruct Hst as ((_ & Hc & Ha & _) & _). rewrite Hc, Ha.
        eapply Hs, Ho.
      * rewrite list_lookup_insert_ne in Hq by congruence. eapply Hs, Hq.
    + intros q sh' Hq. apply lookup_app_Some in Hq.
      destruct Hq as [Hq|[_ Hq]]; [eapply Hs, Hq|].
      apply list_lookup_singleton_Some in Hq. destruct Hq as [_ [= <-]].
      destruct Hd as [g0 Hd]. rewrite Hd.
      destruct (cargo_type sh); cbn [tonnage_range fst snd];
        apply HR; lra.
  - destruct (metrics_prim _ _ Hp) as [E|[(r & E)|[(p & sh & Hl & _ & E)|E]]];
      rewrite E; try exact Hm.
    cbn [cargo_processed record_ship_processing].
    apply Forall_app. split; [exact Hm|]. constructor; [|constructor].
    exists (cargo_type sh). eapply Hs, Hl.
Qed.

End Log.

(** In every state of a run the log is aligned: the counter of processed
    ships equals the length of each of the three per-ship lists (waiting
    times, processing times, tonnage), and the three usage lists have one
    sample each per snapshot. *)
Theorem log_lists_stay_aligned {R : RandomSource} (config : Config)
    (simulation_hours : Q) (g : rng R) (s : Sim R) :
  reachable config simulation_hours g s -> log_aligned (metrics s).
Proof.
  apply (invariant_reachable config simulation_hours g
           (fun s => log_aligned (metrics s))).
  - intros s0 H. apply prepare_initial in H. destruct H as [-> _].
    repeat split.
  - intros s0 x rest _ H _. exact H.
  - apply log_aligned_prim.
Qed.

Lemma log_lists_stay_aligned_witness :
  exists s0 : Sim turn_source,
    prepare sample_config 100 (0%nat : rng turn_source) = Ok s0
    /\ let s := advance 40 s0 in
       ships_processed (metrics s) = 2%nat /\ log_aligned (metrics s).
Proof.
  eexists. split; [reflexivity|]. split; [vm_compute; reflexivity|].
  apply (log_lists_stay_aligned sample_config 100 (0%nat : rng turn_source)).
  apply reachable_advance, reach_prepare. reflexivity.
Defined.

(** Two attributes are set up and never written again: in every state of
    a run [Port.total_storage_used] is still 0 (the snapshots compute the
    stored tonnage from the three pools instead) and
    [PortMetrics.bottlenecks] is still empty. *)
Theorem unwritten_attributes_stay_initial {R : RandomSource} (config : Config)
    (simulation_hours : Q) (g : rng R) (s : Sim R) :
  reachable config simulation_hours g s ->
  total_storage_used (port s) = 0 /\ bottlenecks (metrics s) = [].
Proof.
  apply (invariant_reachable config simulation_hours g
           (fun s => total_storage_used (port s) = 0
                     /\ bottlenecks (metrics s) = [])).
  - intros s0 H. apply prepare_initial in H. destruct H as (-> & -> & _).
    split; reflexivity.
  - intros s0 x rest _ H _. exact H.
  - apply unwritten_prim.
Qed.

Lemma unwritten_attributes_stay_initial_witness :
  exists s0 : Sim turn_source,
    prepare sample_config 100 (0%nat : rng turn_source) = Ok s0
    /\ let s := advance 40 s0 in
       0 < level (grain_storage (port s))
       /\ total_storage_used (port s) = 0 /\ bottlenecks (metrics s) = [].
Proof.
  eexists. split; [reflexivity|]. split; [vm_compute; reflexivity|].
  apply (unwritten_attributes_stay_initial sample_config 100
           (0%nat : rng turn_source)).
  apply reachable_advance, reach_prepare. reflexivity.
Defined.

(** When the uniform draws of the random source fall in the range they are
    asked for, every ship of the run carries a tonnage of the range of its
    cargo type, and every tonnage in the log is of one of the three
    ranges: 3000-8000 (grain), 5000-15000 (oil), 1000-5000 (general). *)
Theorem recorded_tonnage_within_ranges {R : RandomSource} (config : Config)
    (simulation_hours : Q) (g : rng R) (s : Sim R) :
  uniform_in_range R ->
  reachable config simulation_hours g s ->
  (forall p sh, procs s !! p = Some (PShip sh) ->
      fst (tonnage_range (cargo_type sh)) <= cargo_amount sh
      <= snd (tonnage_range (cargo_type sh)))
  /\ Forall (fun a => 1000 <= a <= 15000) (cargo_processed (metrics s)).
Proof.
  intros HR Hs.
  assert (H : tonnage_inv s).
  { revert s Hs.
    apply (invariant_reachable config simulation_hours g tonnage_inv).
    - intros s0 H. apply prepare_initial in H. destruct H as (Hm & _ & Hp).
      split; [|rewrite Hm; constructor].
      intros p sh Hl. destruct (Hp _ _ Hl).
    - intros s0 x rest _ H _. exact H.
    - intros s0 s1. apply tonnage_inv_prim, HR. }
  destruct H as [Hp Hm]. split; [exact Hp|].
  eapply Forall_impl; [exact Hm|]. simpl.
  intros a [[] Ha]; cbn in Ha; lra.
Qed.

Lemma recorded_tonnage_within_ranges_witness :
  uniform_in_range turn_source
  /\ exists s0 : Sim turn_source,
       prepare sample_config 100 (0%nat : rng turn_source) = Ok s0
       /\ let s := advance 40 s0 in
          cargo_processed (metrics s) = [3000; 5000]
          /\ (forall p sh, procs s !! p = Some (PShip sh) ->
                 fst (tonnage_range (cargo_type sh)) <= cargo_amount sh
                 <= snd (tonnage_range (cargo_type sh)))
          /\ Forall (fun a => 1000 <= a <= 15000) (cargo_processed (metrics s)).
Proof.
  assert (HR : uniform_in_range turn_source).
  { intros lo hi g Hle. simpl. lra. }
  split; [exact HR|].
  eexists. split; [reflexivity|]. split; [vm_compute; reflexivity|].
  apply (recorded_tonnage_within_ranges sample_config 100
           (0%nat : rng turn_source) _ HR).
  apply reachable_advance, reach_prepare. reflexivity.
Defined.

(** * The load ladder: [find_collapse_point] *)

Lemma analysed_run_report {R : RandomSource} (config : Config)
    (simulation_hours : Q) (fuel : nat) (g g' : rng R) (rep : CapacityReport) :
  analysed_run config simulation_hours fuel g = Returned (rep, g') ->
  exists s : Sim R,
    run_simulation config simulation_hours fuel g = Finished s
    /\ calculate_capacity_metrics (metrics s) config simulation_hours = Ok rep
    /\ g' = random s.
Proof.
  unfold analysed_run.
  destruct (run_simulation _ _ _ _) as [s|e|s|]; try discriminate.
  destruct (calculate_capacity_metrics _ _ _) as [rep'|e] eqn:E;
    [|discriminate].
  intros [= <- <-]. eauto.
Qed.

(** The indicators counted on a rung are those listed by the analysis. *)
Lemma critical_count_issues (m : PortMetrics) (config : Config)
    (simulation_hours : Q) (rep : CapacityReport) :
  calculate_capacity_metrics m config simulation_hours = Ok rep ->
  (Nat.b2n (5 <? max_queue_length rep)%nat
   + Nat.b2n (Qgtb (avg_wait_time_hours rep) 72)
   + Nat.b2n (Qgtb (storage_utilization_pct rep) 95))%nat
  = length (critical_issues rep).
Proof.
  intros H.
  destruct (capacity_report_fields _ _ _ _ H)
    as (_ & _ & _ & _ & _ & _ & _ & _ & _ & _ & _ & _ & Hi & _).
  rewrite Hi.
  destruct (5 <? _)%nat, (Qgtb _ 72), (Qgtb _ 95); reflexivity.
Qed.

Lemma threshold_update_first (threshold : option Q) (k : nat)
    (row : collapse_row) (rows : list collapse_row) :
  threshold = first_row_with k rows ->
  threshold_update threshold k (critical_count row) (load_multiplier row)
  = first_row_with k (rows ++ [row]).
Proof.
  intros ->. unfold first_row_with, threshold_update.
  induction rows as [|r rows IH]; simpl.
  - destruct (k <=? critical_count row)%nat; reflexivity.
  - destruct (k <=? critical_count r)%nat; [reflexivity|exact IH].
Qed.

Lemma collapse_loop_spec {R : RandomSource} (config : Config)
    (simulation_hours : Q) (fuel : nat) (multipliers : list Q)
    (st st' : collapse_report) (g g' : rng R) :
  collapse_loop config simulation_hours fuel multipliers st g
  = Returned (st', g') ->
  ladder_inv st ->
  ladder_inv st'
  /\ map load_multiplier (results st')
     = map load_multiplier (results st) ++ multipliers.
Proof.
  revert st g. induction multipliers as [|m ms IH]; intros st g H Hst.
  - injection H as <- <-. rewrite app_nil_r. auto.
  - cbn [collapse_loop] in H.
    destruct (analysed_run _ _ _ _) as [[rep g1]| |] eqn:E; try discriminate.
    apply analysed_run_report in E. destruct E as (s & _ & E & _).
    apply critical_count_issues in E.
    apply IH in H.
    + destruct H as [Hinv Hm]. split; [exact Hinv|].
      rewrite Hm. cbn [collapse_rung results].
      rewrite map_app, <- app_assoc. reflexivity.
    + destruct Hst as (Hr & H1 & H2 & H3).
      set (row := {| load_multiplier := m;
                     row_annual_cargo_tons := annual_cargo_tons rep;
                     row_avg_queue := avg_queue_length rep;
                     row_max_queue := max_queue_length rep;
                     row_avg_wait_time := avg_wait_time_hours rep;
                     row_storage_usage := storage_utilization_pct rep;
                     critical_count :=
                       (Nat.b2n (5 <? max_queue_length rep)%nat
                        + Nat.b2n (Qgtb (avg_wait_time_hours rep) 72)
                        + Nat.b2n (Qgtb (storage_utilization_pct rep) 95))%nat;
                     row_critical_issues := critical_issues rep |}).
      unfold ladder_inv. cbn [collapse_rung results first_issues_load
                               constant_delays_load full_collapse_load].
      fold row. split; [|split; [|split]].
      * apply Forall_app. split; [exact Hr|]. constructor; [|constructor].
        split; [exact E|]. cbn [critical_count row].
        destruct (5 <? _)%nat, (Qgtb _ 72), (Qgtb _ 95); simpl; lia.
      * apply (threshold_update_first _ 1 row), H1.
      * apply (threshold_update_first _ 2 row), H2.
      * apply (threshold_update_first _ 3 row), H3.
Qed.



(** When [find_collapse_point] returns, its table has one row per
    multiplier of the ladder, in the order of the ladder (1.0 to 3.0), and
    in each row the count of critical indicators equals the number of
    critical issues the analysis listed for that run, at most 3. *)
Theorem collapse_table_rows {R : RandomSource} (config : Config)
    (simulation_hours : Q) (fuel : nat) (g g' : rng R) (rep : collapse_report) :
  find_collapse_point config simulation_hours fuel g = Returned (rep, g') ->
  map load_multiplier (results rep) = load_multipliers
  /\ length (results rep) = 13%nat
  /\ Forall (fun r => critical_count r = length (row_critical_issues r)
                      /\ (critical_count r <= 3)%nat) (results rep).
Proof.
  intros H. apply collapse_loop_spec in H.
  - destruct H as [(Hr & _) Hm]. cbn in Hm.
    split; [exact Hm|]. split; [|exact Hr].
    rewrite <- (length_map load_multiplier), Hm. reflexivity.
  - repeat split. constructor.
Qed.


Lemma collapse_table_rows_witness :
  exists (rep : collapse_report) (g' : rng turn_source),
    find_collapse_point (with_ships_per_year 2920 config_overloaded) 30 2000
      (0%nat : rng turn_source) = Returned (rep, g')
    /\ map load_multiplier (results rep) = load_multipliers
    /\ length (results rep) = 13%nat
    /\ Forall (fun r => critical_count r = length (row_critical_issues r)
                        /\ (critical_count r <= 3)%nat) (results rep).
Proof.
  eexists _, _. split; [vm_compute; reflexivity|].
  eapply (collapse_table_rows (with_ships_per_year 2920 config_overloaded) 30
            2000 (0%nat : rng turn_source)).
  vm_compute. reflexivity.
Defined.


Section ZeroShips.
Context {R : RandomSource}.

Lemma heappush_after (x y : entry) (q : list entry) :
  entry_lt x y = false -> heappush x (y :: q) = y :: heappush x q.
Proof. intros H. simpl. rewrite H. reflexivity. Qed.

Lemma heappush_before (x y : entry) (q : list entry) :
  entry_lt x y = true -> heappush x (y :: q) = x :: y :: q.
Proof. intros H. simpl. rewrite H. reflexivity. Qed.

Lemma entry_lt_later (x y : entry) :
  e_time y < e_time x -> entry_lt x y = false.
Proof.
  intros H. unfold entry_lt.
  destruct (Qltb _ _) eqn:T; q_tests; [lra|].
  destruct (Qeq_bool _ _) eqn:T'; [|reflexivity].
  apply Qeq_bool_eq in T'. lra.
Qed.

Lemma entry_lt_earlier (x y : entry) :
  e_time x < e_time y -> entry_lt x y = true.
Proof.
  intros H. unfold entry_lt. apply Qltb_lt in H. rewrite H. reflexivity.
Qed.

Lemma entry_lt_same_time (x y : entry) :
  e_time x == e_time y ->
  entry_lt x y
  = ((e_priority x <? e_priority y)%nat
     || ((e_priority x =? e_priority y)%nat && (e_eid x <? e_eid y)%nat)).
Proof.
  intros H. unfold entry_lt.
  destruct (Qltb _ _) eqn:T; q_tests; [lra|].
  apply Qeq_bool_iff in H. rewrite H. reflexivity.
Qed.

Lemma step_initialize (s : Sim R) x rest p :
  events s = x :: rest -> e_event x = Initialize p ->
  step s = resumed (resume p (Initialize p) (popped x rest s)).
Proof. intros E Ev. unfold step. rewrite E, Ev. reflexivity. Qed.

Lemma step_process_fail (s : Sim R) x rest p e :
  events s = x :: rest -> e_event x = ProcessFail p e -> step s = Throw e.
Proof. intros E Ev. unfold step. rewrite E, Ev. reflexivity. Qed.

(** The generator divides by [ships_per_year] when it starts. *)
Lemma generator_start_zero_ships (s : Sim R) p n inter :
  procs s !! p = Some (PGen n inter GenInit) ->
  ships_per_year (port_config (port s)) = 0%Z ->
  resume p (Initialize p) s = Some (gen_fail p 0 inter ZeroDivisionError s).
Proof.
  intros Hp Hz. unfold resume. rewrite Hp. cbn [gen_resume]. rewrite Hz.
  reflexivity.
Qed.

(** The rail process starts by scheduling one event, not in the past. *)
Lemma rail_start_schedules (s : Sim R) p :
  procs s !! p = Some (PRail RailInit) ->
  exists s' x,
    resume p (Initialize p) s = Some s'
    /\ events s' = heappush x (events s)
    /\ now s <= e_time x /\ e_priority x = NORMAL /\ e_eid x = eid s.
Proof.
  intros Hp. unfold resume. rewrite Hp. cbn [rail_resume].
  unfold rail_wait_interval, rail_fail.
  destruct (py_div _ _) as [interval|e].
  - destruct (Qltb interval 0) eqn:T; q_tests;
      eexists _, _; (split; [reflexivity|]); (split; [reflexivity|]);
      cbn; repeat split; lra.
  - eexists _, _. split; [reflexivity|]. split; [reflexivity|].
    cbn. repeat split; lra.
Qed.

Lemma zero_ships_run (config : Config) (simulation_hours : Q) (g : rng R)
    (s0 : Sim R) (fuel : nat) :
  ships_per_year config = 0%Z ->
  prepare config simulation_hours g = Ok s0 ->
  run_loop (S (S (S fuel))) s0 = Raised ZeroDivisionError.
Proof.
  intros Hz H. unfold prepare, start, bind, run_until in H.
  destruct (Port_init config) as [pt|] eqn:E; [|discriminate].
  assert (Hc : port_config pt = config).
  { unfold Port_init, bind in E. repeat case_match; try discriminate.
    injection E as <-. reflexivity. }
  destruct (Qle_bool _ _) eqn:T; [discriminate|]. injection H as <-.
  q_tests. cbn [now spawn schedule set_procs] in T.
  set (e0 := {| e_time := 0; e_priority := URGENT; e_eid := 0%nat;
                e_event := Initialize 0%nat |}).
  set (e1 := {| e_time := 0; e_priority := URGENT; e_eid := 1%nat;
                e_event := Initialize 1%nat |}).
  set (eU := {| e_time := 0 + (simulation_hours - 0); e_priority := URGENT;
                e_eid := 2%nat; e_event := Until |}).
  set (eF := {| e_time := 0 + 0; e_priority := NORMAL; e_eid := 3%nat;
                e_event := ProcessFail 0%nat ZeroDivisionError |}).
  assert (E1 : spawn (PRail RailInit)
                 (spawn (PGen 0%nat 0 GenInit)
                    {| now := 0; eid := 0%nat; events := []; port := pt;
                       metrics := PortMetrics_init; procs := [];
                       random := g |})
               = {| now := 0; eid := 2%nat; events := [e0; e1]; port := pt;
                    metrics := PortMetrics_init;
                    procs := [PGen 0%nat 0 GenInit; PRail RailInit];
                    random := g |})
    by (vm_compute; reflexivity).
  rewrite E1. clear E1.
  set (s0 := schedule Until URGENT (simulation_hours - 0) _).
  assert (Ev0 : events s0 = [e0; e1; eU]).
  { unfold s0, schedule. cbn [now eid events port metrics procs random].
    rewrite heappush_after by (apply entry_lt_later; cbn; lra).
    rewrite heappush_after by (apply entry_lt_later; cbn; lra).
    reflexivity. }
  (* the generator starts and fails *)
  cbn [run_loop].
  rewrite (step_initialize s0 e0 [e1; eU] 0%nat Ev0 eq_refl).
  rewrite (generator_start_zero_ships _ 0%nat 0%nat 0)
    by (try reflexivity; cbn; rewrite Hc; exact Hz).
  cbn [resumed].
  set (s1 := gen_fail 0%nat 0%nat 0 ZeroDivisionError (popped e0 [e1; eU] s0)).
  assert (Ev1 : events s1 = [e1; eF; eU]).
  { unfold s1, gen_fail, schedule, popped.
    cbn [now eid events port metrics procs random set_proc set_procs
         set_events set_now s0 schedule e_time e0].
    rewrite heappush_after by (rewrite entry_lt_same_time; reflexivity).
    rewrite heappush_before by (apply entry_lt_earlier; cbn; lra).
    reflexivity. }
  (* the rail process starts *)
  rewrite (step_initialize s1 e1 [eF; eU] 1%nat Ev1 eq_refl).
  destruct (rail_start_schedules (popped e1 [eF; eU] s1) 1%nat)
    as (s2 & x & -> & Ev2 & Hx & Hp & Hi); [reflexivity|].
  cbn [resumed].
  (* the failure of the generator leaves the loop *)
  assert (Ev2' : events s2 = eF :: heappush x [eU]).
  { rewrite Ev2. cbn [popped events set_events set_now].
    apply heappush_after.
    cbn [popped now set_events set_now e_time e1] in Hx.
    destruct (Qlt_le_dec (e_time eF) (e_time x)) as [Hlt|Hle].
    - apply entry_lt_later, Hlt.
    - rewrite entry_lt_same_time by (cbn in *; lra).
      rewrite Hp, Hi. reflexivity. }
  rewrite (step_process_fail s2 eF _ 0%nat ZeroDivisionError Ev2' eq_refl).
  reflexivity.
Qed.

End ZeroShips.

Lemma prepare_accepts {R : RandomSource} (config : Config)
    (simulation_hours : Q) (g : rng R) :
  ~ rejected_before_run config simulation_hours ->
  exists s, prepare config simulation_hours g = Ok s.
Proof.
  intros Hv. unfold prepare, start, bind, run_until.
  pose proof (Port_init_cases config) as Hp.
  destruct (Port_init config) as [pt|e].
  - cbn [now spawn schedule set_procs].
    destruct (Qle_bool simulation_hours 0) eqn:T; [|eauto].
    q_tests. exfalso. apply Hv. unfold rejected_before_run. tauto.
  - exfalso. apply Hv. unfold rejected_before_run. tauto.
Qed.

(** A configuration with [ships_per_year = 0] that the port accepts does
    not give an empty run: the generator divides 8760 by it when it starts
    (line 219), and the run raises [ZeroDivisionError] as soon as the
    events of time 0 are processed; [find_collapse_point], whose first rung
    runs that configuration, and [run_stress_scenarios], whose first
    scenario scales the zero, raise the same error. *)
Theorem zero_ships_per_year_raises {R : RandomSource} (config : Config)
    (simulation_hours : Q) (fuel : nat) (g : rng R) :
  ships_per_year config = 0%Z ->
  ~ rejected_before_run config simulation_hours ->
  (3 <= fuel)%nat ->
  run_simulation config simulation_hours fuel g = Raised ZeroDivisionError
  /\ find_collapse_point config simulation_hours fuel g
     = Raising ZeroDivisionError
  /\ run_stress_scenarios config simulation_hours fuel g
     = Raising ZeroDivisionError.
Proof.
  intros Hz Hv Hf.
  assert (Hrun : forall config',
             ships_per_year config' = 0%Z ->
             ~ rejected_before_run config' simulation_hours ->
             run_simulation config' simulation_hours fuel g
             = Raised ZeroDivisionError).
  { intros config' Hz' Hv'.
    destruct (prepare_accepts config' simulation_hours g Hv') as [s0 E].
    unfold run_simulation. rewrite E.
    destruct fuel as [|[|[|fuel]]]; try lia.
    eapply zero_ships_run; eassumption. }
  split; [apply Hrun; assumption|]. split.
  - unfold find_collapse_point, load_multipliers.
    cbn [map collapse_loop]. rewrite Hz.
    change (scaled_int 0 (round_double 1)) with 0%Z.
    unfold analysed_run. rewrite Hrun; [reflexivity|reflexivity|exact Hv].
  - unfold run_stress_scenarios, scenario_configs. cbn [scenario_runs].
    unfold analysed_run. rewrite Hrun; [reflexivity| |exact Hv].
    cbn [scenario1_config with_ships_per_year ships_per_year]. rewrite Hz.
    vm_compute. reflexivity.
Qed.

Lemma zero_ships_per_year_raises_witness :
  ships_per_year (with_ships_per_year 0 sample_config) = 0%Z
  /\ ~ rejected_before_run (with_ships_per_year 0 sample_config) 100
  /\ (3 <= 5)%nat
  /\ run_simulation (with_ships_per_year 0 sample_config) 100 5
       (0%nat : rng turn_source) = Raised ZeroDivisionError
  /\ find_collapse_point (with_ships_per_year 0 sample_config) 100 5
       (0%nat : rng turn_source) = Raising ZeroDivisionError
  /\ run_stress_scenarios (with_ships_per_year 0 sample_config) 100 5
       (0%nat : rng turn_source) = Raising ZeroDivisionError.
Proof.
  assert (Hv : ~ rejected_before_run (with_ships_per_year 0 sample_config) 100).
  { unfold rejected_before_run. cbn. intros H.
    repeat (destruct H as [H|H]); try lia; try (revert H; apply Qlt_not_le; reflexivity). }
  split; [reflexivity|]. split; [exact Hv|]. split; [lia|].
  apply (zero_ships_per_year_raises (with_ships_per_year 0 sample_config) 100 5
           (0%nat : rng turn_source) eq_refl Hv).
  lia.
Defined.

(** * The stress scenarios: [run_stress_scenarios] *)



Lemma scenario_runs_spec {R : RandomSource} (configs : list Config)
    (simulation_hours : Q) (fuel : nat) (g g' : rng R) (l : list scenario) :
  scenario_runs configs simulation_hours fuel g = Returned (l, g') ->
  map scenario_config l = configs
  /\ Forall (fun x =>
               exists (g0 : rng R) (s : Sim R),
                 run_simulation (scenario_config x) simulation_hours fuel g0
                 = Finished s
                 /\ calculate_capacity_metrics (metrics s) (scenario_config x)
                      simulation_hours
                    = Ok (scenario_metrics x)) l.
Proof.
  revert g l. induction configs as [|config rest IH]; intros g l H.
  - injection H as <- <-. split; [reflexivity|constructor].
  - cbn [scenario_runs] in H.
    destruct (analysed_run _ _ _ _) as [[rep g1]| |] eqn:E; try discriminate.
    destruct (scenario_runs rest _ _ _) as [[l1 g2]| |] eqn:E1;
      try discriminate.
    injection H as <- <-. apply IH in E1. destruct E1 as [Hm Hl].
    apply analysed_run_report in E. destruct E as (s & Hs & Hrep & _).
    split; [cbn; rewrite Hm; reflexivity|].
    constructor; [|exact Hl]. cbn. eauto.
Qed.

(** When [run_stress_scenarios] returns, it returns six entries, one per
    scenario in order; the report of each entry is the analysis of a
    finished run of that scenario's own configuration, over the same
    horizon, so the run ended at the horizon and the berth, crane and
    storage utilization of the report lie between 0 and 100. *)
Theorem stress_scenarios_reports {R : RandomSource} (base_config : Config)
    (simulation_hours : Q) (fuel : nat) (g g' : rng R) (l : list scenario) :
  run_stress_scenarios base_config simulation_hours fuel g = Returned (l, g') ->
  map scenario_config l = scenario_configs base_config
  /\ length l = 6%nat
  /\ Forall (fun x =>
               (exists (g0 : rng R) (s : Sim R),
                   run_simulation (scenario_config x) simulation_hours fuel g0
                   = Finished s
                   /\ now s == simulation_hours
                   /\ calculate_capacity_metrics (metrics s)
                        (scenario_config x) simulation_hours
                      = Ok (scenario_metrics x))
               /\ 0 <= berth_utilization_pct (scenario_metrics x) <= 100
               /\ 0 <= crane_utilization_pct (scenario_metrics x) <= 100
               /\ 0 <= storage_utilization_pct (scenario_metrics x) <= 100) l.
Proof.
  intros H. apply scenario_runs_spec in H. destruct H as [Hm Hl].
  split; [exact Hm|]. split.
  - rewrite <- (length_map scenario_config), Hm. reflexivity.
  - eapply Forall_impl; [exact Hl|]. cbn.
    intros x (g0 & s & Hs & Hrep).
    destruct (run_simulation_finished _ _ _ _ _ Hs) as (s1 & Hr & Hstop).
    assert (Hr' : reachable (scenario_config x) simulation_hours g0 s)
      by (eapply reach_stop; eassumption).
    split.
    + exists g0, s. split; [exact Hs|]. split; [|exact Hrep].
      assert (Hc := clock_inv_reachable _ _ _ _ Hr).
      pose proof (step_prims s1) as Hp. rewrite Hstop in Hp.
      destruct Hp as (y & rest & E & Hu & ->).
      destruct (clock_inv_pop _ _ _ _ Hc E) as (_ & _ & Hx).
      exact (Hx Hu).
    + eapply utilization_bounds_reachable; eassumption.
Qed.

Lemma stress_scenarios_reports_witness :
  exists (l : list scenario) (g' : rng turn_source),
    run_stress_scenarios sample_config 30 400 (0%nat : rng turn_source)
    = Returned (l, g')
    /\ map scenario_config l = scenario_configs sample_config
    /\ length l = 6%nat
    /\ Forall (fun x =>
                 (exists (g0 : rng turn_source) (s : Sim turn_source),
                     run_simulation (scenario_config x) 30 400 g0 = Finished s
                     /\ now s == 30
                     /\ calculate_capacity_metrics (metrics s)
                          (scenario_config x) 30
                        = Ok (scenario_metrics x))
                 /\ 0 <= berth_utilization_pct (scenario_metrics x) <= 100
                 /\ 0 <= crane_utilization_pct (scenario_metrics x) <= 100
                 /\ 0 <= storage_utilization_pct (scenario_metrics x) <= 100) l.
Proof.
  eexists _, _. split; [vm_compute; reflexivity|].
  eapply (stress_scenarios_reports sample_config 30 400 (0%nat : rng turn_source)).
  vm_compute. reflexivity.
Defined.
